(** * Line Break Cleaner: a shallow embedding of the text core

    The plugin decides which line breaks of a text block are structural and
    which are incidental, and rewrites the text.  Two revisions of the plugin
    body are embedded side by side, [CodeTs] (src/code.ts) and [Part000]
    (src/unnamed/part_000), together with the two small functions of the
    modular revision under src/src ([SrcDir]).

    JavaScript values are modelled as the language has them: a string is the
    sequence of its UTF-16 code units, a number is an IEEE 754 binary64
    float. *)

From Stdlib Require Import ZArith List Bool Lia Floats.
Import ListNotations.

Set Warnings "-inexact-float".

(** ** JavaScript primitives *)

Module Js.

(** A string is its list of UTF-16 code units (each in 0..65535). *)
Definition jsstring := list Z.

Definition LF : Z := 10.
Definition SPACE : Z := 32.

Definition inRange (lo hi c : Z) : bool := (lo <=? c)%Z && (c <=? hi)%Z.

(** The code units matched by [\s] and stripped by [String.prototype.trim]:
    WhiteSpace and LineTerminator of ECMA-262. *)
Definition isWhiteSpace (c : Z) : bool :=
  inRange 9 13 c || (c =? 32)%Z || (c =? 160)%Z || (c =? 5760)%Z
  || inRange 8192 8202 c || (c =? 8232)%Z || (c =? 8233)%Z
  || (c =? 8239)%Z || (c =? 8287)%Z || (c =? 12288)%Z || (c =? 65279)%Z.

Fixpoint dropWhile (p : Z -> bool) (s : jsstring) : jsstring :=
  match s with
  | [] => []
  | c :: s' => if p c then dropWhile p s' else s
  end.

(** [s.replace(/^\s+/, '')] *)
Definition trimStart (s : jsstring) : jsstring := dropWhile isWhiteSpace s.

(** [s.replace(/\s+$/, '')] *)
Definition trimEnd (s : jsstring) : jsstring :=
  rev (dropWhile isWhiteSpace (rev s)).

(** [s.trim()] *)
Definition trim (s : jsstring) : jsstring := trimEnd (trimStart s).

(** [s === ''] *)
Definition isEmpty (s : jsstring) : bool :=
  match s with [] => true | _ => false end.

(** [s === t] on strings *)
Fixpoint streq (s t : jsstring) : bool :=
  match s, t with
  | [], [] => true
  | c :: s', d :: t' => (c =? d)%Z && streq s' t'
  | _, _ => false
  end.

(** [s.slice(-1)]: the last code unit, when there is one. *)
Fixpoint lastChar (s : jsstring) : option Z :=
  match s with
  | [] => None
  | [c] => Some c
  | _ :: s' => lastChar s'
  end.

(** [s.slice(0, 1)] *)
Definition firstChar (s : jsstring) : option Z :=
  match s with [] => None | c :: _ => Some c end.

(** [s.split(re)] for a regular expression [re] that is one character
    class: every match is exactly one code unit, the one satisfying [p]. *)
Fixpoint splitOn (p : Z -> bool) (s : jsstring) : list jsstring :=
  match s with
  | [] => [[]]
  | c :: s' =>
      if p c then [] :: splitOn p s'
      else match splitOn p s' with
           | l :: ls => (c :: l) :: ls
           | [] => [[c]]
           end
  end.

(** [parts.join(sep)] *)
Fixpoint join (sep : jsstring) (parts : list jsstring) : jsstring :=
  match parts with
  | [] => []
  | [x] => x
  | x :: xs => x ++ sep ++ join sep xs
  end.

Definition consHead (c : Z) (ts : list jsstring) : list jsstring :=
  match ts with
  | t :: ts' => (c :: t) :: ts'
  | [] => [[c]]
  end.

(** [s.split(/(\s+)/)]: the words of [s] alternating with the captured
    whitespace runs between them; the list starts and ends with a word,
    which is empty when [s] starts or ends with whitespace.  The head of
    the result is the token being read: a whitespace run when [inWs]. *)
Fixpoint tokens (inWs : bool) (s : jsstring) : list jsstring :=
  match s with
  | [] => if inWs then [[]; []] else [[]]
  | c :: s' =>
      if isWhiteSpace c
      then if inWs then consHead c (tokens true s')
           else [] :: consHead c (tokens true s')
      else if inWs then [] :: consHead c (tokens false s')
           else consHead c (tokens false s')
  end.

Definition splitWs (s : jsstring) : list jsstring := tokens false s.

(** [x || d] on numbers: [0], [-0] and [NaN] are falsy, an absent
    (undefined) property too. *)
Definition orDefault (x : option float) (d : float) : float :=
  match x with
  | None => d
  | Some v => if (v =? 0)%float || is_nan v then d else v
  end.

End Js.

(** ** Shared data model *)

Inductive AutoResize := NONE | HEIGHT | WIDTH_AND_HEIGHT | TRUNCATE.

Definition AutoResize_eqb (a b : AutoResize) : bool :=
  match a, b with
  | NONE, NONE | HEIGHT, HEIGHT
  | WIDTH_AND_HEIGHT, WIDTH_AND_HEIGHT | TRUNCATE, TRUNCATE => true
  | _, _ => false
  end.

Inductive DetectionType := AutoWidth | EdgeBreaking | SoftBreak.

Definition DetectionType_eqb (a b : DetectionType) : bool :=
  match a, b with
  | AutoWidth, AutoWidth | EdgeBreaking, EdgeBreaking
  | SoftBreak, SoftBreak => true
  | _, _ => false
  end.

(** The properties of a host [TextNode] that the core reads.  [fontSize] is
    [None] when the host reports [figma.mixed]. *)
Record TextNode := mkTextNode {
  characters : Js.jsstring;
  width : float;
  fontSize : option float;
  textAutoResize : AutoResize;
  locked : bool;
  visible : bool;
  hasMissingFont : bool;
  paragraphSpacing : float
}.

(** [interface ProcessingChanges] *)
Record ProcessingChanges := mkChanges {
  newText : option Js.jsstring;
  newAutoResize : option AutoResize
}.

(** [typeof node.fontSize === 'number' ? node.fontSize : 16] *)
Definition getFontSize (node : TextNode) : float :=
  match fontSize node with
  | Some f => f
  | None => 16%float
  end.

(** ['Batch analysis failed: '], the start of the message of the error that
    [analyzeNodes] of src/code.ts and of part_000 throws *)
Definition BATCH_ANALYSIS_FAILED : Js.jsstring :=
  [66; 97; 116; 99; 104; 32; 97; 110; 97; 108; 121; 115; 105; 115; 32;
   102; 97; 105; 108; 101; 100; 58; 32]%Z.

(** ** The rejoin loop

    [removeLineBreaksJapanesePriority] has the same two loops in both
    revisions; they differ in how the text is split into lines, in the
    test of a non-final line and in [combineLines]. *)

Section RejoinLoop.

(** does the break after this non-final line stay? *)
Variable breakAfterLine : Js.jsstring -> bool.
Variable combineLines : Js.jsstring -> Js.jsstring -> Js.jsstring.

(** First loop: [shouldBreakAfter[i]] for [i] from [0] to
    [lines.length - 1]. *)
Definition shouldBreakAfterAt (lines : list Js.jsstring) (i : nat) : bool :=
  if (i =? length lines - 1)%nat then true
  else breakAfterLine (nth i lines []).

Definition shouldBreakAfter (lines : list Js.jsstring) : list bool :=
  map (shouldBreakAfterAt lines) (seq 0 (length lines)).

(** Second loop, one iteration: the state is [result] and
    [currentCombined]. *)
Definition joinStep (st : list Js.jsstring * Js.jsstring)
    (lb : Js.jsstring * bool) : list Js.jsstring * Js.jsstring :=
  let '(result, currentCombined) := st in
  let '(line, brk) := lb in
  let combined :=
    if Js.isEmpty currentCombined then line
    else combineLines currentCombined line in
  if brk then (result ++ [combined], []) else (result, combined).

Definition joinLines (lines : list Js.jsstring) : list Js.jsstring :=
  fst (fold_left joinStep (combine lines (shouldBreakAfter lines)) ([], [])).

(** [result.join('\n')] *)
Definition rejoinLines (lines : list Js.jsstring) : Js.jsstring :=
  Js.join [Js.LF] (joinLines lines).

End RejoinLoop.

(** ** The word-wrap simulation

    [simulateWordWrap] is the same in both revisions up to the width
    estimator and the way the break pattern is obtained. *)

Section WordWrap.

Variable estimateTextWidth : Js.jsstring -> float -> float.
(** the regular expression built from the hard break and the soft breaks,
    as the test it makes on one code unit; [None] when [new RegExp]
    throws *)
Variable breakPattern : option (Z -> bool).
Variable containerWidth : float.
Variable fontSize' : float.

(** one iteration of [for (const word of words)]; the state is [lines]
    (the lines flushed so far) and [currentLine] *)
Definition wrapStep (st : list Js.jsstring * Js.jsstring)
    (word : Js.jsstring) : list Js.jsstring * Js.jsstring :=
  let '(lines, currentLine) := st in
  let testLine := currentLine ++ word in
  let estimatedWidth := estimateTextWidth testLine fontSize' in
  if (estimatedWidth <=? containerWidth)%float || Js.isEmpty currentLine
  then (lines, testLine)
  else (lines ++ [currentLine], word).

(** one iteration of [for (const paragraph of paragraphs)] *)
Definition wrapParagraph (lines : list Js.jsstring)
    (paragraph : Js.jsstring) : list Js.jsstring :=
  if Js.isEmpty (Js.trim paragraph) then lines ++ [[]]
  else
    let words := Js.splitWs paragraph in
    let '(lines', currentLine) := fold_left wrapStep words (lines, []) in
    if negb (Js.isEmpty currentLine) then lines' ++ [currentLine]
    else lines'.

(** [None] is the SyntaxError of the break pattern, which is built before
    the loop *)
Definition simulateWordWrap (text : Js.jsstring)
    : option (list Js.jsstring) :=
  match breakPattern with
  | None => None
  | Some breakPattern =>
      let paragraphs := Js.splitOn breakPattern text in
      Some (fold_left wrapParagraph paragraphs [])
  end.

End WordWrap.

(** ** Regular expressions made of one pattern character

    [convertSoftBreaksToHard] builds [new RegExp(softBreakChar, 'g')] from
    the configured value as it is, without escaping it.  For a value of one
    code unit the pattern is one of the following (ECMA-262 with the Annex B
    grammar, where a lone brace or closing bracket is a literal). *)

Inductive Pattern :=
| PLiteral (c : Z)     (* the code unit itself *)
| PAnyChar             (* [.]: any code unit but a line terminator *)
| PStart               (* [^]: the empty match at index 0 *)
| PEnd                 (* [$]: the empty match at the end of the input *)
| PEmpty.              (* [|]: the empty match at every index *)

Definition isLineTerminator (c : Z) : bool :=
  (c =? 10)%Z || (c =? 13)%Z || (c =? 8232)%Z || (c =? 8233)%Z.

(** [new RegExp(c)]; [None] is the SyntaxError thrown for a quantifier with
    nothing to repeat, an unbalanced group or class, or a lone backslash. *)
Definition compilePattern (c : Z) : option Pattern :=
  if (c =? 46)%Z then Some PAnyChar
  else if (c =? 94)%Z then Some PStart
  else if (c =? 36)%Z then Some PEnd
  else if (c =? 124)%Z then Some PEmpty
  else if (c =? 42)%Z || (c =? 43)%Z || (c =? 63)%Z      (* * + ? *)
          || (c =? 40)%Z || (c =? 41)%Z || (c =? 91)%Z   (* ( ) [ *)
          || (c =? 92)%Z                                  (* \ *)
       then None
  else Some (PLiteral c).

(** the pattern characters that stand for themselves *)
Definition isLiteralPattern (c : Z) : bool :=
  match compilePattern c with
  | Some (PLiteral _) => true
  | _ => false
  end.

(** [text.replace(re, '\n')] with the global flag *)
Definition replaceAll (re : Pattern) (text : Js.jsstring) : Js.jsstring :=
  match re with
  | PLiteral c => map (fun x => if (x =? c)%Z then Js.LF else x) text
  | PAnyChar => map (fun x => if isLineTerminator x then x else Js.LF) text
  | PStart => Js.LF :: text
  | PEnd => text ++ [Js.LF]
  | PEmpty => Js.LF :: flat_map (fun x => [x; Js.LF]) text
  end.

(** [convertSoftBreaksToHard], the same in both revisions:
    [for (const softBreakChar of softBreakChars)
       result = result.replace(new RegExp(softBreakChar, 'g'), '\n')] *)
Fixpoint convertSoftBreaksToHard (softBreakChars : list Z)
    (text : Js.jsstring) : option Js.jsstring :=
  match softBreakChars with
  | [] => Some text
  | softBreakChar :: rest =>
      match compilePattern softBreakChar with
      | None => None
      | Some re => convertSoftBreaksToHard rest (replaceAll re text)
      end
  end.

(** ** The break class

    Both revisions split a text at
    [new RegExp(`[${allBreakChars.map(escape).join('')}]`)], where
    [allBreakChars] is the hard break followed by the configured soft
    breaks and [escape] puts a backslash before [. * + ? ^ $ { } ( ) | [ ] \].
    A hyphen is not escaped: between two characters of the class it makes
    a range, and the class does not compile when the range is out of
    order. *)

Definition HYPHEN : Z := 45.

(** The ranges of a character class whose atoms are the code units
    [atoms], read from the left as ECMA-262 [ClassRanges] does; an atom
    on its own is the range from itself to itself.  [None] is the
    SyntaxError of a range out of order. *)
Fixpoint classRanges (atoms : list Z) : option (list (Z * Z)) :=
  match atoms with
  | [] => Some []
  | a :: rest =>
      match rest with
      | h :: b :: rest' =>
          if (h =? HYPHEN)%Z
          then if (a <=? b)%Z
               then option_map (cons (a, b)) (classRanges rest')
               else None
          else option_map (cons (a, a)) (classRanges rest)
      | _ => option_map (cons (a, a)) (classRanges rest)
      end
  end.

Definition inClass (ranges : list (Z * Z)) (c : Z) : bool :=
  existsb (fun range => Js.inRange (fst range) (snd range) c) ranges.

(** the compiled break pattern as a test on one code unit *)
Definition compileBreakClass (softBreakChars : list Z)
    : option (Z -> bool) :=
  option_map inClass (classRanges (Js.LF :: softBreakChars)).

(** no soft break but the last is a hyphen: the class has no range *)
Definition formsNoRange (softBreakChars : list Z) : bool :=
  negb (existsb (Z.eqb HYPHEN) (removelast softBreakChars)).

(** ** Applying changes

    [class FontManager] and [interface ProcessingResult] are the same in
    src/code.ts and in part_000.  Within one call the plugin only reads
    a node before it writes to it, and the node is taken not to change
    while the call is suspended, so a call is modelled by the node as it
    was read and the list of the writes made, in their order. *)

Module Processing.

(** the [reason] of a validation issue *)
Inductive ValidationReason := MissingFont | NodeIsLocked | NodeIsHidden.

(** ['Missing font - cannot process'], ['Node is locked'],
    ['Node is hidden'] *)
Definition reasonText (reason : ValidationReason) : Js.jsstring :=
  match reason with
  | MissingFont =>
      [77; 105; 115; 115; 105; 110; 103; 32; 102; 111; 110; 116; 32; 45;
       32; 99; 97; 110; 110; 111; 116; 32; 112; 114; 111; 99; 101; 115;
       115]%Z
  | NodeIsLocked =>
      [78; 111; 100; 101; 32; 105; 115; 32; 108; 111; 99; 107; 101;
       100]%Z
  | NodeIsHidden =>
      [78; 111; 100; 101; 32; 105; 115; 32; 104; 105; 100; 100; 101;
       110]%Z
  end.

(** ['Node cannot be processed'] *)
Definition NODE_CANNOT_BE_PROCESSED : Js.jsstring :=
  [78; 111; 100; 101; 32; 99; 97; 110; 110; 111; 116; 32; 98; 101; 32;
   112; 114; 111; 99; 101; 115; 115; 101; 100]%Z.

(** ['Unknown error'] *)
Definition UNKNOWN_ERROR : Js.jsstring :=
  [85; 110; 107; 110; 111; 119; 110; 32; 101; 114; 114; 111; 114]%Z.

(** [checkMissingFonts] *)
Definition checkMissingFonts (nodes : list TextNode) : list TextNode :=
  filter hasMissingFont nodes.

(** [validateNodesForProcessing], one iteration of
    [for (const node of nodes)]; the state is [processable] and
    [issues] *)
Definition validateStep
    (st : list TextNode * list (TextNode * ValidationReason))
    (node : TextNode)
    : list TextNode * list (TextNode * ValidationReason) :=
  let '(processable, issues) := st in
  if hasMissingFont node then (processable, issues ++ [(node, MissingFont)])
  else if locked node then (processable, issues ++ [(node, NodeIsLocked)])
  else if negb (visible node)
  then (processable, issues ++ [(node, NodeIsHidden)])
  else (processable ++ [node], issues).

Definition validateNodesForProcessing (nodes : list TextNode)
    : list TextNode * list (TextNode * ValidationReason) :=
  fold_left validateStep nodes ([], []).

(** an assignment to a property of the host node *)
Inductive NodeWrite :=
| SetTextAutoResize (value : AutoResize)
| SetCharacters (value : Js.jsstring).

(** what the [try] blocks of the processing catch *)
Inductive Thrown :=
| MissingFontError     (* [Cannot process node with missing font] *)
| LockedError          (* [Cannot process locked node] *)
| FontLoadError        (* [loadNodeFonts] rejects *)
| ApplyError           (* the host refuses an assignment *)
| PatternError.        (* the SyntaxError of a [new RegExp] *)

Section Host.

(** does [loadNodeFonts] succeed, and does the host accept a write? *)
Variable fontsLoad : bool.
Variable accepts : NodeWrite -> bool.

(** an assignment inside the [try] of [applyChangesToNode]; the state
    is the list of the writes made *)
Definition write (done : list NodeWrite) (w : NodeWrite)
    : list NodeWrite * option Thrown :=
  if accepts w then (done ++ [w], None) else (done, Some ApplyError).

(** [applyChangesToNode]: the writes made, and what it throws.
    [if (changes.newText)] is false for the empty string too. *)
Definition applyChangesToNode (node : TextNode)
    (changes : ProcessingChanges) : list NodeWrite * option Thrown :=
  if hasMissingFont node then ([], Some MissingFontError)
  else if locked node then ([], Some LockedError)
  else if negb fontsLoad then ([], Some FontLoadError)
  else
    let '(done, thrown) :=
      match newAutoResize changes with
      | Some value => write [] (SetTextAutoResize value)
      | None => ([], None)
      end in
    match thrown with
    | Some e => (done, Some e)
    | None =>
        match newText changes with
        | Some (c :: t) => write done (SetCharacters (c :: t))
        | _ => (done, None)
        end
    end.

End Host.

(** [interface ProcessingResult]; its [node] is the node the call was
    given *)
Record ProcessingResult := mkProcessingResult {
  success : bool;
  error : option Js.jsstring;
  changes : option ProcessingChanges
}.

(** the [forceChanges] of [processIndividualNode]; a flag that is left
    out counts as false *)
Record ForceChanges := mkForceChanges {
  removeLineBreaks : bool;
  convertSoftBreaks : bool
}.

(** [changes: {}] *)
Definition noChanges : ProcessingChanges :=
  {| newText := None; newAutoResize := None |}.

(** [Object.keys(changes).length > 0] *)
Definition hasKeys (c : ProcessingChanges) : bool :=
  match newText c, newAutoResize c with
  | None, None => false
  | _, _ => true
  end.

Definition failed (text : Js.jsstring) : ProcessingResult :=
  {| success := false; error := Some text; changes := None |}.

Definition succeeded (c : ProcessingChanges) : ProcessingResult :=
  {| success := true; error := None; changes := Some c |}.

(** the start of [processIndividualNode]: the result when the node does
    not pass [validateNodesForProcessing([node])] *)
Definition validateOne (node : TextNode) : option ProcessingResult :=
  let '(processable, issues) := validateNodesForProcessing [node] in
  if (length processable =? 0)%nat
  then Some (failed match issues with
                    | (_, reason) :: _ => reasonText reason
                    | [] => NODE_CANNOT_BE_PROCESSED
                    end)
  else None.

Section Report.

Variable fontsLoad : bool.
Variable accepts : NodeWrite -> bool.

(** [error.message] of what was thrown *)
Variable messageOf : Thrown -> Js.jsstring.

(** [await applyChangesToNode(node, changes); return { node, success:
    true, changes }] inside the [try] of [processIndividualNode] *)
Definition applyAndReport (node : TextNode) (c : ProcessingChanges)
    : list NodeWrite * ProcessingResult :=
  let '(writes, thrown) := applyChangesToNode fontsLoad accepts node c in
  match thrown with
  | Some e => (writes, failed (messageOf e))
  | None => (writes, succeeded c)
  end.

End Report.

End Processing.

(** ** Finding the text nodes

    [TextAnalyzer.findTextNodes] is the same in src/code.ts and in
    part_000.  Of the host's document it reads the selection and the
    text nodes that a [findAll] visits, in the order of the visit. *)

(** a node of [figma.currentPage.selection]: a text node, or another
    node with the text nodes below it (none when it has no [findAll]) *)
Inductive SelectedNode :=
| SelectedText (node : TextNode)
| SelectedOther (textNodesBelow : list TextNode).

Section FindTextNodes.

(** [this.config.minCharacters] *)
Variable minCharacters : Z.
Variable ignoreMinCharacters : bool.

(** [!textNode.locked && textNode.visible && minCharCheck] *)
Definition passesFilter (textNode : TextNode) : bool :=
  let minCharCheck :=
    ignoreMinCharacters
    || (minCharacters <=? Z.of_nat (length (characters textNode)))%Z in
  negb (locked textNode) && visible textNode && minCharCheck.

Definition findTextNodes (selection : list SelectedNode)
    (pageTextNodes : list TextNode) : list TextNode :=
  if (0 <? length selection)%nat
  then
    flat_map
      (fun selectedNode =>
         match selectedNode with
         | SelectedText node => if passesFilter node then [node] else []
         | SelectedOther textNodesBelow => filter passesFilter textNodesBelow
         end)
      selection
  else filter passesFilter pageTextNodes.

End FindTextNodes.

(** ** src/code.ts *)

Module CodeTs.

Local Open Scope float_scope.

(** [interface ProcessingConfig]; a soft-break value is one code unit, as
    in [DEFAULT_CONFIG]. *)
Record ProcessingConfig := mkConfig {
  minCharacters : Z;
  lineBreakThreshold : float;
  softBreakChars : list Z;
  enabledDetections : list DetectionType;
  fontWidthMultiplier : option float
}.

(** [interface DetectedIssue] *)
Record DetectedIssue := mkIssue {
  type : DetectionType;
  confidence : float;
  lineNumbers : list nat
}.

Definition DEFAULT_CONFIG : ProcessingConfig :=
  {| minCharacters := 20;
     lineBreakThreshold := 0.9;
     softBreakChars := [8232%Z];
     enabledDetections := [AutoWidth; EdgeBreaking; SoftBreak];
     fontWidthMultiplier := Some 1%float |}.

Definition isFullWidthCharacter (charCode : Z) : bool :=
  Js.inRange 0x3040 0x309F charCode
  || Js.inRange 0x30A0 0x30FF charCode
  || Js.inRange 0x4E00 0x9FAF charCode
  || Js.inRange 0x3400 0x4DBF charCode
  || Js.inRange 0xFF00 0xFFEF charCode
  || Js.inRange 0x3000 0x303F charCode.

Definition isHalfWidthCharacter (charCode : Z) : bool :=
  Js.inRange 0x0020 0x007E charCode
  || Js.inRange 0xFF61 0xFF9F charCode.

(** the width one code unit adds to [totalWidth] *)
Definition charWidth (config : ProcessingConfig) (fontSize : float)
    (charCode : Z) : float :=
  let baseMultiplier := Js.orDefault (fontWidthMultiplier config) 1 in
  if isFullWidthCharacter charCode then fontSize * baseMultiplier
  else if isHalfWidthCharacter charCode
  then fontSize * (baseMultiplier * 0.5)
  else fontSize * (baseMultiplier * 0.8).

Definition estimateTextWidth (config : ProcessingConfig)
    (text : Js.jsstring) (fontSize : float) : float :=
  fold_left (fun totalWidth c => totalWidth + charWidth config fontSize c)
    text 0%float.

(** [new RegExp(`[${allBreakChars.map(escape).join('')}]`)], which
    [getLineNumbers], [simulateWordWrap], [getSoftBreakLines] and
    [removeLineBreaksJapanesePriority] each build from
    [['\n', ...this.config.softBreakChars]]: the test that the class makes
    on one code unit, [None] when it does not compile *)
Definition breakPattern (config : ProcessingConfig) : option (Z -> bool) :=
  compileBreakClass (softBreakChars config).

(** [/[。．！？]$/.test(s)] *)
Definition endsWithSentenceMark (s : Js.jsstring) : bool :=
  match Js.lastChar s with
  | Some c => (c =? 0x3002)%Z || (c =? 0xFF0E)%Z
              || (c =? 0xFF01)%Z || (c =? 0xFF1F)%Z
  | None => false
  end.

Definition isJapanese (char : option Z) : bool :=
  match char with
  | None => false
  | Some code =>
      Js.inRange 0x3040 0x309F code
      || Js.inRange 0x30A0 0x30FF code
      || Js.inRange 0x4E00 0x9FAF code
      || Js.inRange 0x3400 0x4DBF code
  end.

Definition combineLines (line1 line2 : Js.jsstring) : Js.jsstring :=
  let trimmed1 := Js.trimEnd line1 in
  let trimmed2 := Js.trimStart line2 in
  if Js.isEmpty trimmed1 || Js.isEmpty trimmed2 then trimmed1 ++ trimmed2
  else
    let line1End := Js.lastChar trimmed1 in
    let line2Start := Js.firstChar trimmed2 in
    if isJapanese line1End && isJapanese line2Start
    then trimmed1 ++ trimmed2
    else trimmed1 ++ [Js.SPACE] ++ trimmed2.

(** the body of the first loop for a line that is not the last *)
Definition breakAfterLine (config : ProcessingConfig)
    (containerWidth fontSize : float) (currentLine : Js.jsstring) : bool :=
  let currentTrimmed := Js.trim currentLine in
  if endsWithSentenceMark currentTrimmed then true
  else
    let estimatedWidth := estimateTextWidth config currentTrimmed fontSize in
    let widthRatio := estimatedWidth / containerWidth in
    if widthRatio <? lineBreakThreshold config then true else false.

(** [None] is the SyntaxError of the break pattern, which is built after
    the test of the length *)
Definition removeLineBreaksJapanesePriority (config : ProcessingConfig)
    (text : Js.jsstring) (containerWidth fontSize : float)
    (ignoreMinCharacters : bool) : option Js.jsstring :=
  if negb ignoreMinCharacters
     && (Z.of_nat (length text) <? minCharacters config)%Z
  then Some text
  else
    match breakPattern config with
    | None => None
    | Some breakPattern =>
        let lines := Js.splitOn breakPattern text in
        Some (rejoinLines (breakAfterLine config containerWidth fontSize)
                combineLines lines)
    end.

Definition simulateWordWrap (config : ProcessingConfig)
    (text : Js.jsstring) (containerWidth fontSize : float)
    : option (list Js.jsstring) :=
  simulateWordWrap (estimateTextWidth config) (breakPattern config)
    containerWidth fontSize text.

(** *** TextAnalyzer *)

(** what [estimatedChanges] says; the message texts are not modelled *)
Inductive EstimatedChanges :=
| SkippedMissingFont
| SkippedLockedOrHidden
| SkippedTooShort
| NoChangesNeeded
| ChangeList (kinds : list DetectionType)
| AnalysisError (message : Js.jsstring).

(** [interface TextAnalysisResult] *)
Record TextAnalysisResult := mkResult {
  node : TextNode;
  issues : list DetectedIssue;
  estimatedChanges : EstimatedChanges;
  originalText : Js.jsstring
}.

(** [text.indexOf('\n') !== -1] *)
Definition containsHardBreak (text : Js.jsstring) : bool :=
  existsb (Z.eqb Js.LF) text.

(** [None] is the SyntaxError of the break pattern *)
Definition getLineNumbers (config : ProcessingConfig)
    (text : Js.jsstring) : option (list nat) :=
  match breakPattern config with
  | None => None
  | Some breakPattern =>
      let lines := Js.splitOn breakPattern text in
      Some (filter (fun lineNum => (lineNum <? length lines)%nat)
              (map (fun index => (index + 1)%nat) (seq 0 (length lines))))
  end.

(** The three detections run in a [try] whose [catch] only writes a
    warning: when something throws, the issue is not pushed and the
    (empty) list is returned. *)
Definition detectAutoWidthIssues (config : ProcessingConfig)
    (node : TextNode) : list DetectedIssue :=
  let currentAutoResize := textAutoResize node in
  let currentText := characters node in
  if (AutoResize_eqb currentAutoResize NONE
      || AutoResize_eqb currentAutoResize HEIGHT
      || AutoResize_eqb currentAutoResize WIDTH_AND_HEIGHT)
     && containsHardBreak currentText
  then
    match getLineNumbers config currentText with
    | Some lines => [ {| type := AutoWidth; confidence := 0.9;
                         lineNumbers := lines |} ]
    | None => []
    end
  else [].

Definition findEdgeBreakingLines (config : ProcessingConfig)
    (text : Js.jsstring) (containerWidth fontSize : float)
    : option (list nat) :=
  match simulateWordWrap config text containerWidth fontSize with
  | None => None
  | Some lines =>
      Some (flat_map
              (fun il : nat * Js.jsstring =>
                 let '(index, line) := il in
                 if negb (Js.isEmpty (Js.trim line))
                 then
                   let estimatedWidth :=
                     estimateTextWidth config (Js.trim line) fontSize in
                   let ratio := estimatedWidth / containerWidth in
                   if lineBreakThreshold config <=? ratio
                   then [(index + 1)%nat]
                   else []
                 else [])
              (combine (seq 0 (length lines)) lines))
  end.

Definition detectEdgeBreaking (config : ProcessingConfig)
    (node : TextNode) : list DetectedIssue :=
  let autoResize := textAutoResize node in
  if AutoResize_eqb autoResize NONE || AutoResize_eqb autoResize HEIGHT
  then
    match findEdgeBreakingLines config (characters node) (width node)
            (getFontSize node) with
    | Some suspiciousLines =>
        if (0 <? length suspiciousLines)%nat
        then [ {| type := EdgeBreaking; confidence := 0.7;
                  lineNumbers := suspiciousLines |} ]
        else []
    | None => []
    end
  else [].

(** the soft-break value is escaped here, so every pattern is a literal *)
Definition countSoftBreaks (config : ProcessingConfig)
    (text : Js.jsstring) : nat :=
  fold_left
    (fun count softBreakChar =>
       (count + length (filter (Z.eqb softBreakChar) text))%nat)
    (softBreakChars config) 0%nat.

(** [None] is the SyntaxError of the break pattern *)
Definition getSoftBreakLines (config : ProcessingConfig)
    (text : Js.jsstring) : option (list nat) :=
  match breakPattern config with
  | None => None
  | Some breakPattern =>
      let lines := Js.splitOn breakPattern text in
      Some (flat_map
              (fun il : nat * Js.jsstring =>
                 let '(index, line) := il in
                 if existsb
                      (fun softBreakChar =>
                         existsb (Z.eqb softBreakChar) line)
                      (softBreakChars config)
                 then [(index + 1)%nat] else [])
              (combine (seq 0 (length lines)) lines))
  end.

Definition detectSoftBreaks (config : ProcessingConfig)
    (node : TextNode) : list DetectedIssue :=
  if paragraphSpacing node =? 0
  then
    let softBreakCount := countSoftBreaks config (characters node) in
    if (0 <? softBreakCount)%nat
    then
      match getSoftBreakLines config (characters node) with
      | Some lines => [ {| type := SoftBreak; confidence := 0.8;
                           lineNumbers := lines |} ]
      | None => []
      end
    else []
  else [].

Definition enabled (config : ProcessingConfig) (d : DetectionType) : bool :=
  existsb (DetectionType_eqb d) (enabledDetections config).

Definition generateEstimatedChanges (issues : list DetectedIssue)
    : EstimatedChanges :=
  match issues with
  | [] => NoChangesNeeded
  | _ => ChangeList (map type issues)
  end.

Definition analyzeTextNode (config : ProcessingConfig) (node : TextNode)
    : TextAnalysisResult :=
  if hasMissingFont node
  then mkResult node [] SkippedMissingFont (characters node)
  else if locked node || negb (visible node)
  then mkResult node [] SkippedLockedOrHidden (characters node)
  else
    let currentText := characters node in
    if (Z.of_nat (length currentText) <? minCharacters config)%Z
    then mkResult node [] SkippedTooShort currentText
    else
      let issues :=
        (if enabled config AutoWidth
         then detectAutoWidthIssues config node else [])
        ++ (if enabled config EdgeBreaking
            then detectEdgeBreaking config node else [])
        ++ (if enabled config SoftBreak
            then detectSoftBreaks config node else []) in
      mkResult node issues (generateEstimatedChanges issues) currentText.

(** *** TextProcessor.generateChanges *)

(** [issues.sort((a, b) => b.confidence - a.confidence)]: a stable sort
    by descending confidence *)
Fixpoint insertIssue (a : DetectedIssue) (sorted : list DetectedIssue)
    : list DetectedIssue :=
  match sorted with
  | [] => [a]
  | b :: rest =>
      if 0 <? confidence b - confidence a then b :: insertIssue a rest
      else a :: sorted
  end.

Definition sortIssues (issues : list DetectedIssue) : list DetectedIssue :=
  fold_right insertIssue [] issues.

(** one iteration of [for (const issue of sortedIssues)]; the state is
    [changes.newAutoResize] and [processedText]; [None] when a regular
    expression (the break pattern, or that of a soft break) does not
    compile *)
Definition applyIssue (config : ProcessingConfig) (node : TextNode)
    (st : option AutoResize * Js.jsstring) (issue : DetectedIssue)
    : option (option AutoResize * Js.jsstring) :=
  let '(resize, processedText) := st in
  match type issue with
  | AutoWidth =>
      match removeLineBreaksJapanesePriority config processedText
              (width node) (getFontSize node) false with
      | Some t => Some (Some HEIGHT, t)
      | None => None
      end
  | EdgeBreaking =>
      match removeLineBreaksJapanesePriority config processedText
              (width node) (getFontSize node) false with
      | Some t => Some (resize, t)
      | None => None
      end
  | SoftBreak =>
      match convertSoftBreaksToHard (softBreakChars config) processedText with
      | Some t => Some (resize, t)
      | None => None
      end
  end.

Fixpoint applyIssues (config : ProcessingConfig) (node : TextNode)
    (issues : list DetectedIssue) (st : option AutoResize * Js.jsstring)
    : option (option AutoResize * Js.jsstring) :=
  match issues with
  | [] => Some st
  | issue :: rest =>
      match applyIssue config node st issue with
      | Some st' => applyIssues config node rest st'
      | None => None
      end
  end.

Definition generateChanges (config : ProcessingConfig)
    (originalText : Js.jsstring) (issues : list DetectedIssue)
    (node : TextNode) : option ProcessingChanges :=
  let processed :=
    if AutoResize_eqb (textAutoResize node) WIDTH_AND_HEIGHT
    then
      match removeLineBreaksJapanesePriority config originalText
              (width node) (getFontSize node) false with
      | Some t => Some (Some HEIGHT, t)
      | None => None
      end
    else applyIssues config node (sortIssues issues) (None, originalText) in
  match processed with
  | None => None
  | Some (resize, processedText) =>
      Some {| newText := if negb (Js.streq processedText originalText)
                         then Some processedText else None;
              newAutoResize := resize |}
  end.

(** *** BatchProcessor.analyzeNodes *)

Definition CHUNK_SIZE : nat := 50.

Record ProgressUpdate := mkProgress { current : nat; total : nat }.

(** The mutable fields of the processor, the [results] array and the
    updates handed to the progress callback. *)
Record BatchState := mkBatch {
  isProcessing : bool;
  isCancelled : bool;
  results : list TextAnalysisResult;
  progress : list ProgressUpdate
}.

(** Where the loops stand: still running, or left by an exception that
    no inner [catch] took (the string is what [`${error}`] makes of
    it). *)
Inductive Run :=
| Continues (st : BatchState)
| Throws (st : BatchState) (error : Js.jsstring).

Section AnalyzeNodes.

(** The analysis of one node: its result, or the exception it throws
    (the host throws when a property of a node that is no longer in the
    document is read). *)
Variable analyze : TextNode -> TextAnalysisResult + Js.jsstring.
(** The progress callback when one is passed, as what a call of it
    throws, if it throws; building its argument reads [node.name]. *)
Variable onProgress : option (ProgressUpdate -> option Js.jsstring).
(** The exception of the host, if any, when the [catch] of an item reads
    [node.characters]. *)
Variable readFails : TextNode -> option Js.jsstring.
(** The environment: is [cancel()] called while the loop is suspended
    in [yieldToUI] at item [k]? *)
Variable cancelDuring : nat -> bool.
Variable nodes : list TextNode.

(** the [catch] of an item: it pushes the error result, whose
    [originalText] is [node.characters || ''], read at this point *)
Definition catchItem (n : TextNode) (error : Js.jsstring)
    (st : BatchState) : Run :=
  match readFails n with
  | Some thrown => Throws st thrown
  | None =>
      Continues
        (mkBatch (isProcessing st) (isCancelled st)
           (results st
              ++ [mkResult n [] (AnalysisError error) (characters n)])
           (progress st))
  end.

(** the [try] of an item: the result is pushed, then the callback is
    called; what either throws goes to the [catch] of the item *)
Definition tryItem (currentIndex : nat) (n : TextNode)
    (st : BatchState) : Run :=
  match analyze n with
  | inl result =>
      let st :=
        mkBatch (isProcessing st) (isCancelled st)
          (results st ++ [result]) (progress st) in
      match onProgress with
      | None => Continues st
      | Some callback =>
          let update := mkProgress (currentIndex + 1) (length nodes) in
          let st :=
            mkBatch (isProcessing st) (isCancelled st) (results st)
              (progress st ++ [update]) in
          match callback update with
          | None => Continues st
          | Some error => catchItem n error st
          end
      end
  | inr error => catchItem n error st
  end.

(** the body of the inner loop after the cancellation check *)
Definition analyzeItem (currentIndex : nat) (n : TextNode)
    (st : BatchState) : Run :=
  match tryItem currentIndex n st with
  | Continues st =>
      (* await this.yieldToUI() *)
      Continues
        (mkBatch (isProcessing st)
           (isCancelled st || cancelDuring currentIndex)
           (results st) (progress st))
  | Throws st error => Throws st error
  end.

(** [for (let j = 0; j < chunk.length; j++)] from index [j] on *)
Fixpoint analyzeChunk (chunk : list TextNode) (i j : nat)
    (st : BatchState) : Run :=
  match chunk with
  | [] => Continues st
  | n :: rest =>
      if isCancelled st then Continues st
      else
        match analyzeItem (i + j) n st with
        | Continues st => analyzeChunk rest i (S j) st
        | Throws st error => Throws st error
        end
  end.

(** [for (let i = 0; i < nodes.length; i += CHUNK_SIZE)] over the
    values [i] takes *)
Fixpoint analyzeChunks (starts : list nat) (st : BatchState) : Run :=
  match starts with
  | [] => Continues st
  | i :: rest =>
      if isCancelled st then Continues st
      else
        let chunk := firstn CHUNK_SIZE (skipn i nodes) in
        match analyzeChunk chunk i 0 st with
        | Continues st => analyzeChunks rest st
        | Throws st error => Throws st error
        end
  end.

Definition chunkStarts : list nat :=
  map (fun k => (k * CHUNK_SIZE)%nat)
      (seq 0 ((length nodes + CHUNK_SIZE - 1) / CHUNK_SIZE)).

(** the final state of the processor, and the list returned or the
    message of the error thrown by the outer [catch]; [finally] resets
    [isProcessing] either way *)
Definition analyzeNodes
    : BatchState * (list TextAnalysisResult + Js.jsstring) :=
  match analyzeChunks chunkStarts (mkBatch true false [] []) with
  | Continues st =>
      (mkBatch false (isCancelled st) (results st) (progress st),
       inl (results st))
  | Throws st error =>
      (mkBatch false (isCancelled st) (results st) (progress st),
       inr (BATCH_ANALYSIS_FAILED ++ error))
  end.

End AnalyzeNodes.

(** *** BatchProcessor.scanCurrentPage; [None] is the error thrown when
    no text node is found *)
Definition scanCurrentPage (config : ProcessingConfig)
    (analyze : TextNode -> TextAnalysisResult + Js.jsstring)
    (onProgress : option (ProgressUpdate -> option Js.jsstring))
    (readFails : TextNode -> option Js.jsstring)
    (cancelDuring : nat -> bool)
    (selection : list SelectedNode) (pageTextNodes : list TextNode)
    : option (BatchState * (list TextAnalysisResult + Js.jsstring)) :=
  let allNodes :=
    findTextNodes (minCharacters config) false selection pageTextNodes in
  if (length allNodes =? 0)%nat then None
  else
    Some (analyzeNodes analyze onProgress readFails cancelDuring allNodes).

(** *** TextProcessor.shouldRemoveLineBreak

    The predicate with the exceptions for bullet points and capital
    letters; [removeLineBreaksJapanesePriority] does not call it. *)

(** [/^[A-Z]/.test(line)] *)
Definition startsWithCapital (line : Js.jsstring) : bool :=
  match line with
  | c :: _ => Js.inRange 65 90 c
  | [] => false
  end.

(** [bulletPatterns.some(pattern => pattern.test(line))] *)
Definition isBulletPoint (line : Js.jsstring) : bool :=
  (* /^[•·※]/ *)
  match line with
  | c :: _ => (c =? 0x2022)%Z || (c =? 0xB7)%Z || (c =? 0x203B)%Z
  | [] => false
  end
  (* /^[\d]+[.)]/ *)
  || match line with
     | c :: rest =>
         Js.inRange 48 57 c
         && match Js.dropWhile (Js.inRange 48 57) rest with
            | d :: _ => (d =? 46)%Z || (d =? 41)%Z
            | [] => false
            end
     | [] => false
     end
  (* /^[a-zA-Z][.)]/ *)
  || match line with
     | c :: d :: _ =>
         (Js.inRange 97 122 c || Js.inRange 65 90 c)
         && ((d =? 46)%Z || (d =? 41)%Z)
     | _ => false
     end
  (* /^[-*+]/ *)
  || match line with
     | c :: _ => (c =? 45)%Z || (c =? 42)%Z || (c =? 43)%Z
     | [] => false
     end
  (* /^[①-⑳]/ *)
  || match line with
     | c :: _ => Js.inRange 0x2460 0x2473 c
     | [] => false
     end.

Definition shouldRemoveLineBreak (config : ProcessingConfig)
    (currentLine nextLine : Js.jsstring) (containerWidth fontSize : float)
    : bool :=
  let currentTrimmed := Js.trim currentLine in
  let nextTrimmed := Js.trim nextLine in
  if Js.isEmpty currentTrimmed || Js.isEmpty nextTrimmed then false
  else
    let estimatedWidth := estimateTextWidth config currentTrimmed fontSize in
    let widthRatio := estimatedWidth / containerWidth in
    if widthRatio <? lineBreakThreshold config then false
    else if isBulletPoint nextTrimmed then false
    else if endsWithSentenceMark currentTrimmed then false
    else if startsWithCapital nextTrimmed then false
    else true.

(** *** BatchProcessor.processIndividualNode *)

Section ProcessIndividualNode.

Variable config : ProcessingConfig.
Variable fontsLoad : bool.
Variable accepts : Processing.NodeWrite -> bool.
Variable messageOf : Processing.Thrown -> Js.jsstring.

(** the branch [if (forceChanges)] *)
Definition forceNode (node : TextNode) (force : Processing.ForceChanges)
    : list Processing.NodeWrite * Processing.ProcessingResult :=
  let processedText := characters node in
  match (if Processing.removeLineBreaks force
         then removeLineBreaksJapanesePriority config processedText
                (width node) (getFontSize node) true
         else Some processedText) with
  | None => ([], Processing.failed (messageOf Processing.PatternError))
  | Some processedText =>
      let resize :=
        if Processing.removeLineBreaks force
           && AutoResize_eqb (textAutoResize node) WIDTH_AND_HEIGHT
        then Some HEIGHT else None in
      match (if Processing.convertSoftBreaks force
             then convertSoftBreaksToHard (softBreakChars config)
                    processedText
             else Some processedText) with
      | None => ([], Processing.failed (messageOf Processing.PatternError))
      | Some processedText =>
          let changes :=
            {| newText := if negb (Js.streq processedText (characters node))
                          then Some processedText else None;
               newAutoResize := resize |} in
          if Processing.hasKeys changes
          then Processing.applyAndReport fontsLoad accepts messageOf node
                 changes
          else ([], Processing.succeeded Processing.noChanges)
      end
  end.

(** the rest of the body, taken when [forceChanges] is not given *)
Definition analyzeAndApply (node : TextNode)
    : list Processing.NodeWrite * Processing.ProcessingResult :=
  let analysisResult := analyzeTextNode config node in
  if (length (issues analysisResult) =? 0)%nat
  then ([], Processing.succeeded Processing.noChanges)
  else
    match generateChanges config (originalText analysisResult)
            (issues analysisResult) node with
    | None => ([], Processing.failed (messageOf Processing.PatternError))
    | Some changes =>
        Processing.applyAndReport fontsLoad accepts messageOf node changes
    end.

Definition processIndividualNode (node : TextNode)
    (forceChanges : option Processing.ForceChanges)
    : list Processing.NodeWrite * Processing.ProcessingResult :=
  match Processing.validateOne node with
  | Some result => ([], result)
  | None =>
      match forceChanges with
      | Some force => forceNode node force
      | None => analyzeAndApply node
      end
  end.

End ProcessIndividualNode.

(** *** BatchProcessor.generateStatistics

    [errorSummary] is a plain object used as a map from error texts to
    counts.  A read of a name that the object does not own falls through
    to [Object.prototype]; an assignment to an inherited accessor (as
    [__proto__]) runs the setter and adds no property. *)

Inductive Inherited := NotInherited | InheritedData | InheritedAccessor.

(** the value of a property of [errorSummary]: a number, or the string
    that [+ 1] makes of an inherited value *)
Inductive SummaryValue := Count (n : nat) | Text.

(** the own properties (their order of enumeration is not modelled) *)
Definition ErrorSummary := list (Js.jsstring * SummaryValue).

Fixpoint getOwn (key : Js.jsstring) (o : ErrorSummary)
    : option SummaryValue :=
  match o with
  | [] => None
  | (k, v) :: rest => if Js.streq k key then Some v else getOwn key rest
  end.

Fixpoint setOwn (key : Js.jsstring) (value : SummaryValue)
    (o : ErrorSummary) : ErrorSummary :=
  match o with
  | [] => [(key, value)]
  | (k, v) :: rest =>
      if Js.streq k key then (k, value) :: rest
      else (k, v) :: setOwn key value rest
  end.

Record Statistics := mkStatistics {
  totalProcessed : nat;
  successful : nat;
  failed : nat;
  errorSummary : ErrorSummary
}.

Section GenerateStatistics.

(** what a plain object inherits under a name *)
Variable inherited : Js.jsstring -> Inherited.

(** [r.error || 'Unknown error'] *)
Definition errorType (r : Processing.ProcessingResult) : Js.jsstring :=
  match Processing.error r with
  | Some (c :: t) => c :: t
  | _ => Processing.UNKNOWN_ERROR
  end.

(** [errorSummary[errorType] = (errorSummary[errorType] || 0) + 1] *)
Definition countError (summary : ErrorSummary)
    (r : Processing.ProcessingResult) : ErrorSummary :=
  let key := errorType r in
  let value :=
    match getOwn key summary with
    | Some (Count n) => Count (n + 1)
    | Some Text => Text
    | None =>
        match inherited key with
        | NotInherited => Count 1
        | _ => Text
        end
    end in
  match getOwn key summary, inherited key with
  | None, InheritedAccessor => summary
  | _, _ => setOwn key value summary
  end.

Definition generateStatistics (results : list Processing.ProcessingResult)
    : Statistics :=
  {| totalProcessed := length results;
     successful := length (filter Processing.success results);
     failed :=
       length (filter (fun r => negb (Processing.success r)) results);
     errorSummary :=
       fold_left countError
         (filter (fun r => negb (Processing.success r)) results) [] |}.

End GenerateStatistics.

End CodeTs.

(** ** src/unnamed/part_000 *)

Module Part000.

Local Open Scope float_scope.

Record ProcessingConfig := mkConfig {
  minCharacters : Z;
  lineBreakThreshold : float;
  softBreakChars : list Z;
  fontWidthMultiplier : option float
}.

(** [interface DetectedIssue]: the kind only *)
Record DetectedIssue := mkIssue { type : DetectionType }.

Definition DEFAULT_CONFIG : ProcessingConfig :=
  {| minCharacters := 20;
     lineBreakThreshold := 0.95;
     softBreakChars := [8232%Z];
     fontWidthMultiplier := Some 1 |}.

(** *** TextWidthCalculator

    [estimateTextWidth] and [measureActualCharacterWidth] memoize in two
    bounded maps keyed by the text (or character) and the font size; the
    maps only hold values this function computed, so the function they
    cache is what is modelled. *)

Definition CHARACTER_WIDTH_MAP : list (Z * float) :=
  [ (0x20AC%Z, 0.6); (0x00A3%Z, 0.5); (0x00A5%Z, 0.6); (0x00A9%Z, 0.7);
    (0x00AE%Z, 0.7); (0x2122%Z, 0.7);
    (0x00B0%Z, 0.35); (0x00B1%Z, 0.5); (0x00D7%Z, 0.5); (0x00F7%Z, 0.5);
    (0x2260%Z, 0.5); (0x2264%Z, 0.5); (0x2265%Z, 0.5);
    (0x2026%Z, 0.7); (0x2013%Z, 0.4); (0x2014%Z, 0.7); (0x2018%Z, 0.2);
    (0x2019%Z, 0.2); (0x201C%Z, 0.35); (0x201D%Z, 0.35);
    (0x2022%Z, 0.3); (0x2030%Z, 0.9); (0x00A7%Z, 0.5); (0x00B6%Z, 0.5);
    (0x2020%Z, 0.4); (0x2021%Z, 0.4) ].

Fixpoint mapGet (m : list (Z * float)) (char : Z) : option float :=
  match m with
  | [] => None
  | (k, v) :: m' => if (k =? char)%Z then Some v else mapGet m' char
  end.

Definition isFullWidthCharacter (charCode : Z) : bool :=
  Js.inRange 0x3040 0x309F charCode
  || Js.inRange 0x30A0 0x30FF charCode
  || Js.inRange 0x4E00 0x9FAF charCode
  || Js.inRange 0x3400 0x4DBF charCode
  || Js.inRange 0xFF00 0xFFEF charCode
  || Js.inRange 0x3000 0x303F charCode.

(** the class of Japanese punctuation marks of [isPunctuation] *)
Definition isPunctuation (charCode : Z) : bool :=
  existsb (Z.eqb charCode)
    [ 0xFF01; 0xFF1F; 0x3002; 0x3001; 0xFF0C; 0xFF0E; 0xFF1A; 0xFF1B;
      0x300C; 0x300D; 0x300E; 0x300F; 0xFF08; 0xFF09; 0x3010; 0x3011;
      0x3008; 0x3009; 0x300A; 0x300B; 0x3014; 0x3015; 0xFF3B; 0xFF3D;
      0xFF5B; 0xFF5D ]%Z.

Definition estimateLatinCharacterWidth (charCode : Z) : float :=
  if Js.inRange 48 57 charCode
  then if (charCode =? 49)%Z then 0.32 else 0.53
  else if Js.inRange 65 90 charCode
  then if (charCode =? 77)%Z || (charCode =? 87)%Z then 0.85
       else if (charCode =? 73)%Z then 0.32
       else 0.68
  else if Js.inRange 97 122 charCode
  then if (charCode =? 105)%Z || (charCode =? 108)%Z then 0.27
       else if (charCode =? 116)%Z || (charCode =? 102)%Z then 0.37
       else if (charCode =? 109)%Z || (charCode =? 119)%Z then 0.75
       else 0.53
  else if (charCode =? 32)%Z then 0.27
  else if (charCode =? 33)%Z then 0.25
  else if (charCode =? 46)%Z then 0.27
  else if (charCode =? 44)%Z then 0.27
  else if (charCode =? 58)%Z then 0.27
  else if (charCode =? 59)%Z then 0.27
  else if (charCode =? 45)%Z then 0.37
  else if (charCode =? 40)%Z || (charCode =? 41)%Z then 0.3
  else if (charCode =? 64)%Z then 0.8
  else if (charCode =? 37)%Z then 0.75
  else if (charCode =? 38)%Z then 0.65
  else 0.48.

Definition estimateUnknownCharacterWidth (charCode : Z) : float :=
  if (charCode <=? 0x007E)%Z
  then if (0x0020 <=? charCode)%Z
       then estimateLatinCharacterWidth charCode else 0.53
  else if (charCode <=? 0x00FF)%Z then 0.58
  else if (charCode <=? 0x017F)%Z then 0.58
  else if (0x2000 <=? charCode)%Z && (charCode <=? 0x206F)%Z then 0.43
  else if (0x2000 <=? charCode)%Z && Js.inRange 0x20A0 0x20CF charCode
  then 0.63
  else if (0x2000 <=? charCode)%Z && Js.inRange 0x2100 0x214F charCode
  then 0.73
  else 0.53.

Definition getFallbackCharacterWidth (config : ProcessingConfig)
    (char : Z) (fontSize : float) : float :=
  let baseMultiplier := Js.orDefault (fontWidthMultiplier config) 1 in
  if isFullWidthCharacter char
  then
    let multiplier := if isPunctuation char then 0.95 else 1 in
    fontSize * baseMultiplier * multiplier
  else
    match mapGet CHARACTER_WIDTH_MAP char with
    | Some specialWidth => fontSize * baseMultiplier * specialWidth
    | None =>
        fontSize * baseMultiplier * estimateUnknownCharacterWidth char
    end.

Definition estimateTextWidth (config : ProcessingConfig)
    (text : Js.jsstring) (fontSize : float) : float :=
  fold_left
    (fun totalWidth char =>
       totalWidth + getFallbackCharacterWidth config char fontSize)
    text 0.

(** [SharedUtilities.getBreakPattern], which asks the
    [RegexPatternCache] below: the cache only ever holds, under the key
    of some soft breaks, the class compiled from them, so the pattern
    handed out is that class; [None] when it does not compile *)
Definition getBreakPattern (softBreakChars : list Z) : option (Z -> bool) :=
  compileBreakClass softBreakChars.

(** *** TextAnalyzer *)

Definition simulateWordWrap (config : ProcessingConfig)
    (text : Js.jsstring) (containerWidth fontSize : float)
    : option (list Js.jsstring) :=
  simulateWordWrap (estimateTextWidth config)
    (getBreakPattern (softBreakChars config)) containerWidth fontSize text.

(** [text.includes('\n')] *)
Definition containsHardBreak (text : Js.jsstring) : bool :=
  existsb (Z.eqb Js.LF) text.

Definition detectAutoWidthIssues (node : TextNode) : list DetectedIssue :=
  if AutoResize_eqb (textAutoResize node) WIDTH_AND_HEIGHT
     && containsHardBreak (characters node)
  then [ {| type := AutoWidth |} ]
  else [].

(** *** TextProcessor *)

Definition endsWithSentenceMark (s : Js.jsstring) : bool :=
  match Js.lastChar s with
  | Some c => (c =? 0x3002)%Z || (c =? 0xFF0E)%Z
              || (c =? 0xFF01)%Z || (c =? 0xFF1F)%Z
  | None => false
  end.

(** [/^[a-zA-Z0-9]$/.test(char)] *)
Definition isAlphanumeric (char : option Z) : bool :=
  match char with
  | None => false
  | Some c => Js.inRange 97 122 c || Js.inRange 65 90 c || Js.inRange 48 57 c
  end.

Definition combineLines (line1 line2 : Js.jsstring) : Js.jsstring :=
  let trimmed1 := Js.trimEnd line1 in
  let trimmed2 := Js.trimStart line2 in
  if Js.isEmpty trimmed1 || Js.isEmpty trimmed2 then trimmed1 ++ trimmed2
  else
    let line1End := Js.lastChar trimmed1 in
    let line2Start := Js.firstChar trimmed2 in
    if isAlphanumeric line1End && isAlphanumeric line2Start
    then trimmed1 ++ [Js.SPACE] ++ trimmed2
    else trimmed1 ++ trimmed2.

Definition breakAfterLine (config : ProcessingConfig)
    (containerWidth fontSize : float) (currentLine : Js.jsstring) : bool :=
  let currentTrimmed := Js.trim currentLine in
  if endsWithSentenceMark currentTrimmed then true
  else
    let estimatedWidth := estimateTextWidth config currentTrimmed fontSize in
    let widthRatio := estimatedWidth / containerWidth in
    if lineBreakThreshold config <=? widthRatio then false else true.

Definition removeLineBreaksJapanesePriority (config : ProcessingConfig)
    (text : Js.jsstring) (containerWidth fontSize : float)
    (ignoreMinCharacters : bool) : Js.jsstring :=
  if negb ignoreMinCharacters
     && (Z.of_nat (length text) <? minCharacters config)%Z
  then text
  else
    let lines := Js.splitOn (Z.eqb Js.LF) text in
    rejoinLines (breakAfterLine config containerWidth fontSize)
      combineLines lines.

Definition applyIssue (config : ProcessingConfig) (node : TextNode)
    (st : option AutoResize * Js.jsstring) (issue : DetectedIssue)
    : option (option AutoResize * Js.jsstring) :=
  let '(resize, processedText) := st in
  match type issue with
  | AutoWidth =>
      Some (Some HEIGHT,
            removeLineBreaksJapanesePriority config processedText
              (width node) (getFontSize node) false)
  | EdgeBreaking =>
      Some (resize,
            removeLineBreaksJapanesePriority config processedText
              (width node) (getFontSize node) false)
  | SoftBreak =>
      match convertSoftBreaksToHard (softBreakChars config) processedText with
      | Some t => Some (resize, t)
      | None => None
      end
  end.

Fixpoint applyIssues (config : ProcessingConfig) (node : TextNode)
    (issues : list DetectedIssue) (st : option AutoResize * Js.jsstring)
    : option (option AutoResize * Js.jsstring) :=
  match issues with
  | [] => Some st
  | issue :: rest =>
      match applyIssue config node st issue with
      | Some st' => applyIssues config node rest st'
      | None => None
      end
  end.

Definition generateChanges (config : ProcessingConfig)
    (originalText : Js.jsstring) (issues : list DetectedIssue)
    (node : TextNode) : option ProcessingChanges :=
  let processed :=
    if AutoResize_eqb (textAutoResize node) WIDTH_AND_HEIGHT
    then Some (Some HEIGHT,
               removeLineBreaksJapanesePriority config originalText
                 (width node) (getFontSize node) false)
    else applyIssues config node issues (None, originalText) in
  match processed with
  | None => None
  | Some (resize, processedText) =>
      Some {| newText := if negb (Js.streq processedText originalText)
                         then Some processedText else None;
              newAutoResize := resize |}
  end.

(** *** TextAnalyzer: the other detections and [analyzeTextNode] *)

(** [None] is the SyntaxError of the break pattern *)
Definition findEdgeBreakingLines (config : ProcessingConfig)
    (text : Js.jsstring) (containerWidth fontSize : float)
    : option (list nat) :=
  match simulateWordWrap config text containerWidth fontSize with
  | None => None
  | Some lines =>
      Some (flat_map
              (fun il : nat * Js.jsstring =>
                 let '(index, line) := il in
                 if negb (Js.isEmpty (Js.trim line))
                 then
                   let estimatedWidth :=
                     estimateTextWidth config (Js.trim line) fontSize in
                   let ratio := estimatedWidth / containerWidth in
                   if lineBreakThreshold config <=? ratio
                   then [(index + 1)%nat]
                   else []
                 else [])
              (combine (seq 0 (length lines)) lines))
  end.

(** the detection runs in a [try] whose [catch] only writes a warning *)
Definition detectEdgeBreaking (config : ProcessingConfig)
    (node : TextNode) : list DetectedIssue :=
  let autoResize := textAutoResize node in
  if AutoResize_eqb autoResize NONE || AutoResize_eqb autoResize HEIGHT
  then
    match findEdgeBreakingLines config (characters node) (width node)
            (getFontSize node) with
    | Some suspiciousLines =>
        if (0 <? length suspiciousLines)%nat
        then [ {| type := EdgeBreaking |} ]
        else []
    | None => []
    end
  else [].

(** the soft-break value is escaped here, so every pattern is a literal *)
Definition countSoftBreaks (config : ProcessingConfig)
    (text : Js.jsstring) : nat :=
  fold_left
    (fun count softBreakChar =>
       (count + length (filter (Z.eqb softBreakChar) text))%nat)
    (softBreakChars config) 0%nat.

Definition detectSoftBreaks (config : ProcessingConfig)
    (node : TextNode) : list DetectedIssue :=
  if paragraphSpacing node =? 0
  then
    if (0 <? countSoftBreaks config (characters node))%nat
    then [ {| type := SoftBreak |} ]
    else []
  else [].

Definition hasBreakCharacters (config : ProcessingConfig)
    (text : Js.jsstring) : bool :=
  if existsb (Z.eqb Js.LF) text then true
  else existsb (fun softBreakChar => existsb (Z.eqb softBreakChar) text)
         (softBreakChars config).

(** what [estimatedChanges] says; the message texts are not modelled *)
Inductive EstimatedChanges :=
| SkippedMissingFont
| SkippedLockedOrHidden
| SkippedTooShort
| SkippedNoLineBreaks
| NoChangesNeeded
| ChangeList (kinds : list DetectionType)
| AnalysisError (message : Js.jsstring).

(** [changeTypes.add(...)] for every issue, then
    [Array.from(changeTypes)]: the kinds in the order of their first
    issue *)
Definition changeTypes (issues : list DetectedIssue) : list DetectionType :=
  fold_left
    (fun seen issue =>
       if existsb (DetectionType_eqb (type issue)) seen then seen
       else seen ++ [type issue])
    issues [].

Definition generateEstimatedChanges (issues : list DetectedIssue)
    : EstimatedChanges :=
  match issues with
  | [] => NoChangesNeeded
  | _ => ChangeList (changeTypes issues)
  end.

(** [interface TextAnalysisResult] *)
Record TextAnalysisResult := mkResult {
  node : TextNode;
  issues : list DetectedIssue;
  estimatedChanges : EstimatedChanges;
  originalText : Js.jsstring
}.

Definition analyzeTextNode (config : ProcessingConfig) (node : TextNode)
    : TextAnalysisResult :=
  if hasMissingFont node
  then mkResult node [] SkippedMissingFont (characters node)
  else if locked node || negb (visible node)
  then mkResult node [] SkippedLockedOrHidden (characters node)
  else
    let currentText := characters node in
    if (Z.of_nat (length currentText) <? minCharacters config)%Z
    then mkResult node [] SkippedTooShort currentText
    else if negb (hasBreakCharacters config currentText)
    then mkResult node [] SkippedNoLineBreaks currentText
    else
      let issues :=
        detectAutoWidthIssues node
        ++ detectEdgeBreaking config node
        ++ detectSoftBreaks config node in
      mkResult node issues (generateEstimatedChanges issues) currentText.

(** *** BatchProcessor.analyzeNodes *)

(** [PROCESSING_CONSTANTS.CHUNK_SIZE] *)
Definition CHUNK_SIZE : nat := 20.

Section AnalyzeNodes.

(** The analysis of one node: its result, or the exception it throws
    (the host throws when a property of a node that is no longer in the
    document is read). *)
Variable analyze : TextNode -> TextAnalysisResult + Js.jsstring.
(** The exception of the host, if any, when the [catch] of an item reads
    [node.characters]. *)
Variable readFails : TextNode -> option Js.jsstring.
Variable nodes : list TextNode.

(** the body of the inner loop; the state is [results], and [inr] is an
    exception that the [catch] of the item threw itself: it pushes the
    error result, whose [originalText] is [node.characters || ''], read
    at this point *)
Definition analyzeItem (results : list TextAnalysisResult) (n : TextNode)
    : list TextAnalysisResult + Js.jsstring :=
  match analyze n with
  | inl result => inl (results ++ [result])
  | inr error =>
      match readFails n with
      | Some thrown => inr thrown
      | None =>
          inl (results
                 ++ [mkResult n [] (AnalysisError error) (characters n)])
      end
  end.

(** [for (let j = 0; j < chunk.length; j++)] *)
Fixpoint analyzeChunk (chunk : list TextNode)
    (results : list TextAnalysisResult)
    : list TextAnalysisResult + Js.jsstring :=
  match chunk with
  | [] => inl results
  | n :: rest =>
      match analyzeItem results n with
      | inl results => analyzeChunk rest results
      | inr thrown => inr thrown
      end
  end.

(** [for (let i = 0; i < nodes.length; i += CHUNK_SIZE)] over the
    values [i] takes *)
Fixpoint analyzeChunks (starts : list nat)
    (results : list TextAnalysisResult)
    : list TextAnalysisResult + Js.jsstring :=
  match starts with
  | [] => inl results
  | i :: rest =>
      match analyzeChunk (firstn CHUNK_SIZE (skipn i nodes)) results with
      | inl results => analyzeChunks rest results
      | inr thrown => inr thrown
      end
  end.

Definition chunkStarts : list nat :=
  map (fun k => (k * CHUNK_SIZE)%nat)
      (seq 0 ((length nodes + CHUNK_SIZE - 1) / CHUNK_SIZE)).

(** the list returned, or the message of the error thrown by the outer
    [catch] *)
Definition analyzeNodes : list TextAnalysisResult + Js.jsstring :=
  match analyzeChunks chunkStarts [] with
  | inl results => inl results
  | inr thrown => inr (BATCH_ANALYSIS_FAILED ++ thrown)
  end.

End AnalyzeNodes.

(** *** BatchProcessor.scanCurrentPage *)
Definition scanCurrentPage (config : ProcessingConfig)
    (analyze : TextNode -> TextAnalysisResult + Js.jsstring)
    (readFails : TextNode -> option Js.jsstring)
    (selection : list SelectedNode) (pageTextNodes : list TextNode)
    : list TextAnalysisResult + Js.jsstring :=
  analyzeNodes analyze readFails
    (findTextNodes (minCharacters config) false selection pageTextNodes).

(** *** TextProcessor.processTextDirectly; [None] when the regular
    expression of a soft break does not compile *)
Definition processTextDirectly (config : ProcessingConfig)
    (text : Js.jsstring) (containerWidth fontSize : float)
    (options : Processing.ForceChanges) : option Js.jsstring :=
  let processedText :=
    if Processing.removeLineBreaks options
    then removeLineBreaksJapanesePriority config text containerWidth
           fontSize true
    else text in
  if Processing.convertSoftBreaks options
  then convertSoftBreaksToHard (softBreakChars config) processedText
  else Some processedText.

(** *** BatchProcessor.processIndividualNode *)

Section ProcessIndividualNode.

Variable config : ProcessingConfig.
Variable fontsLoad : bool.
Variable accepts : Processing.NodeWrite -> bool.
Variable messageOf : Processing.Thrown -> Js.jsstring.

(** the branch [if (forceChanges)] *)
Definition forceNode (node : TextNode) (force : Processing.ForceChanges)
    : list Processing.NodeWrite * Processing.ProcessingResult :=
  match processTextDirectly config (characters node) (width node)
          (getFontSize node) force with
  | None => ([], Processing.failed (messageOf Processing.PatternError))
  | Some processedText =>
      let changes :=
        {| newText := if negb (Js.streq processedText (characters node))
                      then Some processedText else None;
           newAutoResize :=
             if Processing.removeLineBreaks force
                && AutoResize_eqb (textAutoResize node) WIDTH_AND_HEIGHT
             then Some HEIGHT else None |} in
      if Processing.hasKeys changes
      then Processing.applyAndReport fontsLoad accepts messageOf node changes
      else ([], Processing.succeeded Processing.noChanges)
  end.

Definition processIndividualNode (node : TextNode)
    (forceChanges : option Processing.ForceChanges)
    : list Processing.NodeWrite * Processing.ProcessingResult :=
  match Processing.validateOne node with
  | Some result => ([], result)
  | None =>
      match forceChanges with
      | Some force => forceNode node force
      | None => ([], Processing.succeeded Processing.noChanges)
      end
  end.

End ProcessIndividualNode.

(** *** RegexPatternCache

    The [Map] from cache keys to compiled patterns, as the list of its
    entries, oldest first; a compiled pattern is kept as the ranges of
    its class. *)

Module RegexPatternCache.

Definition maxSize : nat := 10.

Definition Cache := list (Js.jsstring * list (Z * Z)).

(** [allBreakChars.join('|')] *)
Definition cacheKey (softBreakChars : list Z) : Js.jsstring :=
  Js.join [124%Z] (map (fun char => [char]) (Js.LF :: softBreakChars)).

(** [this.cache.get(cacheKey)] *)
Fixpoint get (key : Js.jsstring) (cache : Cache) : option (list (Z * Z)) :=
  match cache with
  | [] => None
  | (k, pattern) :: rest =>
      if Js.streq k key then Some pattern else get key rest
  end.

(** [getBreakPattern]: the cache afterwards and the pattern returned;
    [None] when [new RegExp] throws, which leaves the cache as it was *)
Definition getBreakPattern (cache : Cache) (softBreakChars : list Z)
    : Cache * option (list (Z * Z)) :=
  let key := cacheKey softBreakChars in
  match get key cache with
  | Some pattern => (cache, Some pattern)
  | None =>
      match classRanges (Js.LF :: softBreakChars) with
      | None => (cache, None)
      | Some pattern =>
          let cache := cache ++ [(key, pattern)] in
          let cache :=
            if (maxSize <? length cache)%nat
            then match cache with
                 | (firstKey, _) :: rest =>
                     if Js.isEmpty firstKey then cache else rest
                 | [] => cache
                 end
            else cache in
          (cache, get key cache)
      end
  end.

End RegexPatternCache.

(** *** Reusing the batch processor *)

(** [isConfigChanged]; [!==] on numbers is the negation of the IEEE
    equality *)
Definition isConfigChanged (oldConfig : option ProcessingConfig)
    (newConfig : ProcessingConfig) : bool :=
  match oldConfig with
  | None => true
  | Some oldConfig =>
      negb (minCharacters oldConfig =? minCharacters newConfig)%Z
      || negb (lineBreakThreshold oldConfig =? lineBreakThreshold newConfig)
      || match fontWidthMultiplier oldConfig,
               fontWidthMultiplier newConfig with
         | Some a, Some b => negb (a =? b)
         | None, None => false
         | _, _ => true
         end
      || negb (length (softBreakChars oldConfig)
               =? length (softBreakChars newConfig))%nat
      || existsb (fun pair => negb (fst pair =? snd pair)%Z)
           (combine (softBreakChars oldConfig) (softBreakChars newConfig))
  end.

(** [getBatchProcessor]: [batchProcessor] and [currentConfig] are set
    together, so the state is the configuration that the processor in
    use was built with; the processor returned is given by its
    configuration *)
Definition getBatchProcessor (current : option ProcessingConfig)
    (config : ProcessingConfig)
    : option ProcessingConfig * ProcessingConfig :=
  match current with
  | None => (Some config, config)
  | Some processorConfig =>
      if isConfigChanged current config then (Some config, config)
      else (current, processorConfig)
  end.

End Part000.

(** ** src/src: the modular revision *)

Module SrcDir.

Local Open Scope float_scope.

(** textAnalyzer.ts, [getLineNumbers] *)
Definition getLineNumbers (text : Js.jsstring) : list nat :=
  let lines := Js.splitOn (Z.eqb Js.LF) text in
  filter (fun lineNum => (lineNum <? length lines)%nat)
    (map (fun index => (index + 1)%nat) (seq 0 (length lines))).

(** textAnalyzer.ts, [detectAutoWidthIssues] *)
Definition detectAutoWidthIssues (node : TextNode)
    : list CodeTs.DetectedIssue :=
  if AutoResize_eqb (textAutoResize node) WIDTH_AND_HEIGHT
     && CodeTs.containsHardBreak (characters node)
  then [ {| CodeTs.type := AutoWidth; CodeTs.confidence := 0.9;
            CodeTs.lineNumbers := getLineNumbers (characters node) |} ]
  else [].

(** textAnalyzer.ts, [analyzeNodes]: [for (const node of nodes)] with the
    per-node [try]/[catch]; the [catch] reads [node.characters], and what
    that read throws leaves the function ([inr]) *)
Fixpoint analyzeNodes
    (analyze : TextNode -> CodeTs.TextAnalysisResult + Js.jsstring)
    (readFails : TextNode -> option Js.jsstring)
    (nodes : list TextNode) (results : list CodeTs.TextAnalysisResult)
    : list CodeTs.TextAnalysisResult + Js.jsstring :=
  match nodes with
  | [] => inl results
  | n :: rest =>
      match analyze n with
      | inl result =>
          analyzeNodes analyze readFails rest (results ++ [result])
      | inr error =>
          match readFails n with
          | Some thrown => inr thrown
          | None =>
              analyzeNodes analyze readFails rest
                (results
                   ++ [CodeTs.mkResult n [] (CodeTs.AnalysisError error)
                         (characters n)])
          end
      end
  end.

(** textProcessor.js, [combineLines] *)
Definition combineLines (line1 line2 : Js.jsstring) : Js.jsstring :=
  let trimmed1 := Js.trimEnd line1 in
  let trimmed2 := Js.trimStart line2 in
  let line1End := Js.lastChar trimmed1 in
  let line2Start := Js.firstChar trimmed2 in
  if CodeTs.isJapanese line1End && CodeTs.isJapanese line2Start
  then trimmed1 ++ trimmed2
  else if negb (Js.isEmpty trimmed1) && negb (Js.isEmpty trimmed2)
  then trimmed1 ++ [Js.SPACE] ++ trimmed2
  else trimmed1 ++ trimmed2.

(** textAnalyzer.ts, [getSoftBreakLines]: the lines are those between
    hard breaks *)
Definition getSoftBreakLines (softBreakChars : list Z)
    (text : Js.jsstring) : list nat :=
  let lines := Js.splitOn (Z.eqb Js.LF) text in
  flat_map
    (fun il : nat * Js.jsstring =>
       let '(index, line) := il in
       if existsb (fun softBreakChar => existsb (Z.eqb softBreakChar) line)
            softBreakChars
       then [(index + 1)%nat]
       else [])
    (combine (seq 0 (length lines)) lines).

End SrcDir.

(** ** The specification's wording

    Predicates written after the sentences of the specification, to
    compare the code with. *)

Module Spec.

(** "ends with one of" a set of marks *)
Definition endsWithAny (marks : list Z) (s : Js.jsstring) : bool :=
  match Js.lastChar s with
  | Some c => existsb (Z.eqb c) marks
  | None => false
  end.

(** 。！？ *)
Definition japaneseStops : list Z := [0x3002; 0xFF01; 0xFF1F]%Z.

(** "a sentence-final mark (。．！？ or ASCII equivalents)" *)
Definition sentenceFinalMarks : list Z :=
  [0x3002; 0xFF0E; 0xFF01; 0xFF1F; 46; 33; 63]%Z.

(** "CJK (per the same ranges as 4.1's full-width classification)" *)
Definition isCJK (char : option Z) : bool :=
  match char with
  | Some c => CodeTs.isFullWidthCharacter c
  | None => false
  end.

(** "right-trim a, left-trim b; if either is empty, concatenate as-is;
    else if the last scalar value of a and first of b are both CJK,
    concatenate with no separator; otherwise insert exactly one space" *)
Definition combineLines (a b : Js.jsstring) : Js.jsstring :=
  let a' := Js.trimEnd a in
  let b' := Js.trimStart b in
  if Js.isEmpty a' || Js.isEmpty b' then a' ++ b'
  else if isCJK (Js.lastChar a') && isCJK (Js.firstChar b') then a' ++ b'
  else a' ++ [Js.SPACE] ++ b'.

(** "if resizeMode == AutoWidthAndHeight and content contains a hard
    break, emit" *)
Definition autoWidthExpected (node : TextNode) : bool :=
  AutoResize_eqb (textAutoResize node) WIDTH_AND_HEIGHT
  && existsb (Z.eqb Js.LF) (characters node).

(** "a matcher recognizing the hard break plus all soft breaks" *)
Definition breakMatcher (softBreakChars : list Z) (c : Z) : bool :=
  existsb (Z.eqb c) (Js.LF :: softBreakChars).

(** "greedily accumulate tokens into a line while
    [estimateWidth(currentLine + token) <= containerWidth] or the line is
    still empty ...; otherwise flush the current line and start a new one
    with the token": the lines that the tokens still to come give, from
    the line being filled; at the end the line is flushed when there is
    something on it *)
Fixpoint greedyLines (estimateWidth : Js.jsstring -> float -> float)
    (containerWidth fontSize : float) (tokens : list Js.jsstring)
    (currentLine : Js.jsstring) : list Js.jsstring :=
  match tokens with
  | [] => match currentLine with [] => [] | _ => [currentLine] end
  | token :: rest =>
      if (estimateWidth (currentLine ++ token) fontSize
          <=? containerWidth)%float
      then greedyLines estimateWidth containerWidth fontSize rest
             (currentLine ++ token)
      else
        match currentLine with
        | [] =>
            greedyLines estimateWidth containerWidth fontSize rest token
        | _ =>
            currentLine
              :: greedyLines estimateWidth containerWidth fontSize rest
                   token
        end
  end.

(** "empty paragraphs yield one empty VisualLine"; "within a paragraph,
    split into alternating word/whitespace tokens" *)
Definition paragraphLines (estimateWidth : Js.jsstring -> float -> float)
    (containerWidth fontSize : float) (paragraph : Js.jsstring)
    : list Js.jsstring :=
  if forallb Js.isWhiteSpace paragraph then [[]]
  else greedyLines estimateWidth containerWidth fontSize
         (Js.splitWs paragraph) [].

(** "split [text] into paragraphs on the break matcher" *)
Definition simulate (estimateWidth : Js.jsstring -> float -> float)
    (matcher : Z -> bool) (containerWidth fontSize : float)
    (text : Js.jsstring) : list Js.jsstring :=
  flat_map (paragraphLines estimateWidth containerWidth fontSize)
    (Js.splitOn matcher text).

(** what the batch records for a node: the result of its analysis, or the
    error result when the analysis throws *)
Definition recorded
    (analyze : TextNode -> CodeTs.TextAnalysisResult + Js.jsstring)
    (n : TextNode) : CodeTs.TextAnalysisResult :=
  match analyze n with
  | inl result => result
  | inr error =>
      CodeTs.mkResult n [] (CodeTs.AnalysisError error) (characters n)
  end.

(** the batch as one sequential loop over the nodes, from index [k] on,
    which stops after the item during which [cancel()] is called *)
Fixpoint sequentialRun
    (analyze : TextNode -> CodeTs.TextAnalysisResult + Js.jsstring)
    (cancelDuring : nat -> bool) (k : nat) (nodes : list TextNode)
    : list CodeTs.TextAnalysisResult :=
  match nodes with
  | [] => []
  | n :: rest =>
      recorded analyze n
      :: (if cancelDuring k then []
          else sequentialRun analyze cancelDuring (S k) rest)
  end.

(** is [cancel()] called during one of the items, counted from [k]? *)
Fixpoint cancelledIn (cancelDuring : nat -> bool) (k : nat)
    (nodes : list TextNode) : bool :=
  match nodes with
  | [] => false
  | _ :: rest => cancelDuring k || cancelledIn cancelDuring (S k) rest
  end.

End Spec.

(** ** Sample data *)

Module Sample.

Local Open Scope float_scope.

(** a line of [n] Hiragana letters *)
Definition hiragana (n : nat) : Js.jsstring := repeat 0x3042%Z n.

(** a line of [n] Latin letters *)
Definition latin (n : nat) : Js.jsstring := repeat 97%Z n.

(** part_000 with the threshold 0.9 of the examples *)
Definition config000 : Part000.ProcessingConfig :=
  {| Part000.minCharacters := 20;
     Part000.lineBreakThreshold := 0.9;
     Part000.softBreakChars := [8232%Z];
     Part000.fontWidthMultiplier := Some 1 |}.

Definition textNode (text : Js.jsstring) (w : float) (mode : AutoResize)
    : TextNode :=
  {| characters := text; width := w; fontSize := Some 16;
     textAutoResize := mode; locked := false; visible := true;
     hasMissingFont := false; paragraphSpacing := 0 |}.

(** two sentences separated by the soft break U+2028 *)
Definition softBrokenText : Js.jsstring :=
  hiragana 10 ++ [0x3002; 8232]%Z ++ hiragana 10 ++ [0x3002]%Z.

(** two sentences separated by a hard break *)
Definition twoSentences : Js.jsstring :=
  hiragana 10 ++ [0x3002; 10]%Z ++ hiragana 10 ++ [0xFF01]%Z.

(** a wide Latin line ending in a full stop, and a next line *)
Definition latinSentenceLines : list Js.jsstring :=
  [latin 12 ++ [46%Z]; latin 3].

(** src/code.ts configured with the soft break [^] *)
Definition caretConfig : CodeTs.ProcessingConfig :=
  {| CodeTs.minCharacters := 20;
     CodeTs.lineBreakThreshold := 0.9;
     CodeTs.softBreakChars := [94%Z];
     CodeTs.enabledDetections := [AutoWidth; EdgeBreaking; SoftBreak];
     CodeTs.fontWidthMultiplier := Some 1 |}.

(** an auto-height block of two lines *)
Definition autoHeightNode : TextNode :=
  textNode (latin 30 ++ [10%Z] ++ latin 5) 100 HEIGHT.

(** an auto-width block of two Hiragana lines *)
Definition autoWidthNode : TextNode :=
  textNode (hiragana 23 ++ [10%Z] ++ hiragana 5) 400 WIDTH_AND_HEIGHT.

(** an analysis that throws for locked blocks *)
Definition throwingAnalyze (n : TextNode)
    : CodeTs.TextAnalysisResult + Js.jsstring :=
  if locked n then inr [69%Z]
  else inl (CodeTs.analyzeTextNode CodeTs.DEFAULT_CONFIG n).

Definition lockedNode : TextNode :=
  {| characters := latin 3; width := 100; fontSize := None;
     textAutoResize := NONE; locked := true; visible := true;
     hasMissingFont := false; paragraphSpacing := 0 |}.

(** three blocks, the second of which makes the analysis throw *)
Definition batch : list TextNode :=
  [autoHeightNode; lockedNode; autoWidthNode].

(** a host in which every block can be read *)
Definition readable (n : TextNode) : option Js.jsstring := None.

(** a host in which the locked block is gone from the document: reading
    its text throws, as the analysis of it does *)
Definition unreadable (n : TextNode) : option Js.jsstring :=
  if locked n then Some [69%Z] else None.

(** a progress callback that returns, and one that throws *)
Definition quietCallback (update : CodeTs.ProgressUpdate)
    : option Js.jsstring := None.

Definition throwingCallback (update : CodeTs.ProgressUpdate)
    : option Js.jsstring := Some [80%Z].

(** src/code.ts configured with a hyphen and [a] as soft breaks *)
Definition hyphenConfig : CodeTs.ProcessingConfig :=
  {| CodeTs.minCharacters := 20;
     CodeTs.lineBreakThreshold := 0.9;
     CodeTs.softBreakChars := [45%Z; 97%Z];
     CodeTs.enabledDetections := [AutoWidth; EdgeBreaking; SoftBreak];
     CodeTs.fontWidthMultiplier := Some 1 |}.

(** src/code.ts configured with a hyphen and a tabulator as soft breaks *)
Definition hyphenTabConfig : CodeTs.ProcessingConfig :=
  {| CodeTs.minCharacters := 20;
     CodeTs.lineBreakThreshold := 0.9;
     CodeTs.softBreakChars := [45%Z; 9%Z];
     CodeTs.enabledDetections := [AutoWidth; EdgeBreaking; SoftBreak];
     CodeTs.fontWidthMultiplier := Some 1 |}.

(** src/code.ts with the threshold 0: no line is below it *)
Definition zeroThresholdConfig : CodeTs.ProcessingConfig :=
  {| CodeTs.minCharacters := 20;
     CodeTs.lineBreakThreshold := 0;
     CodeTs.softBreakChars := [8232%Z];
     CodeTs.enabledDetections := [AutoWidth; EdgeBreaking; SoftBreak];
     CodeTs.fontWidthMultiplier := Some 1 |}.

(** a block whose text is two blank lines *)
Definition blankLinesNode : TextNode :=
  textNode [32; 10; 32]%Z 100 HEIGHT.

(** a host that loads every font and accepts every write *)
Definition willingHost (w : Processing.NodeWrite) : bool := true.

(** the message of a thrown error, by its kind *)
Definition messageOf (e : Processing.Thrown) : Js.jsstring :=
  match e with
  | Processing.MissingFontError => [77%Z]
  | Processing.LockedError => [76%Z]
  | Processing.FontLoadError => [70%Z]
  | Processing.ApplyError => [65%Z]
  | Processing.PatternError => [80%Z]
  end.

(** remove the line breaks only *)
Definition removeOnly : Processing.ForceChanges :=
  {| Processing.removeLineBreaks := true;
     Processing.convertSoftBreaks := false |}.

(** remove the line breaks, then convert the soft breaks *)
Definition removeAndConvert : Processing.ForceChanges :=
  {| Processing.removeLineBreaks := true;
     Processing.convertSoftBreaks := true |}.

(** what a plain object inherits: [__proto__] is an accessor,
    [constructor] and [toString] are data properties (the other names of
    [Object.prototype] are left out of this sample) *)
Definition objectPrototype (key : Js.jsstring) : CodeTs.Inherited :=
  if Js.streq key [95; 95; 112; 114; 111; 116; 111; 95; 95]%Z
  then CodeTs.InheritedAccessor
  else if Js.streq key
            [99; 111; 110; 115; 116; 114; 117; 99; 116; 111; 114]%Z
          || Js.streq key [116; 111; 83; 116; 114; 105; 110; 103]%Z
  then CodeTs.InheritedData
  else CodeTs.NotInherited.

(** two locked nodes, one processed node, one error without a text *)
Definition processed : list Processing.ProcessingResult :=
  [ Processing.failed (Processing.reasonText Processing.NodeIsLocked);
    Processing.succeeded Processing.noChanges;
    Processing.failed [];
    Processing.failed (Processing.reasonText Processing.NodeIsLocked) ].

(** part_000 with the thresholds [0] and [-0] *)
Definition zeroConfig000 : Part000.ProcessingConfig :=
  {| Part000.minCharacters := 20;
     Part000.lineBreakThreshold := 0;
     Part000.softBreakChars := [8232%Z];
     Part000.fontWidthMultiplier := Some 1 |}.

Definition minusZeroConfig000 : Part000.ProcessingConfig :=
  {| Part000.minCharacters := 20;
     Part000.lineBreakThreshold := -0;
     Part000.softBreakChars := [8232%Z];
     Part000.fontWidthMultiplier := Some 1 |}.


End Sample.

(** * Properties *)

(** ** Strings *)

Lemma splitOn_nonempty (p : Z -> bool) (s : Js.jsstring) :
  Js.splitOn p s <> [].
Proof.
  destruct s as [|c s]; simpl; [discriminate|].
  destruct (p c); [discriminate|].
  destruct (Js.splitOn p s); discriminate.
Qed.

Lemma join_cons (sep x : Js.jsstring) (xs : list Js.jsstring) :
  xs <> [] -> Js.join sep (x :: xs) = x ++ sep ++ Js.join sep xs.
Proof. destruct xs; [congruence | reflexivity]. Qed.

Lemma join_consHead (sep : Js.jsstring) (c : Z) (l : Js.jsstring)
    (ls : list Js.jsstring) :
  Js.join sep ((c :: l) :: ls) = c :: Js.join sep (l :: ls).
Proof. destruct ls; reflexivity. Qed.

(** Splitting on a class whose only member in the text is the hard break
    and joining with the hard break gives the text back. *)
Lemma join_splitOn (p : Z -> bool) (s : Js.jsstring) :
  (forall c, In c s -> p c = true -> c = Js.LF) ->
  Js.join [Js.LF] (Js.splitOn p s) = s.
Proof.
  induction s as [|c s IH]; intros Hp; [reflexivity|].
  assert (IH' : Js.join [Js.LF] (Js.splitOn p s) = s)
    by (apply IH; intros d Hd; apply Hp; right; exact Hd).
  simpl. destruct (p c) eqn:Hc.
  - rewrite join_cons by apply splitOn_nonempty.
    rewrite IH'. rewrite (Hp c (or_introl eq_refl) Hc). reflexivity.
  - destruct (Js.splitOn p s) as [|l ls] eqn:Hs.
    + exfalso. exact (splitOn_nonempty p s Hs).
    + rewrite join_consHead, IH'. reflexivity.
Qed.

Lemma splitOn_ext (p q : Z -> bool) (s : Js.jsstring) :
  (forall c, In c s -> p c = q c) -> Js.splitOn p s = Js.splitOn q s.
Proof.
  induction s as [|c s IH]; intros H; [reflexivity|].
  simpl. rewrite (H c (or_introl eq_refl)).
  rewrite IH by (intros d Hd; apply H; right; exact Hd). reflexivity.
Qed.

Lemma streq_refl (s : Js.jsstring) : Js.streq s s = true.
Proof. induction s; simpl; [reflexivity|]. now rewrite Z.eqb_refl. Qed.

Lemma streq_eq (s t : Js.jsstring) : Js.streq s t = true <-> s = t.
Proof.
  split; [|intros ->; apply streq_refl].
  revert t. induction s as [|c s IH]; intros [|d t]; simpl;
    try discriminate; [reflexivity|].
  intros H. apply andb_prop in H as [H1 H2].
  apply Z.eqb_eq in H1. apply IH in H2. congruence.
Qed.

(** ** Lists *)

Lemma combine_app {A B : Type} (a c : list A) (b d : list B) :
  length a = length b ->
  combine (a ++ c) (b ++ d) = combine a b ++ combine c d.
Proof.
  revert b. induction a as [|x a IH]; intros [|y b] H; simpl in *;
    try discriminate; [reflexivity|].
  f_equal. apply IH. lia.
Qed.

Lemma firstn_plus {A : Type} (a b : nat) (l : list A) :
  firstn (a + b) l = firstn a l ++ firstn b (skipn a l).
Proof.
  revert l. induction a as [|a IH]; intros l; [reflexivity|].
  destruct l as [|x l]; simpl.
  - now rewrite firstn_nil.
  - now rewrite IH.
Qed.

(** ** The break class *)

Lemma inRange_single (a c : Z) : Js.inRange a a c = (c =? a)%Z.
Proof.
  unfold Js.inRange.
  destruct (Z.eqb_spec c a) as [->|Hne].
  - now rewrite Z.leb_refl.
  - destruct (Z.leb_spec a c), (Z.leb_spec c a); try reflexivity. lia.
Qed.

Lemma inClass_singles (atoms : list Z) (c : Z) :
  inClass (map (fun x => (x, x)) atoms) c = existsb (Z.eqb c) atoms.
Proof.
  unfold inClass. induction atoms as [|a atoms IH]; [reflexivity|].
  cbn [map existsb fst snd]. now rewrite IH, inRange_single.
Qed.

Lemma classRanges_singles (rest : list Z) :
  forall a,
  existsb (Z.eqb HYPHEN) (removelast rest) = false ->
  classRanges (a :: rest) = Some (map (fun x => (x, x)) (a :: rest)).
Proof.
  induction rest as [|h rest IH]; intros a Hno; [reflexivity|].
  destruct rest as [|b rest'].
  - reflexivity.
  - change (removelast (h :: b :: rest'))
      with (h :: removelast (b :: rest')) in Hno.
    cbn [existsb] in Hno. apply orb_false_iff in Hno as [Hh Hno].
    change (classRanges (a :: h :: b :: rest'))
      with (if (h =? HYPHEN)%Z
            then if (a <=? b)%Z
                 then option_map (cons (a, b)) (classRanges rest')
                 else None
            else option_map (cons (a, a)) (classRanges (h :: b :: rest'))).
    rewrite Z.eqb_sym, Hh. now rewrite (IH h Hno).
Qed.

(** With no hyphen but in the last place the class compiles, and it is
    the matcher of the specification. *)
Lemma compileBreakClass_formsNoRange (soft : list Z) :
  formsNoRange soft = true ->
  exists matches,
    compileBreakClass soft = Some matches
    /\ forall c, matches c = Spec.breakMatcher soft c.
Proof.
  unfold formsNoRange. intros H. apply negb_true_iff in H.
  unfold compileBreakClass. rewrite (classRanges_singles _ Js.LF H).
  eexists. split; [reflexivity|]. intros c. apply inClass_singles.
Qed.

(** a class that compiles matches the hard break *)
Lemma compileBreakClass_LF (soft : list Z) (matches : Z -> bool) :
  compileBreakClass soft = Some matches -> matches Js.LF = true.
Proof.
  unfold compileBreakClass.
  assert (Hhead : forall ranges,
            classRanges (Js.LF :: soft) = Some ranges ->
            exists b rest, ranges = (Js.LF, b) :: rest /\ (Js.LF <= b)%Z).
  { intros ranges. destruct soft as [|h [|b rest]].
    - intros H. injection H as <-. exists Js.LF, []. split; [reflexivity|lia].
    - cbn [classRanges option_map]. intros H. injection H as <-.
      exists Js.LF, [(h, h)]. split; [reflexivity|lia].
    - change (classRanges (Js.LF :: h :: b :: rest))
        with (if (h =? HYPHEN)%Z
              then if (Js.LF <=? b)%Z
                   then option_map (cons (Js.LF, b)) (classRanges rest)
                   else None
              else option_map (cons (Js.LF, Js.LF))
                     (classRanges (h :: b :: rest))).
      destruct (h =? HYPHEN)%Z.
      + destruct (Js.LF <=? b)%Z eqn:Eb; [|discriminate].
        destruct (classRanges rest) as [tail|]; [|discriminate].
        intros H. injection H as <-. exists b, tail.
        split; [reflexivity|now apply Z.leb_le].
      + destruct (classRanges (h :: b :: rest)) as [tail|]; [|discriminate].
        intros H. injection H as <-. exists Js.LF, tail.
        split; [reflexivity|lia]. }
  destruct (classRanges (Js.LF :: soft)) as [ranges|]; [|discriminate].
  intros H. injection H as <-.
  destruct (Hhead ranges eq_refl) as (b & rest & -> & Hb).
  unfold inClass. cbn [existsb fst snd]. unfold Js.inRange.
  now rewrite Z.leb_refl, (proj2 (Z.leb_le _ _) Hb).
Qed.

Lemma breakMatcher_LF (soft : list Z) : Spec.breakMatcher soft Js.LF = true.
Proof. unfold Spec.breakMatcher. cbn [existsb]. now rewrite Z.eqb_refl. Qed.

Lemma breakMatcher_soft (soft : list Z) (c : Z) :
  In c soft -> Spec.breakMatcher soft c = true.
Proof.
  intros H. unfold Spec.breakMatcher. apply existsb_exists.
  exists c. split; [now right|apply Z.eqb_refl].
Qed.

Lemma breakMatcher_false (soft : list Z) (c : Z) :
  Spec.breakMatcher soft c = false ->
  c <> Js.LF /\ existsb (Z.eqb c) soft = false.
Proof.
  unfold Spec.breakMatcher. cbn [existsb]. intros H.
  apply orb_false_iff in H as [H1 H2]. split; [|exact H2].
  now apply Z.eqb_neq.
Qed.

(** What the functions of src/code.ts that split a text do when the class
    compiles; with no hyphen but in the last place they split at the hard
    break and the soft breaks. *)
Lemma rejoin_compiled (cfg : CodeTs.ProcessingConfig) (text : Js.jsstring)
    (containerWidth fontSize : float) (ignoreMinCharacters : bool)
    (matches : Z -> bool) :
  CodeTs.breakPattern cfg = Some matches ->
  CodeTs.removeLineBreaksJapanesePriority cfg text containerWidth fontSize
    ignoreMinCharacters
  = Some (if negb ignoreMinCharacters
             && (Z.of_nat (length text) <? CodeTs.minCharacters cfg)%Z
          then text
          else rejoinLines
                 (CodeTs.breakAfterLine cfg containerWidth fontSize)
                 CodeTs.combineLines (Js.splitOn matches text)).
Proof.
  intros H. unfold CodeTs.removeLineBreaksJapanesePriority. rewrite H.
  now destruct (_ && _).
Qed.

Lemma breakPattern_formsNoRange (cfg : CodeTs.ProcessingConfig) :
  formsNoRange (CodeTs.softBreakChars cfg) = true ->
  exists matches,
    CodeTs.breakPattern cfg = Some matches
    /\ forall text,
         Js.splitOn matches text
         = Js.splitOn (Spec.breakMatcher (CodeTs.softBreakChars cfg)) text.
Proof.
  intros H.
  destruct (compileBreakClass_formsNoRange _ H) as (matches & Hc & Hm).
  exists matches. split; [exact Hc|].
  intros text. apply splitOn_ext. intros c _. apply Hm.
Qed.

Lemma getBreakPattern_formsNoRange (cfg : Part000.ProcessingConfig) :
  formsNoRange (Part000.softBreakChars cfg) = true ->
  exists matches,
    Part000.getBreakPattern (Part000.softBreakChars cfg) = Some matches
    /\ forall text,
         Js.splitOn matches text
         = Js.splitOn (Spec.breakMatcher (Part000.softBreakChars cfg)) text.
Proof.
  intros H.
  destruct (compileBreakClass_formsNoRange _ H) as (matches & Hc & Hm).
  exists matches. split; [exact Hc|].
  intros text. apply splitOn_ext. intros c _. apply Hm.
Qed.

Lemma rejoin_formsNoRange (cfg : CodeTs.ProcessingConfig)
    (text : Js.jsstring) (containerWidth fontSize : float)
    (ignoreMinCharacters : bool) :
  formsNoRange (CodeTs.softBreakChars cfg) = true ->
  CodeTs.removeLineBreaksJapanesePriority cfg text containerWidth fontSize
    ignoreMinCharacters
  = Some (if negb ignoreMinCharacters
             && (Z.of_nat (length text) <? CodeTs.minCharacters cfg)%Z
          then text
          else rejoinLines
                 (CodeTs.breakAfterLine cfg containerWidth fontSize)
                 CodeTs.combineLines
                 (Js.splitOn (Spec.breakMatcher (CodeTs.softBreakChars cfg))
                    text)).
Proof.
  intros H. destruct (breakPattern_formsNoRange cfg H) as (m & Hm & Hs).
  now rewrite (rejoin_compiled _ _ _ _ _ m Hm), Hs.
Qed.

(** ** The two loops of the rejoin *)

Section RejoinFacts.

Variable f : Js.jsstring -> bool.
Variable comb : Js.jsstring -> Js.jsstring -> Js.jsstring.

Lemma shouldBreakAfter_length (lines : list Js.jsstring) :
  length (shouldBreakAfter f lines) = length lines.
Proof. unfold shouldBreakAfter. now rewrite length_map, length_seq. Qed.

Lemma shouldBreakAfter_nth_error (lines : list Js.jsstring) (i : nat) :
  i < length lines ->
  nth_error (shouldBreakAfter f lines) i
  = Some (shouldBreakAfterAt f lines i).
Proof.
  intros Hi. unfold shouldBreakAfter.
  rewrite nth_error_map.
  rewrite (nth_error_nth' _ 0) by (now rewrite length_seq).
  now rewrite seq_nth.
Qed.

(** a line that is not the last one gets the verdict of the line test *)
Lemma shouldBreakAfter_inner (lines : list Js.jsstring) (i : nat)
    (l : Js.jsstring) :
  S i < length lines -> nth_error lines i = Some l ->
  nth_error (shouldBreakAfter f lines) i = Some (f l).
Proof.
  intros Hi Hl. rewrite shouldBreakAfter_nth_error by lia.
  unfold shouldBreakAfterAt.
  destruct (Nat.eqb_spec i (length lines - 1)); [lia|].
  now rewrite (nth_error_nth _ _ _ Hl).
Qed.

(** the last line always ends a segment *)
Lemma shouldBreakAfter_last (lines : list Js.jsstring) :
  lines <> [] ->
  nth_error (shouldBreakAfter f lines) (length lines - 1) = Some true.
Proof.
  intros Hne.
  assert (0 < length lines) by (destruct lines; simpl; [congruence|lia]).
  rewrite shouldBreakAfter_nth_error by lia.
  unfold shouldBreakAfterAt. now rewrite Nat.eqb_refl.
Qed.

Lemma map_nth_seq (g : Js.jsstring -> bool) (l : list Js.jsstring) :
  map (fun i => g (nth i l [])) (seq 0 (length l)) = map g l.
Proof.
  induction l as [|x l IH]; [reflexivity|].
  simpl. f_equal. rewrite <- seq_shift, map_map. exact IH.
Qed.

(** the flags of a text: the line test on every line but the last *)
Lemma shouldBreakAfter_snoc (init : list Js.jsstring) (z : Js.jsstring) :
  shouldBreakAfter f (init ++ [z]) = map f init ++ [true].
Proof.
  unfold shouldBreakAfter. rewrite length_app. simpl length.
  rewrite seq_app, map_app. simpl.
  f_equal.
  - rewrite <- (map_nth_seq f init). apply map_ext_in.
    intros i Hi. apply in_seq in Hi. unfold shouldBreakAfterAt.
    rewrite length_app. simpl length.
    destruct (Nat.eqb_spec i (length init + 1 - 1)); [lia|].
    now rewrite app_nth1 by lia.
  - unfold shouldBreakAfterAt. rewrite length_app. simpl length.
    now replace (length init + 1 - 1) with (length init) by lia;
      rewrite Nat.eqb_refl.
Qed.

Lemma shouldBreakAfter_app (pre post : list Js.jsstring) :
  post <> [] ->
  shouldBreakAfter f (pre ++ post)
  = map f pre ++ shouldBreakAfter f post.
Proof.
  intros Hne. destruct (exists_last Hne) as (init & z & ->).
  rewrite app_assoc, !shouldBreakAfter_snoc, map_app.
  now rewrite app_assoc.
Qed.

Lemma fold_joinStep_acc (xs : list (Js.jsstring * bool))
    (r : list Js.jsstring) (c : Js.jsstring) :
  fold_left (joinStep comb) xs (r, c)
  = (r ++ fst (fold_left (joinStep comb) xs ([], c)),
     snd (fold_left (joinStep comb) xs ([], c))).
Proof.
  revert r c. induction xs as [|[l b] xs IH]; intros r c; simpl.
  - now rewrite app_nil_r.
  - destruct b.
    + rewrite (IH (r ++ _)), (IH [_]). simpl.
      now rewrite <- app_assoc.
    + apply IH.
Qed.

(** after the last line nothing is pending *)
Lemma fold_joinStep_flushed (lines : list Js.jsstring)
    (st : list Js.jsstring * Js.jsstring) :
  lines <> [] ->
  snd (fold_left (joinStep comb)
         (combine lines (shouldBreakAfter f lines)) st) = [].
Proof.
  intros Hne. destruct (exists_last Hne) as (init & z & ->).
  rewrite shouldBreakAfter_snoc.
  rewrite combine_app by (now rewrite length_map).
  rewrite fold_left_app. simpl.
  destruct (fold_left _ _ st) as [r c]. reflexivity.
Qed.

(** When the break after line [i] stays, the text falls into the part
    up to line [i] and the part after it, rejoined independently. *)
Lemma joinLines_split (pre post : list Js.jsstring) (l : Js.jsstring) :
  post <> [] -> f l = true ->
  joinLines f comb ((pre ++ [l]) ++ post)
  = joinLines f comb (pre ++ [l]) ++ joinLines f comb post.
Proof.
  intros Hne Hl. unfold joinLines.
  rewrite shouldBreakAfter_app by exact Hne.
  assert (Hfl : map f (pre ++ [l]) = shouldBreakAfter f (pre ++ [l])).
  { rewrite shouldBreakAfter_snoc, map_app. simpl. now rewrite Hl. }
  rewrite Hfl.
  rewrite combine_app by (now rewrite shouldBreakAfter_length).
  rewrite fold_left_app.
  assert (Hfin := fold_joinStep_flushed (pre ++ [l]) ([], [])).
  destruct (fold_left (joinStep comb)
              (combine (pre ++ [l]) (shouldBreakAfter f (pre ++ [l])))
              ([], [])) as [r c].
  simpl in Hfin. rewrite Hfin by (destruct pre; discriminate).
  now rewrite fold_joinStep_acc.
Qed.

Lemma fold_joinStep_all_true (xs r : list Js.jsstring) :
  fold_left (joinStep comb) (combine xs (repeat true (length xs))) (r, [])
  = (r ++ xs, []).
Proof.
  revert r. induction xs as [|x xs IH]; intros r; simpl.
  - now rewrite app_nil_r.
  - rewrite IH. now rewrite <- app_assoc.
Qed.

(** when every line passes the line test, no line is joined *)
Lemma joinLines_all_break (lines : list Js.jsstring) :
  (forall l, In l lines -> f l = true) ->
  joinLines f comb lines = lines.
Proof.
  intros Hall. unfold joinLines.
  assert (Hgen : forall idx,
             (forall i, In i idx -> shouldBreakAfterAt f lines i = true) ->
             map (shouldBreakAfterAt f lines) idx
             = repeat true (length idx)).
  { induction idx as [|i idx IH]; intros Hidx; [reflexivity|].
    simpl. rewrite Hidx by (now left). f_equal.
    apply IH. intros j Hj. apply Hidx. now right. }
  assert (Hflags : shouldBreakAfter f lines = repeat true (length lines)).
  { unfold shouldBreakAfter. rewrite Hgen; [now rewrite length_seq|].
    intros i Hi. apply in_seq in Hi. unfold shouldBreakAfterAt.
    destruct (i =? length lines - 1); [reflexivity|].
    apply Hall, nth_In. lia. }
  rewrite Hflags, fold_joinStep_all_true. reflexivity.
Qed.

End RejoinFacts.

(** ** Numbers *)




(** ** The break after a line *)

Lemma endsWithSentenceMark_same (s : Js.jsstring) :
  Part000.endsWithSentenceMark s = CodeTs.endsWithSentenceMark s.
Proof. reflexivity. Qed.



Lemma japaneseStop_is_sentenceMark (s : Js.jsstring) :
  Spec.endsWithAny Spec.japaneseStops s = true ->
  CodeTs.endsWithSentenceMark s = true.
Proof.
  unfold Spec.endsWithAny, CodeTs.endsWithSentenceMark, Spec.japaneseStops.
  destruct (Js.lastChar s) as [c|]; [|discriminate]. simpl.
  destruct (c =? 12290)%Z, (c =? 65281)%Z, (c =? 65311)%Z,
    (c =? 65294)%Z; simpl; congruence.
Qed.

(** the lines of a text in which the pattern matches hard breaks only *)
Lemma splitOn_hard_only (matches : Z -> bool) (text : Js.jsstring) :
  matches Js.LF = true ->
  (forall c, In c text -> matches c = true -> c = Js.LF) ->
  Js.splitOn matches text = Js.splitOn (Z.eqb Js.LF) text.
Proof.
  intros HLF Honly. apply splitOn_ext. intros c Hc.
  destruct (Z.eqb_spec Js.LF c) as [<-|Hne]; [exact HLF|].
  destruct (matches c) eqn:E; [|reflexivity].
  exfalso. apply Hne. symmetry. now apply Honly.
Qed.

Lemma sentence_lines_unchanged_codeTs (cfg : CodeTs.ProcessingConfig)
    (text : Js.jsstring) (containerWidth fontSize : float)
    (ignoreMinCharacters : bool) (matches : Z -> bool) :
  (forall l, In l (Js.splitOn (Z.eqb Js.LF) text) ->
             Spec.endsWithAny Spec.japaneseStops (Js.trim l) = true) ->
  CodeTs.breakPattern cfg = Some matches ->
  (forall c, In c text -> matches c = true -> c = Js.LF) ->
  CodeTs.removeLineBreaksJapanesePriority cfg text containerWidth fontSize
    ignoreMinCharacters = Some text.
Proof.
  intros Hlines Hm Honly. rewrite (rejoin_compiled _ _ _ _ _ _ Hm).
  destruct (_ && _); [reflexivity|]. f_equal.
  rewrite (splitOn_hard_only matches text
             (compileBreakClass_LF _ _ Hm) Honly).
  unfold rejoinLines. rewrite joinLines_all_break.
  - apply join_splitOn. intros c _ Hc. symmetry. now apply Z.eqb_eq.
  - intros l Hl. unfold CodeTs.breakAfterLine.
    now rewrite (japaneseStop_is_sentenceMark _ (Hlines l Hl)).
Qed.

(** C2, amended: a text whose hard-break-delimited lines all end, after
    trimming, in one of 。！？ is returned unchanged by the rejoin of
    part_000.  The rejoin of src/code.ts splits at every code unit that
    its break pattern matches and joins with the hard break: it returns
    the text unchanged when the pattern compiles and matches nothing in
    the text but hard breaks; that is, for soft breaks that make no range
    (no hyphen but in the last place), when the text contains no
    configured soft break.  When the pattern does not compile, the call
    throws unless the text is shorter than [minCharacters]. *)
Theorem C2_sentence_lines_unchanged
    (cfgA : CodeTs.ProcessingConfig) (cfgB : Part000.ProcessingConfig)
    (text : Js.jsstring) (containerWidth fontSize : float)
    (ignoreMinCharacters : bool)
    (Hlines : forall l, In l (Js.splitOn (Z.eqb Js.LF) text) ->
                Spec.endsWithAny Spec.japaneseStops (Js.trim l) = true) :
  Part000.removeLineBreaksJapanesePriority cfgB text containerWidth fontSize
    ignoreMinCharacters = text
  /\ (forall matches,
        CodeTs.breakPattern cfgA = Some matches ->
        (forall c, In c text -> matches c = true -> c = Js.LF) ->
        CodeTs.removeLineBreaksJapanesePriority cfgA text containerWidth
          fontSize ignoreMinCharacters = Some text)
  /\ (formsNoRange (CodeTs.softBreakChars cfgA) = true ->
      (forall c, In c text -> In c (CodeTs.softBreakChars cfgA) ->
                 c = Js.LF) ->
      CodeTs.removeLineBreaksJapanesePriority cfgA text containerWidth
        fontSize ignoreMinCharacters = Some text)
  /\ (CodeTs.breakPattern cfgA = None ->
      CodeTs.removeLineBreaksJapanesePriority cfgA text containerWidth
        fontSize ignoreMinCharacters
      = if negb ignoreMinCharacters
           && (Z.of_nat (length text) <? CodeTs.minCharacters cfgA)%Z
        then Some text else None).
Proof.
  split; [|split; [|split]].
  - unfold Part000.removeLineBreaksJapanesePriority.
    destruct (_ && _); [reflexivity|].
    unfold rejoinLines. rewrite joinLines_all_break.
    + apply join_splitOn. intros c _ Hc. symmetry. now apply Z.eqb_eq.
    + intros l Hl. unfold Part000.breakAfterLine.
      rewrite endsWithSentenceMark_same.
      now rewrite (japaneseStop_is_sentenceMark _ (Hlines l Hl)).
  - intros matches Hm Honly.
    now apply (sentence_lines_unchanged_codeTs _ _ _ _ _ matches).
  - intros Hclass Hsoft.
    destruct (compileBreakClass_formsNoRange _ Hclass)
      as (matches & Hm & Hmem).
    apply (sentence_lines_unchanged_codeTs _ _ _ _ _ matches);
      [exact Hlines|exact Hm|].
    intros c Hc Hmc. rewrite Hmem in Hmc.
    destruct (Z.eq_dec c Js.LF) as [Heq|Hne]; [exact Heq|].
    apply Hsoft; [exact Hc|].
    unfold Spec.breakMatcher in Hmc. cbn [existsb] in Hmc.
    apply orb_prop in Hmc as [Hmc|Hmc];
      [apply Z.eqb_eq in Hmc; congruence|].
    apply existsb_exists in Hmc as (x & Hx & Hcx).
    apply Z.eqb_eq in Hcx. now subst x.
  - intros Hnone. unfold CodeTs.removeLineBreaksJapanesePriority.
    now rewrite Hnone.
Qed.

Lemma C2_witness :
  Part000.removeLineBreaksJapanesePriority Sample.config000
    Sample.twoSentences 400 16 false = Sample.twoSentences
  /\ CodeTs.removeLineBreaksJapanesePriority CodeTs.DEFAULT_CONFIG
       Sample.twoSentences 400 16 false = Some Sample.twoSentences.
Proof.
  assert (Hlines : forall l,
             In l (Js.splitOn (Z.eqb Js.LF) Sample.twoSentences) ->
             Spec.endsWithAny Spec.japaneseStops (Js.trim l) = true).
  { vm_compute. intros l [<-|[<-|[]]]; reflexivity. }
  destruct (C2_sentence_lines_unchanged CodeTs.DEFAULT_CONFIG
              Sample.config000 Sample.twoSentences 400 16 false Hlines)
    as (HB & _ & HA & _).
  split; [exact HB|]. apply HA; [reflexivity|].
  intros c Hc [<-|[]]. revert Hc. vm_compute.
  intros H; repeat (destruct H as [H|H]; [discriminate H|]); destruct H.
Defined.

(** The claim C2 as stated fails on src/code.ts: the text is long enough,
    its only hard-break-delimited line ends in 。, but the soft break in it
    is turned into a hard break. *)
Lemma C2_counterexample :
  (CodeTs.minCharacters CodeTs.DEFAULT_CONFIG
   <= Z.of_nat (length Sample.softBrokenText))%Z
  /\ (forall l, In l (Js.splitOn (Z.eqb Js.LF) Sample.softBrokenText) ->
        Spec.endsWithAny Spec.japaneseStops (Js.trim l) = true)
  /\ CodeTs.removeLineBreaksJapanesePriority CodeTs.DEFAULT_CONFIG
       Sample.softBrokenText 400 16 false
     = Some (Sample.hiragana 10 ++ [0x3002; 10]%Z
               ++ Sample.hiragana 10 ++ [0x3002]%Z)
  /\ CodeTs.removeLineBreaksJapanesePriority CodeTs.DEFAULT_CONFIG
       Sample.softBrokenText 400 16 false
     <> Some Sample.softBrokenText.
Proof.
  split; [vm_compute; discriminate|].
  split; [vm_compute; intros l [<-|[]]; reflexivity|].
  split; [vm_compute; reflexivity|].
  vm_compute. discriminate.
Qed.

(** A hyphen before the last soft break makes a range: with the soft
    breaks [-] and [a] the pattern is the class from the hard break to
    [a], which matches the capital letters, and a text without any
    configured soft break is split at them; with a hyphen and a
    tabulator the class does not compile and the rejoin throws. *)
Example hyphen_range_splits_at_letters :
  CodeTs.removeLineBreaksJapanesePriority Sample.hyphenConfig
    [65; 0x3002]%Z 400 16 true = Some [10; 0x3002]%Z
  /\ CodeTs.removeLineBreaksJapanesePriority Sample.hyphenTabConfig
       [65; 0x3002]%Z 400 16 true = None
  /\ CodeTs.removeLineBreaksJapanesePriority Sample.hyphenTabConfig
       [65; 0x3002]%Z 400 16 false = Some [65; 0x3002]%Z.
Proof. repeat split; vm_compute; reflexivity. Qed.

(** C3, amended: a line that is not the last and whose trimmed content ends
    in one of 。．！？ keeps its break whatever its width, the container
    width and the threshold are, in both revisions.  (The ASCII marks are
    not in the class the code tests.) *)
Theorem C3_sentence_mark_keeps_break
    (cfgA : CodeTs.ProcessingConfig) (cfgB : Part000.ProcessingConfig)
    (containerWidth fontSize : float)
    (lines : list Js.jsstring) (i : nat) (line : Js.jsstring)
    (Hi : S i < length lines)
    (Hline : nth_error lines i = Some line)
    (Hmark : CodeTs.endsWithSentenceMark (Js.trim line) = true) :
  nth_error
    (shouldBreakAfter (CodeTs.breakAfterLine cfgA containerWidth fontSize)
       lines) i = Some true
  /\ nth_error
       (shouldBreakAfter (Part000.breakAfterLine cfgB containerWidth fontSize)
          lines) i = Some true.
Proof.
  split; rewrite (shouldBreakAfter_inner _ lines i line Hi Hline).
  - unfold CodeTs.breakAfterLine. now rewrite Hmark.
  - unfold Part000.breakAfterLine.
    now rewrite endsWithSentenceMark_same, Hmark.
Qed.

Lemma C3_witness :
  nth_error
    (shouldBreakAfter (CodeTs.breakAfterLine CodeTs.DEFAULT_CONFIG 100 16)
       [Sample.hiragana 23 ++ [0xFF0E%Z]; Sample.hiragana 5]) 0 = Some true
  /\ nth_error
       (shouldBreakAfter (Part000.breakAfterLine Sample.config000 100 16)
          [Sample.hiragana 23 ++ [0xFF0E%Z]; Sample.hiragana 5]) 0
     = Some true.
Proof.
  exact (C3_sentence_mark_keeps_break CodeTs.DEFAULT_CONFIG Sample.config000
           100 16 [Sample.hiragana 23 ++ [0xFF0E%Z]; Sample.hiragana 5] 0
           (Sample.hiragana 23 ++ [0xFF0E%Z]) (le_n 2) eq_refl eq_refl).
Defined.

(** The claim C3 as stated fails for the ASCII marks: a wide line ending in
    an ASCII full stop loses its break, in both revisions. *)
Lemma C3_counterexample :
  ~ (forall (cfg : CodeTs.ProcessingConfig) (containerWidth fontSize : float)
       (lines : list Js.jsstring) (i : nat) (line : Js.jsstring),
       S i < length lines ->
       nth_error lines i = Some line ->
       Spec.endsWithAny Spec.sentenceFinalMarks (Js.trim line) = true ->
       nth_error
         (shouldBreakAfter
            (CodeTs.breakAfterLine cfg containerWidth fontSize) lines) i
       = Some true).
Proof.
  intros H.
  specialize (H CodeTs.DEFAULT_CONFIG 100%float 16%float
                Sample.latinSentenceLines 0 (Sample.latin 12 ++ [46%Z])
                (le_n 2) eq_refl eq_refl).
  vm_compute in H. discriminate H.
Qed.

Lemma part000_ascii_stop_is_joined :
  nth_error
    (shouldBreakAfter (Part000.breakAfterLine Sample.config000 100 16)
       Sample.latinSentenceLines) 0 = Some false
  /\ Part000.removeLineBreaksJapanesePriority Sample.config000
       (Sample.latin 12 ++ [46; 10]%Z ++ Sample.latin 9) 100 16 false
     = Sample.latin 12 ++ [46]%Z ++ Sample.latin 9.
Proof. split; vm_compute; reflexivity. Qed.

(** ** Blank lines *)

(** [0 / cw] is NaN when [cw] is a zero or NaN, and a zero otherwise *)
Lemma zero_div_cases (cw : float) :
  Prim2SF (0 / cw)
  = (if (cw =? 0)%float || is_nan cw then S754_nan
     else S754_zero (match Prim2SF cw with
                     | S754_infinity s | S754_finite s _ _ => s
                     | _ => false
                     end)).
Proof.
  unfold is_nan. rewrite div_spec, !eqb_spec. unfold SF64div, SFeqb.
  change (Prim2SF 0) with (S754_zero false).
  destruct (Prim2SF cw) as [s|s| |s m e]; cbn [SFdiv SFcompare];
    try reflexivity.
  - destruct s; reflexivity.
  - rewrite Z.compare_refl, Pos.compare_cont_refl. destruct s; reflexivity.
Qed.

(** a zero of either sign is below every positive threshold, and NaN is
    neither below nor at or above any *)
Lemma zero_below_positive (x thr : float) (s : bool) :
  Prim2SF x = S754_zero s -> (0 <? thr)%float = true ->
  (x <? thr)%float = true /\ (thr <=? x)%float = false.
Proof.
  intros Hx Hthr. rewrite ltb_spec in Hthr.
  change (Prim2SF 0) with (S754_zero false) in Hthr.
  rewrite ltb_spec, leb_spec, Hx. unfold SFltb, SFleb in *.
  destruct (Prim2SF thr) as [t|t| |t m e]; cbn [SFcompare] in *;
    try discriminate Hthr; destruct t; try discriminate Hthr;
    split; reflexivity.
Qed.

Lemma nan_compares_false (x thr : float) :
  Prim2SF x = S754_nan ->
  (x <? thr)%float = false /\ (thr <=? x)%float = false.
Proof.
  intros Hx. rewrite ltb_spec, leb_spec, Hx. unfold SFltb, SFleb.
  split; [reflexivity|]. destruct (Prim2SF thr); reflexivity.
Qed.

(** the flag of a blank line in src/code.ts: the break stays exactly when
    the container width is neither a zero nor NaN *)
Lemma blank_line_breaks_codeTs (cfg : CodeTs.ProcessingConfig)
    (containerWidth fontSize : float) (line : Js.jsstring) :
  Js.trim line = [] ->
  (0 <? CodeTs.lineBreakThreshold cfg)%float = true ->
  CodeTs.breakAfterLine cfg containerWidth fontSize line
  = negb ((containerWidth =? 0)%float || is_nan containerWidth).
Proof.
  intros Hblank Hthr. unfold CodeTs.breakAfterLine.
  rewrite Hblank. cbn [CodeTs.endsWithSentenceMark Js.lastChar].
  unfold CodeTs.estimateTextWidth. cbn [fold_left].
  pose proof (zero_div_cases containerWidth) as Hz.
  destruct ((containerWidth =? 0)%float || is_nan containerWidth).
  - now rewrite (proj1 (nan_compares_false _ _ Hz)).
  - now rewrite (proj1 (zero_below_positive _ _ _ Hz Hthr)).
Qed.

(** in part_000 the break after a blank line stays whatever the width *)
Lemma blank_line_breaks_part000 (cfg : Part000.ProcessingConfig)
    (containerWidth fontSize : float) (line : Js.jsstring) :
  Js.trim line = [] ->
  (0 <? Part000.lineBreakThreshold cfg)%float = true ->
  Part000.breakAfterLine cfg containerWidth fontSize line = true.
Proof.
  intros Hblank Hthr. unfold Part000.breakAfterLine.
  rewrite Hblank. cbn [Part000.endsWithSentenceMark Js.lastChar].
  unfold Part000.estimateTextWidth. cbn [fold_left].
  pose proof (zero_div_cases containerWidth) as Hz.
  destruct ((containerWidth =? 0)%float || is_nan containerWidth).
  - now rewrite (proj2 (nan_compares_false _ _ Hz)).
  - now rewrite (proj2 (zero_below_positive _ _ _ Hz Hthr)).
Qed.

(** the rejoin of a text falls apart at a line whose break stays *)
Lemma joinLines_split_at (f : Js.jsstring -> bool)
    (comb : Js.jsstring -> Js.jsstring -> Js.jsstring)
    (lines : list Js.jsstring) (i : nat) (line : Js.jsstring) :
  S i < length lines -> nth_error lines i = Some line -> f line = true ->
  joinLines f comb lines
  = joinLines f comb (firstn (S i) lines)
      ++ joinLines f comb (skipn (S i) lines).
Proof.
  intros Hi Hline Hf.
  assert (Hpost : skipn (S i) lines <> []).
  { intros E. apply (f_equal (@length _)) in E.
    rewrite length_skipn in E. simpl in E. lia. }
  assert (Hpre : firstn (S i) lines = firstn i lines ++ [line]).
  { rewrite <- (firstn_skipn_middle i lines Hline) at 1.
    assert (Hlen : length (firstn i lines) = i)
      by (rewrite length_firstn; lia).
    replace (S i) with (length (firstn i lines) + 1) at 1 by lia.
    now rewrite firstn_app_2. }
  rewrite Hpre.
  rewrite <- (joinLines_split f comb _ _ line Hpost Hf).
  rewrite <- app_assoc. cbn [app].
  now rewrite (firstn_skipn_middle i lines Hline).
Qed.

(** C10, amended: with a positive threshold, a line that is not the last
    and whose trimmed content is empty keeps its break in part_000
    whatever the container width is, and in src/code.ts exactly when the
    container width is neither 0 nor NaN (the ratio of the empty line is
    then a zero; for a width of 0 it is 0/0 = NaN, which is below
    nothing).  Where the break is kept, the output is the rejoin of the
    lines up to the blank line followed by the rejoin of the lines after
    it, so the blank line is not merged with the line that follows.  It
    can be absorbed by the line before it: a wide line, a blank line and
    a third line come out as two lines. *)
Theorem C10_blank_line_keeps_break
    (cfgA : CodeTs.ProcessingConfig) (cfgB : Part000.ProcessingConfig)
    (containerWidth fontSize : float)
    (lines : list Js.jsstring) (i : nat) (line : Js.jsstring)
    (Hi : S i < length lines)
    (Hline : nth_error lines i = Some line)
    (Hblank : Js.trim line = []) :
  ((0 <? CodeTs.lineBreakThreshold cfgA)%float = true ->
   let f := CodeTs.breakAfterLine cfgA containerWidth fontSize in
   nth_error (shouldBreakAfter f lines) i
   = Some (negb ((containerWidth =? 0)%float || is_nan containerWidth))
   /\ ((containerWidth =? 0)%float || is_nan containerWidth = false ->
       joinLines f CodeTs.combineLines lines
       = joinLines f CodeTs.combineLines (firstn (S i) lines)
           ++ joinLines f CodeTs.combineLines (skipn (S i) lines)))
  /\ ((0 <? Part000.lineBreakThreshold cfgB)%float = true ->
      let f := Part000.breakAfterLine cfgB containerWidth fontSize in
      nth_error (shouldBreakAfter f lines) i = Some true
      /\ joinLines f Part000.combineLines lines
         = joinLines f Part000.combineLines (firstn (S i) lines)
             ++ joinLines f Part000.combineLines (skipn (S i) lines))
  /\ CodeTs.removeLineBreaksJapanesePriority CodeTs.DEFAULT_CONFIG
       (Sample.hiragana 23 ++ [10; 10]%Z ++ Sample.hiragana 5) 400 16 false
     = Some (Sample.hiragana 23 ++ [10]%Z ++ Sample.hiragana 5)
  /\ Part000.removeLineBreaksJapanesePriority Sample.config000
       (Sample.hiragana 23 ++ [10; 10]%Z ++ Sample.hiragana 5) 400 16 false
     = Sample.hiragana 23 ++ [10]%Z ++ Sample.hiragana 5.
Proof.
  split; [|split; [|split; vm_compute; reflexivity]].
  - intros Hthr f.
    assert (Hf : f line
                 = negb ((containerWidth =? 0)%float
                         || is_nan containerWidth))
      by (apply blank_line_breaks_codeTs; assumption).
    split.
    + rewrite (shouldBreakAfter_inner f lines i line Hi Hline).
      now rewrite Hf.
    + intros Hwidth. rewrite Hwidth in Hf.
      now apply (joinLines_split_at f _ lines i line).
  - intros Hthr f.
    assert (Hf : f line = true)
      by (apply blank_line_breaks_part000; assumption).
    split.
    + rewrite (shouldBreakAfter_inner f lines i line Hi Hline).
      now rewrite Hf.
    + now apply (joinLines_split_at f _ lines i line).
Qed.

Lemma C10_witness :
  nth_error
    (shouldBreakAfter (CodeTs.breakAfterLine CodeTs.DEFAULT_CONFIG 400 16)
       [Sample.latin 3; [32%Z]; Sample.latin 4]) 1 = Some true
  /\ nth_error
       (shouldBreakAfter (Part000.breakAfterLine Sample.config000 400 16)
          [Sample.latin 3; [32%Z]; Sample.latin 4]) 1 = Some true.
Proof.
  destruct (C10_blank_line_keeps_break CodeTs.DEFAULT_CONFIG
              Sample.config000 400 16
              [Sample.latin 3; [32%Z]; Sample.latin 4] 1 [32%Z]
              (le_n 3) eq_refl eq_refl) as (HA & HB & _).
  split.
  - exact (proj1 (HA eq_refl)).
  - exact (proj1 (HB eq_refl)).
Defined.

(** The claim C10 as stated fails on src/code.ts: the threshold is
    positive, the second of three lines is blank, and with a container
    width of 0 it does not keep its break; the three lines come out as
    one.  part_000 keeps the break after the blank line there. *)
Lemma C10_counterexample :
  (0 <? CodeTs.lineBreakThreshold CodeTs.DEFAULT_CONFIG)%float = true
  /\ Js.trim [32%Z] = []
  /\ is_nan (CodeTs.estimateTextWidth CodeTs.DEFAULT_CONFIG [] 16 / 0) = true
  /\ nth_error
       (shouldBreakAfter (CodeTs.breakAfterLine CodeTs.DEFAULT_CONFIG 0 16)
          [Sample.latin 3; [32%Z]; Sample.latin 4]) 1 = Some false
  /\ CodeTs.removeLineBreaksJapanesePriority CodeTs.DEFAULT_CONFIG
       (Sample.latin 3 ++ [10; 32; 10]%Z ++ Sample.latin 4) 0 16 true
     = Some (Sample.latin 3 ++ [32%Z] ++ Sample.latin 4)
  /\ Part000.removeLineBreaksJapanesePriority Sample.config000
       (Sample.latin 3 ++ [10; 32; 10]%Z ++ Sample.latin 4) 0 16 true
     = Sample.latin 3 ++ [10%Z] ++ Sample.latin 4.
Proof. repeat split; vm_compute; reflexivity. Qed.

(** ** combineLines *)

Lemma isJapanese_isCJK (char : option Z) :
  CodeTs.isJapanese char = true -> Spec.isCJK char = true.
Proof.
  destruct char as [c|]; [|discriminate]. simpl.
  unfold CodeTs.isFullWidthCharacter. intros H.
  apply orb_true_iff. left. apply orb_true_iff. left. exact H.
Qed.

(** C4, amended: after right-trimming [a] and left-trimming [b],
    src/code.ts and src/src/textProcessor.js concatenate the parts as they
    are when either is empty, concatenate them with no separator when the
    last code unit of [a] and the first of [b] are both Japanese letters
    (Hiragana, Katakana, CJK Unified Ideographs, Extension A: four of the
    six full-width ranges), and insert exactly one space otherwise;
    part_000 inserts the space only between two ASCII letters or digits. *)
Theorem C4_combineLines_cases (a b : Js.jsstring) :
  let a' := Js.trimEnd a in
  let b' := Js.trimStart b in
  let japanese :=
    CodeTs.isJapanese (Js.lastChar a') && CodeTs.isJapanese (Js.firstChar b') in
  (a' = [] \/ b' = [] ->
   CodeTs.combineLines a b = a' ++ b'
   /\ SrcDir.combineLines a b = a' ++ b'
   /\ Part000.combineLines a b = a' ++ b')
  /\ (a' <> [] -> b' <> [] -> japanese = true ->
      CodeTs.combineLines a b = a' ++ b'
      /\ SrcDir.combineLines a b = a' ++ b'
      /\ Spec.combineLines a b = a' ++ b')
  /\ (a' <> [] -> b' <> [] -> japanese = false ->
      CodeTs.combineLines a b = a' ++ [Js.SPACE] ++ b'
      /\ SrcDir.combineLines a b = a' ++ [Js.SPACE] ++ b')
  /\ (a' <> [] -> b' <> [] ->
      Part000.combineLines a b
      = if Part000.isAlphanumeric (Js.lastChar a')
           && Part000.isAlphanumeric (Js.firstChar b')
        then a' ++ [Js.SPACE] ++ b' else a' ++ b').
Proof.
  cbv zeta.
  unfold CodeTs.combineLines, SrcDir.combineLines, Part000.combineLines,
    Spec.combineLines.
  generalize (Js.trimEnd a) (Js.trimStart b). clear a b. intros a' b'.
  split; [|split; [|split]].
  - intros [->| ->].
    + destruct b'; repeat split.
    + destruct a' as [|x a'']; cbn [Js.isEmpty orb negb andb Js.firstChar];
        rewrite ?andb_false_r; repeat split.
  - intros Ha Hb Hj. rewrite Hj.
    destruct a' as [|x a'']; [congruence|].
    destruct b' as [|y b'']; [congruence|].
    cbn [Js.isEmpty orb].
    apply andb_prop in Hj as [H1 H2].
    rewrite (isJapanese_isCJK _ H1), (isJapanese_isCJK _ H2).
    repeat split.
  - intros Ha Hb Hj. rewrite Hj.
    destruct a' as [|x a'']; [congruence|].
    destruct b' as [|y b'']; [congruence|].
    repeat split.
  - intros Ha Hb.
    destruct a' as [|x a'']; [congruence|].
    destruct b' as [|y b'']; [congruence|].
    reflexivity.
Qed.

Lemma C4_witness :
  CodeTs.combineLines [0x3042; 32]%Z [32; 0x3044]%Z = [0x3042; 0x3044]%Z
  /\ CodeTs.combineLines [97; 32]%Z [32; 0x3044]%Z = [97; 32; 0x3044]%Z
  /\ CodeTs.combineLines [32]%Z [32; 0x3044]%Z = [0x3044]%Z.
Proof.
  split; [|split].
  - exact (proj1 (proj1 (proj2 (C4_combineLines_cases
             [0x3042; 32]%Z [32; 0x3044]%Z))
           ltac:(discriminate) ltac:(discriminate) eq_refl)).
  - exact (proj1 (proj1 (proj2 (proj2 (C4_combineLines_cases
             [97; 32]%Z [32; 0x3044]%Z)))
           ltac:(discriminate) ltac:(discriminate) eq_refl)).
  - exact (proj1 (proj1 (C4_combineLines_cases [32]%Z [32; 0x3044]%Z)
                    (or_introl eq_refl))).
Defined.

(** The claim C4 as stated fails: the ideographic full stop 。 is in the
    full-width ranges, yet src/code.ts puts a space between it and a
    following Hiragana letter. *)
Lemma C4_counterexample :
  Spec.isCJK (Js.lastChar [0x3042; 0x3002]%Z) = true
  /\ Spec.isCJK (Js.firstChar [0x3044]%Z) = true
  /\ CodeTs.combineLines [0x3042; 0x3002]%Z [0x3044]%Z
     = [0x3042; 0x3002; 32; 0x3044]%Z
  /\ CodeTs.combineLines [0x3042; 0x3002]%Z [0x3044]%Z
     <> Spec.combineLines [0x3042; 0x3002]%Z [0x3044]%Z.
Proof. repeat split; vm_compute; congruence. Qed.

(** part_000 departs from the wording the other way: no space between a
    comma and a letter. *)
Lemma part000_comma_gets_no_space :
  Part000.combineLines [97; 44]%Z [98]%Z = [97; 44; 98]%Z
  /\ Spec.combineLines [97; 44]%Z [98]%Z = [97; 44; 32; 98]%Z.
Proof. split; reflexivity. Qed.

(** ** Soft-break conversion *)

(** what the conversion does to one code unit when every configured soft
    break is a literal pattern *)
Lemma convert_literal_map (S : list Z) (text : Js.jsstring) :
  forallb isLiteralPattern S = true ->
  convertSoftBreaksToHard S text
  = Some (map (fun x =>
                 fold_left (fun y c => if (y =? c)%Z then Js.LF else y) S x)
              text).
Proof.
  revert text. induction S as [|c S IH]; intros text H; simpl.
  - now rewrite map_id.
  - apply andb_prop in H as [Hc HS]. unfold isLiteralPattern in Hc.
    destruct (compilePattern c) as [[d| | | |]|] eqn:E; try discriminate.
    assert (d = c).
    { unfold compilePattern in E.
      repeat match type of E with
             | (if ?x then _ else _) = _ => destruct x; try discriminate
             end.
      congruence. }
    subst d. rewrite IH by exact HS. simpl. now rewrite map_map.
Qed.

Lemma replace_chain_cases (S : list Z) (x : Z) :
  let g := fold_left (fun y c => if (y =? c)%Z then Js.LF else y) S in
  g x = x \/ g x = Js.LF.
Proof.
  revert x. induction S as [|c S IH]; intros x; simpl; [now left|].
  destruct (x =? c)%Z.
  - right. destruct (IH Js.LF) as [H|H]; exact H.
  - apply IH.
Qed.

Lemma replace_chain_idem (S : list Z) (x : Z) :
  let g := fold_left (fun y c => if (y =? c)%Z then Js.LF else y) S in
  g (g x) = g x.
Proof.
  intros g. destruct (replace_chain_cases S x) as [H|H]; fold g in H.
  - now rewrite H.
  - rewrite H. destruct (replace_chain_cases S Js.LF) as [H'|H'];
      fold g in H'; exact H'.
Qed.

(** The conversion is idempotent when no configured soft break is a
    pattern character of regular expressions. *)
Lemma convert_idempotent_literal (S : list Z) (t : Js.jsstring) :
  forallb isLiteralPattern S = true ->
  exists t', convertSoftBreaksToHard S t = Some t'
             /\ convertSoftBreaksToHard S t' = Some t'.
Proof.
  intros H. eexists. split; [apply (convert_literal_map S t H)|].
  rewrite (convert_literal_map S _ H), map_map. f_equal.
  apply map_ext. intros x. apply replace_chain_idem.
Qed.

(** C5 at the failing input: with the soft break [^], which the function
    hands to [RegExp] unescaped, every conversion puts one more hard break
    in front of the text, so converting twice differs from converting once;
    the detector's [countSoftBreaks] escapes the same value and counts the
    literal character. *)
Theorem C5_convert_not_idempotent_on_caret :
  convertSoftBreaksToHard [94%Z] [97%Z] = Some [10; 97]%Z
  /\ convertSoftBreaksToHard [94%Z] [10; 97]%Z = Some [10; 10; 97]%Z
  /\ convertSoftBreaksToHard [94%Z] [97; 94; 98]%Z
     = Some [10; 97; 94; 98]%Z
  /\ CodeTs.countSoftBreaks Sample.caretConfig [97; 94; 98]%Z = 1.
Proof. repeat split. Qed.

(** ** Auto-width detection *)

Lemma splitOn_length (p : Z -> bool) (s : Js.jsstring) :
  length (Js.splitOn p s) = S (length (filter p s)).
Proof.
  induction s as [|c s IH]; [reflexivity|].
  cbn [Js.splitOn filter]. destruct (p c).
  - cbn [length]. now rewrite IH.
  - destruct (Js.splitOn p s) as [|l ls]; [discriminate IH|exact IH].
Qed.

Lemma filter_lt_seq (n : nat) :
  filter (fun lineNum => lineNum <? n)
    (map (fun index => index + 1) (seq 0 n))
  = seq 1 (n - 1).
Proof.
  destruct n as [|n]; [reflexivity|].
  replace (S n - 1) with n by lia.
  replace (map (fun index => index + 1) (seq 0 (S n))) with (seq 1 (S n)).
  2:{ rewrite <- seq_shift. apply map_ext. intros; lia. }
  rewrite seq_S, filter_app. cbn [filter].
  replace (1 + n <? S n) with false by (symmetry; apply Nat.ltb_ge; lia).
  rewrite app_nil_r.
  apply forallb_filter_id. apply forallb_forall. intros x Hx.
  apply in_seq in Hx. apply Nat.ltb_lt. lia.
Qed.

(** [getLineNumbers] numbers the lines that are followed by a match of the
    break pattern *)
Lemma getLineNumbers_compiled (cfg : CodeTs.ProcessingConfig)
    (text : Js.jsstring) :
  CodeTs.getLineNumbers cfg text
  = option_map (fun matches => seq 1 (length (filter matches text)))
      (CodeTs.breakPattern cfg).
Proof.
  unfold CodeTs.getLineNumbers.
  destruct (CodeTs.breakPattern cfg) as [matches|]; [|reflexivity].
  cbn [option_map]. cbv zeta.
  rewrite filter_lt_seq, splitOn_length. cbn [Nat.sub].
  now rewrite Nat.sub_0_r.
Qed.

(** C6, amended: src/src/textAnalyzer.ts emits one auto-width issue with
    confidence 0.9 exactly when the mode is WIDTH_AND_HEIGHT and the text
    contains a hard break; part_000 emits under the same condition an issue
    that carries no confidence; src/code.ts emits the issue with
    confidence 0.9 exactly when the text contains a hard break, the mode
    is NONE, HEIGHT or WIDTH_AND_HEIGHT and the break pattern compiles (the
    issue names the lines followed by a match of the pattern; when the
    pattern does not compile, the error is caught and no issue is
    emitted); with soft breaks that make no range the pattern compiles
    and matches the hard break and the soft breaks. *)
Theorem C6_auto_width_detection
    (cfg : CodeTs.ProcessingConfig) (node : TextNode) :
  let expectedByCode :=
    (match textAutoResize node with TRUNCATE => false | _ => true end)
    && existsb (Z.eqb Js.LF) (characters node) in
  SrcDir.detectAutoWidthIssues node
  = (if Spec.autoWidthExpected node
     then [ CodeTs.mkIssue AutoWidth 0.9
              (SrcDir.getLineNumbers (characters node)) ]
     else [])
  /\ Part000.detectAutoWidthIssues node
     = (if Spec.autoWidthExpected node then [ Part000.mkIssue AutoWidth ]
        else [])
  /\ CodeTs.detectAutoWidthIssues cfg node
     = match CodeTs.breakPattern cfg with
       | Some matches =>
           if expectedByCode
           then [ CodeTs.mkIssue AutoWidth 0.9
                    (seq 1 (length (filter matches (characters node)))) ]
           else []
       | None => []
       end
  /\ (CodeTs.detectAutoWidthIssues cfg node <> []
      <-> expectedByCode = true /\ CodeTs.breakPattern cfg <> None)
  /\ (formsNoRange (CodeTs.softBreakChars cfg) = true ->
      CodeTs.detectAutoWidthIssues cfg node
      = if expectedByCode
        then [ CodeTs.mkIssue AutoWidth 0.9
                 (seq 1 (length
                           (filter
                              (Spec.breakMatcher (CodeTs.softBreakChars cfg))
                              (characters node)))) ]
        else []).
Proof.
  cbv zeta.
  assert (Hcode : CodeTs.detectAutoWidthIssues cfg node
                  = match CodeTs.breakPattern cfg with
                    | Some matches =>
                        if (match textAutoResize node with
                            | TRUNCATE => false
                            | _ => true
                            end)
                           && existsb (Z.eqb Js.LF) (characters node)
                        then [ CodeTs.mkIssue AutoWidth 0.9
                                 (seq 1 (length (filter matches
                                                   (characters node)))) ]
                        else []
                    | None => []
                    end).
  { unfold CodeTs.detectAutoWidthIssues, CodeTs.containsHardBreak.
    cbv zeta. rewrite getLineNumbers_compiled.
    destruct (CodeTs.breakPattern cfg) as [matches|]; cbn [option_map];
      destruct (textAutoResize node); cbn [AutoResize_eqb orb andb];
      try reflexivity;
      destruct (existsb (Z.eqb Js.LF) (characters node)); reflexivity. }
  split; [|split; [|split; [exact Hcode|split]]].
  - unfold SrcDir.detectAutoWidthIssues, Spec.autoWidthExpected,
      CodeTs.containsHardBreak. reflexivity.
  - unfold Part000.detectAutoWidthIssues, Spec.autoWidthExpected,
      Part000.containsHardBreak. reflexivity.
  - rewrite Hcode.
    destruct (CodeTs.breakPattern cfg) as [matches|].
    + destruct (_ && _).
      * split; [intros _; split; [reflexivity|discriminate]|discriminate].
      * split; [congruence|]. intros [H _]. discriminate H.
    + split; [congruence|]. intros [_ H]. congruence.
  - intros Hclass. rewrite Hcode.
    destruct (compileBreakClass_formsNoRange _ Hclass)
      as (matches & Hm & Hmem).
    unfold CodeTs.breakPattern. rewrite Hm.
    destruct (_ && _); [|reflexivity].
    now rewrite (filter_ext _ _ Hmem).
Qed.

(** an auto-width block with a hard break, with the default soft break *)
Lemma C6_witness :
  CodeTs.detectAutoWidthIssues CodeTs.DEFAULT_CONFIG Sample.autoWidthNode
  = [ CodeTs.mkIssue AutoWidth 0.9 [1] ]
  /\ SrcDir.detectAutoWidthIssues Sample.autoWidthNode
     = [ CodeTs.mkIssue AutoWidth 0.9 [1] ].
Proof.
  destruct (C6_auto_width_detection CodeTs.DEFAULT_CONFIG
              Sample.autoWidthNode) as (Hsrc & _ & _ & _ & Hcode).
  split.
  - rewrite (Hcode eq_refl). reflexivity.
  - rewrite Hsrc. reflexivity.
Defined.

(** The claim C6 as stated fails on src/code.ts: an auto-height block with
    a hard break gets an auto-width issue of confidence 0.9. *)
Lemma C6_counterexample :
  textAutoResize Sample.autoHeightNode = HEIGHT
  /\ Spec.autoWidthExpected Sample.autoHeightNode = false
  /\ CodeTs.detectAutoWidthIssues CodeTs.DEFAULT_CONFIG Sample.autoHeightNode
     = [ CodeTs.mkIssue AutoWidth 0.9 [1] ].
Proof. repeat split. Qed.

(** with a hyphen and a tabulator as soft breaks the pattern does not
    compile, the detection catches the error and reports nothing *)
Example auto_width_issue_lost_with_pattern :
  CodeTs.breakPattern Sample.hyphenTabConfig = None
  /\ CodeTs.detectAutoWidthIssues Sample.hyphenTabConfig
       Sample.autoHeightNode = [].
Proof. split; reflexivity. Qed.

(** ** Word wrap *)

Lemma dropWhile_nil_forallb (p : Z -> bool) (s : Js.jsstring) :
  Js.dropWhile p s = [] -> forallb p s = true.
Proof.
  induction s as [|c s IH]; [reflexivity|]. simpl.
  destruct (p c); [exact IH|discriminate].
Qed.

Lemma dropWhile_head (p : Z -> bool) (s : Js.jsstring) (c : Z)
    (r : Js.jsstring) :
  Js.dropWhile p s = c :: r -> p c = false.
Proof.
  induction s as [|d s IH]; [discriminate|]. simpl.
  destruct (p d) eqn:E; [exact IH|].
  intros H. injection H as <- _. exact E.
Qed.

Lemma trim_whitespace_only (p : Js.jsstring) :
  forallb Js.isWhiteSpace p = true -> Js.trim p = [].
Proof.
  intros H. unfold Js.trim, Js.trimStart.
  assert (E : Js.dropWhile Js.isWhiteSpace p = []).
  { induction p as [|c p IH]; [reflexivity|].
    simpl in *. apply andb_prop in H as [Hc Hp]. rewrite Hc. now apply IH. }
  now rewrite E.
Qed.

(** [paragraph.trim() === ''] says that the paragraph is white space
    only *)
Lemma trim_empty_iff (p : Js.jsstring) :
  Js.isEmpty (Js.trim p) = forallb Js.isWhiteSpace p.
Proof.
  destruct (forallb Js.isWhiteSpace p) eqn:E.
  - now rewrite (trim_whitespace_only p E).
  - destruct (Js.trim p) as [|c t] eqn:Et; [|reflexivity].
    exfalso. unfold Js.trim, Js.trimEnd, Js.trimStart in Et.
    apply (f_equal (@rev Z)) in Et. rewrite rev_involutive in Et.
    cbn [rev] in Et. apply dropWhile_nil_forallb in Et.
    destruct (Js.dropWhile Js.isWhiteSpace p) as [|d q] eqn:Eq.
    + apply dropWhile_nil_forallb in Eq. congruence.
    + apply dropWhile_head in Eq. rewrite forallb_forall in Et.
      assert (Hd : In d (rev (d :: q)))
        by (apply (proj1 (in_rev (d :: q) d)); left; reflexivity).
      specialize (Et d Hd). congruence.
Qed.

Section WordWrapFacts.

Variable est : Js.jsstring -> float -> float.
Variable containerWidth fontSize' : float.

Let step := wrapStep est containerWidth fontSize'.
Let paragraph := wrapParagraph est containerWidth fontSize'.

Lemma fold_wrapStep_acc (words : list Js.jsstring)
    (lines : list Js.jsstring) (cur : Js.jsstring) :
  fold_left step words (lines, cur)
  = (lines ++ fst (fold_left step words ([], cur)),
     snd (fold_left step words ([], cur))).
Proof.
  revert lines cur. induction words as [|w words IH]; intros lines cur.
  - simpl. now rewrite app_nil_r.
  - cbn [fold_left]. unfold step at 2 4 6. unfold wrapStep.
    destruct (_ || _).
    + apply IH.
    + rewrite (IH (lines ++ [cur])), (IH ([] ++ [cur])).
      cbn [fst snd]. now rewrite <- app_assoc.
Qed.

Lemma flush_acc (lines : list Js.jsstring)
    (st : list Js.jsstring * Js.jsstring) :
  (let '(lines', currentLine) := (lines ++ fst st, snd st) in
   if negb (Js.isEmpty currentLine) then lines' ++ [currentLine]
   else lines')
  = lines ++ (let '(lines', currentLine) := st in
              if negb (Js.isEmpty currentLine) then lines' ++ [currentLine]
              else lines').
Proof.
  destruct st as [ls cur]. cbn [fst snd].
  destruct (negb (Js.isEmpty cur)); [|reflexivity].
  symmetry. apply app_assoc.
Qed.

Lemma wrapParagraph_acc (lines : list Js.jsstring) (p : Js.jsstring) :
  paragraph lines p = lines ++ paragraph [] p.
Proof.
  unfold paragraph, wrapParagraph.
  destruct (Js.isEmpty (Js.trim p)); [reflexivity|].
  assert (H := fold_wrapStep_acc (Js.splitWs p) lines []).
  unfold step in H. cbv zeta. unfold Js.jsstring in *.
  rewrite H. exact (flush_acc lines _).
Qed.

Lemma fold_wrapParagraph (ps : list Js.jsstring)
    (acc : list Js.jsstring) :
  fold_left paragraph ps acc = acc ++ flat_map (paragraph []) ps.
Proof.
  revert acc. induction ps as [|p ps IH]; intros acc; simpl.
  - now rewrite app_nil_r.
  - rewrite IH, (wrapParagraph_acc acc p). now rewrite <- app_assoc.
Qed.

(** the loop over the tokens, with the flush after it, is the greedy
    accumulation *)
Lemma fold_wrapStep_greedy (words : list Js.jsstring) :
  forall (lines : list Js.jsstring) (cur : Js.jsstring)
         (lines' : list Js.jsstring) (cur' : Js.jsstring),
  fold_left step words (lines, cur) = (lines', cur') ->
  (if negb (Js.isEmpty cur') then lines' ++ [cur'] else lines')
  = lines ++ Spec.greedyLines est containerWidth fontSize' words cur.
Proof.
  induction words as [|w words IH]; intros lines cur lines' cur' H.
  - cbn [fold_left] in H. injection H as <- <-. cbn [Spec.greedyLines].
    destruct cur; cbn [Js.isEmpty negb]; [now rewrite app_nil_r|reflexivity].
  - cbn [fold_left] in H. cbn [Spec.greedyLines].
    unfold step at 2 in H. unfold wrapStep in H.
    destruct (est (cur ++ w) fontSize' <=? containerWidth)%float.
    + cbn [orb] in H. exact (IH _ _ _ _ H).
    + cbn [orb] in H. destruct cur as [|c cur].
      * cbn [Js.isEmpty app] in H. exact (IH _ _ _ _ H).
      * cbn [Js.isEmpty] in H. rewrite (IH _ _ _ _ H).
        now rewrite <- app_assoc.
Qed.

Lemma wrapParagraph_greedy (lines : list Js.jsstring) (p : Js.jsstring) :
  paragraph lines p
  = lines ++ Spec.paragraphLines est containerWidth fontSize' p.
Proof.
  unfold paragraph, wrapParagraph, Spec.paragraphLines.
  rewrite trim_empty_iff.
  destruct (forallb Js.isWhiteSpace p); [reflexivity|]. cbv zeta.
  fold step.
  destruct (fold_left step (Js.splitWs p) (lines, [])) as [lines' cur']
    eqn:E.
  exact (fold_wrapStep_greedy _ _ _ _ _ E).
Qed.

Lemma simulateWordWrap_greedy (bp : option (Z -> bool))
    (text : Js.jsstring) :
  simulateWordWrap est bp containerWidth fontSize' text
  = option_map
      (fun matches =>
         Spec.simulate est matches containerWidth fontSize' text) bp.
Proof.
  unfold simulateWordWrap. destruct bp as [matches|]; [|reflexivity].
  cbn [option_map]. cbv zeta. f_equal. fold paragraph.
  rewrite fold_wrapParagraph. cbn [app]. unfold Spec.simulate.
  apply flat_map_ext. intros p.
  now rewrite (wrapParagraph_greedy [] p).
Qed.

Lemma tokens_word (w : Js.jsstring) :
  forallb (fun c => negb (Js.isWhiteSpace c)) w = true ->
  Js.tokens false w = [w].
Proof.
  induction w as [|c w IH]; intros H; [reflexivity|].
  simpl in H. apply andb_prop in H as [Hc Hw].
  apply negb_true_iff in Hc. cbn [Js.tokens]. rewrite Hc.
  now rewrite (IH Hw).
Qed.

Lemma dropWhile_head_false (p : Z -> bool) (c : Z) (s : Js.jsstring) :
  p c = false -> Js.dropWhile p (c :: s) = c :: s.
Proof. intros H. simpl. now rewrite H. Qed.

Lemma trim_word (w : Js.jsstring) :
  forallb (fun c => negb (Js.isWhiteSpace c)) w = true -> Js.trim w = w.
Proof.
  intros H. unfold Js.trim, Js.trimStart, Js.trimEnd.
  assert (Hall : forall c, In c w -> Js.isWhiteSpace c = false).
  { intros c Hc. rewrite forallb_forall in H.
    now apply negb_true_iff, H. }
  assert (E1 : Js.dropWhile Js.isWhiteSpace w = w).
  { destruct w as [|c w']; [reflexivity|].
    apply dropWhile_head_false, Hall. now left. }
  rewrite E1.
  assert (E2 : Js.dropWhile Js.isWhiteSpace (rev w) = rev w).
  { destruct (rev w) as [|c r] eqn:E; [reflexivity|].
    apply dropWhile_head_false, Hall, in_rev. rewrite E. now left. }
  now rewrite E2, rev_involutive.
Qed.

Lemma wrapParagraph_word (w : Js.jsstring) :
  w <> [] ->
  forallb (fun c => negb (Js.isWhiteSpace c)) w = true ->
  paragraph [] w = [w].
Proof.
  intros Hne Hw. unfold paragraph, wrapParagraph.
  rewrite (trim_word w Hw).
  destruct w as [|c w']; [congruence|]. cbn [Js.isEmpty].
  unfold Js.splitWs. rewrite (tokens_word _ Hw).
  cbn [fold_left wrapStep Js.isEmpty app]. rewrite orb_true_r.
  reflexivity.
Qed.

Lemma splitOn_no_break (bp : Z -> bool) (w : Js.jsstring) :
  forallb (fun c => negb (bp c)) w = true -> Js.splitOn bp w = [w].
Proof.
  induction w as [|c w IH]; intros H; [reflexivity|].
  simpl in H. apply andb_prop in H as [Hc Hw].
  apply negb_true_iff in Hc. simpl. now rewrite Hc, (IH Hw).
Qed.

Lemma simulateWordWrap_word (bp : Z -> bool) (w : Js.jsstring) :
  w <> [] ->
  forallb (fun c => negb (Js.isWhiteSpace c)) w = true ->
  forallb (fun c => negb (bp c)) w = true ->
  simulateWordWrap est (Some bp) containerWidth fontSize' w = Some [w].
Proof.
  intros Hne Hw Hb. unfold simulateWordWrap. cbv zeta.
  rewrite (splitOn_no_break bp w Hb). cbn [fold_left]. fold paragraph.
  now rewrite (wrapParagraph_word w Hne Hw).
Qed.

End WordWrapFacts.

(** C7: in both revisions the simulation is the greedy wrap that the
    specification words.  The text is split at the matches of the break
    pattern (the call throws when the pattern does not compile; with soft
    breaks that make no range it matches the hard break and the soft
    breaks), and every piece gives its lines: a whitespace-only paragraph
    exactly one empty line; otherwise the tokens are gone through, a
    token being appended to the current line exactly when the estimated
    width of the line with the token is at most the container width or
    the current line is empty, and otherwise the current line is flushed
    and the token starts the next line; a line with something on it is
    flushed at the end.  So a paragraph that is a single word gives
    exactly one line, the word, even when it is wider than the
    container. *)
Theorem C7_word_wrap_is_greedy
    (cfgA : CodeTs.ProcessingConfig) (cfgB : Part000.ProcessingConfig)
    (containerWidth fontSize : float) :
  (* the loop over a paragraph *)
  (forall est lines paragraph,
     wrapParagraph est containerWidth fontSize lines paragraph
     = lines ++ Spec.paragraphLines est containerWidth fontSize paragraph)
  (* the whole text *)
  /\ (forall text,
        CodeTs.simulateWordWrap cfgA text containerWidth fontSize
        = option_map
            (fun matches =>
               Spec.simulate (CodeTs.estimateTextWidth cfgA) matches
                 containerWidth fontSize text)
            (CodeTs.breakPattern cfgA))
  /\ (forall text,
        Part000.simulateWordWrap cfgB text containerWidth fontSize
        = option_map
            (fun matches =>
               Spec.simulate (Part000.estimateTextWidth cfgB) matches
                 containerWidth fontSize text)
            (Part000.getBreakPattern (Part000.softBreakChars cfgB)))
  /\ (formsNoRange (CodeTs.softBreakChars cfgA) = true ->
      forall text,
        CodeTs.simulateWordWrap cfgA text containerWidth fontSize
        = Some (Spec.simulate (CodeTs.estimateTextWidth cfgA)
                  (Spec.breakMatcher (CodeTs.softBreakChars cfgA))
                  containerWidth fontSize text))
  /\ (formsNoRange (Part000.softBreakChars cfgB) = true ->
      forall text,
        Part000.simulateWordWrap cfgB text containerWidth fontSize
        = Some (Spec.simulate (Part000.estimateTextWidth cfgB)
                  (Spec.breakMatcher (Part000.softBreakChars cfgB))
                  containerWidth fontSize text))
  (* one token *)
  /\ (forall est lines currentLine token,
        ((est (currentLine ++ token) fontSize <=? containerWidth)%float
         = true \/ currentLine = [] ->
         wrapStep est containerWidth fontSize (lines, currentLine) token
         = (lines, currentLine ++ token))
        /\ ((est (currentLine ++ token) fontSize <=? containerWidth)%float
            = false -> currentLine <> [] ->
            wrapStep est containerWidth fontSize (lines, currentLine) token
            = (lines ++ [currentLine], token)))
  (* a whitespace-only paragraph, and a paragraph that is one word *)
  /\ (forall est lines paragraph,
        forallb Js.isWhiteSpace paragraph = true ->
        wrapParagraph est containerWidth fontSize lines paragraph
        = lines ++ [[]])
  /\ (forall est lines word,
        word <> [] ->
        forallb (fun c => negb (Js.isWhiteSpace c)) word = true ->
        wrapParagraph est containerWidth fontSize lines word
        = lines ++ [word])
  /\ (forall matches word,
        word <> [] ->
        forallb (fun c => negb (Js.isWhiteSpace c)) word = true ->
        forallb (fun c => negb (matches c)) word = true ->
        (CodeTs.breakPattern cfgA = Some matches ->
         CodeTs.simulateWordWrap cfgA word containerWidth fontSize
         = Some [word])
        /\ (Part000.getBreakPattern (Part000.softBreakChars cfgB)
            = Some matches ->
            Part000.simulateWordWrap cfgB word containerWidth fontSize
            = Some [word])).
Proof.
  split; [intros; apply wrapParagraph_greedy|].
  split; [intros; apply simulateWordWrap_greedy|].
  split; [intros; apply simulateWordWrap_greedy|].
  split; [|split; [|split; [|split; [|split]]]].
  - intros Hclass text.
    destruct (compileBreakClass_formsNoRange _ Hclass)
      as (matches & Hm & Hmem).
    unfold CodeTs.simulateWordWrap. rewrite simulateWordWrap_greedy.
    unfold CodeTs.breakPattern. rewrite Hm. cbn [option_map].
    unfold Spec.simulate. f_equal. f_equal.
    apply splitOn_ext. intros c _. apply Hmem.
  - intros Hclass text.
    destruct (compileBreakClass_formsNoRange _ Hclass)
      as (matches & Hm & Hmem).
    unfold Part000.simulateWordWrap. rewrite simulateWordWrap_greedy.
    unfold Part000.getBreakPattern. rewrite Hm. cbn [option_map].
    unfold Spec.simulate. f_equal. f_equal.
    apply splitOn_ext. intros c _. apply Hmem.
  - intros est lines cur tok. unfold wrapStep. split.
    + intros [H| ->]; [now rewrite H|]. now rewrite orb_true_r.
    + intros H Hne. rewrite H. destruct cur; [congruence|reflexivity].
  - intros est lines p Hp. unfold wrapParagraph.
    now rewrite (trim_whitespace_only p Hp).
  - intros est lines word Hne Hw. rewrite wrapParagraph_acc.
    now rewrite (wrapParagraph_word est containerWidth fontSize word Hne Hw).
  - intros matches word Hne Hw Hb. split; intros Hm.
    + unfold CodeTs.simulateWordWrap. rewrite Hm.
      now apply simulateWordWrap_word.
    + unfold Part000.simulateWordWrap. rewrite Hm.
      now apply simulateWordWrap_word.
Qed.

(** two words that do not fit on one line, a blank paragraph and a third
    word, in a container of 20 at font size 16; and a word of 40 letters,
    320 wide, in a container of 100 *)
Lemma C7_witness :
  CodeTs.simulateWordWrap CodeTs.DEFAULT_CONFIG
    [97; 97; 32; 98; 98; 10; 32; 10; 99]%Z 20 16
  = Some [[97; 97]; [32]; [98; 98]; []; [99]]%Z
  /\ (CodeTs.estimateTextWidth CodeTs.DEFAULT_CONFIG (Sample.latin 40) 16
      <=? 100)%float = false
  /\ CodeTs.simulateWordWrap CodeTs.DEFAULT_CONFIG (Sample.latin 40) 100 16
     = Some [Sample.latin 40].
Proof.
  destruct (C7_word_wrap_is_greedy CodeTs.DEFAULT_CONFIG Sample.config000
              20 16) as (_ & _ & _ & Hsim & _).
  destruct (C7_word_wrap_is_greedy CodeTs.DEFAULT_CONFIG Sample.config000
              100 16) as (_ & _ & _ & Hwide & _).
  split; [|split].
  - rewrite (Hsim eq_refl). vm_compute. reflexivity.
  - reflexivity.
  - rewrite (Hwide eq_refl). vm_compute. reflexivity.
Defined.

(** ** Change synthesis *)

Lemma insertIssue_In (a x : CodeTs.DetectedIssue)
    (l : list CodeTs.DetectedIssue) :
  In x (CodeTs.insertIssue a l) <-> x = a \/ In x l.
Proof.
  induction l as [|b l IH]; simpl.
  - intuition congruence.
  - destruct (_ <? _)%float; simpl; rewrite ?IH; intuition congruence.
Qed.

Lemma sortIssues_In (x : CodeTs.DetectedIssue)
    (l : list CodeTs.DetectedIssue) :
  In x (CodeTs.sortIssues l) <-> In x l.
Proof.
  induction l as [|a l IH]; simpl; [tauto|].
  rewrite insertIssue_In, IH. intuition congruence.
Qed.

Lemma convert_compiles (S : list Z) (text : Js.jsstring) :
  (forall c, In c S -> compilePattern c <> None) ->
  convertSoftBreaksToHard S text <> None.
Proof.
  revert text. induction S as [|c S IH]; intros text H; simpl;
    [discriminate|].
  destruct (compilePattern c) eqn:E.
  - apply IH. intros d Hd. apply H. now right.
  - exfalso. apply (H c); [now left|exact E].
Qed.

Lemma autoWidth_dec {I : Type} (ty : I -> DetectionType) (l : list I) :
  (exists i, In i l /\ ty i = AutoWidth)
  \/ (forall i, In i l -> ty i <> AutoWidth).
Proof.
  induction l as [|x l [(i & Hi & Hty)|Hno]].
  - right. intros i [].
  - left. exists i. split; [now right|exact Hty].
  - destruct (ty x) eqn:E.
    + left. exists x. split; [now left|exact E].
    + right. intros i [<-|Hi]; [congruence|now apply Hno].
    + right. intros i [<-|Hi]; [congruence|now apply Hno].
Qed.

(** The loop over the issues: the resize mode becomes HEIGHT at an
    auto-width issue and is left alone by the others.  The two revisions
    have the same loop; [loop_cons] is the equation of the revision's loop
    at a non-empty list and [one] its loop body. *)
Ltac resize_loop loop_cons one ty :=
  let issues := fresh "issues" in
  let i := fresh "i" in
  let j := fresh "j" in
  let IH := fresh "IH" in
  let IH1 := fresh "IH1" in
  let IH2 := fresh "IH2" in
  let H := fresh "H" in
  let E := fresh "E" in
  let Ety := fresh "Ety" in
  let Hj := fresh "Hj" in
  let Hty := fresh "Hty" in
  let Hno := fresh "Hno" in
  let Hex := fresh "Hex" in
  intros issues;
  induction issues as [|i issues IH]; intros ? ? ? ? H;
  [ simpl in H; injection H as <- <-; split;
    [ intros (j & [] & _) | reflexivity ]
  | rewrite loop_cons in H;
    match type of H with
    | match ?e with _ => _ end = _ =>
        destruct e as [[? ?]|] eqn:E; [|discriminate]
    end;
    destruct (IH _ _ _ _ H) as [IH1 IH2];
    unfold one in E;
    destruct (ty i) eqn:Ety;
    try match type of E with
        | match ?c with _ => _ end = _ => destruct c; [|discriminate]
        end;
    [ injection E as <- <-; split;
      [ intros _;
        destruct (autoWidth_dec ty issues) as [Hex|Hno];
        [ now apply IH1 | now apply IH2 ]
      | intros Hno; exfalso; apply (Hno i); [now left|exact Ety] ]
    | injection E as <- <-; split;
      [ intros (j & [<-|Hj] & Hty); [congruence|];
        apply IH1; now exists j
      | intros Hno; apply IH2; intros j Hj; apply Hno; now right ]
    | injection E as <- <-; split;
      [ intros (j & [<-|Hj] & Hty); [congruence|];
        apply IH1; now exists j
      | intros Hno; apply IH2; intros j Hj; apply Hno; now right ] ] ].

Lemma applyIssues_cons_codeTs (cfg : CodeTs.ProcessingConfig)
    (node : TextNode) (i : CodeTs.DetectedIssue)
    (issues : list CodeTs.DetectedIssue)
    (st : option AutoResize * Js.jsstring) :
  CodeTs.applyIssues cfg node (i :: issues) st
  = match CodeTs.applyIssue cfg node st i with
    | Some st' => CodeTs.applyIssues cfg node issues st'
    | None => None
    end.
Proof. reflexivity. Qed.

Lemma applyIssues_cons_part000 (cfg : Part000.ProcessingConfig)
    (node : TextNode) (i : Part000.DetectedIssue)
    (issues : list Part000.DetectedIssue)
    (st : option AutoResize * Js.jsstring) :
  Part000.applyIssues cfg node (i :: issues) st
  = match Part000.applyIssue cfg node st i with
    | Some st' => Part000.applyIssues cfg node issues st'
    | None => None
    end.
Proof. reflexivity. Qed.

Lemma applyIssues_resize_codeTs (cfg : CodeTs.ProcessingConfig)
    (node : TextNode) :
  forall (issues : list CodeTs.DetectedIssue)
         (r r' : option AutoResize) (t t' : Js.jsstring),
  CodeTs.applyIssues cfg node issues (r, t) = Some (r', t') ->
  ((exists i, In i issues /\ CodeTs.type i = AutoWidth) ->
   r' = Some HEIGHT)
  /\ ((forall i, In i issues -> CodeTs.type i <> AutoWidth) -> r' = r).
Proof.
  resize_loop applyIssues_cons_codeTs CodeTs.applyIssue CodeTs.type.
Qed.

Lemma applyIssues_resize_part000 (cfg : Part000.ProcessingConfig)
    (node : TextNode) :
  forall (issues : list Part000.DetectedIssue)
         (r r' : option AutoResize) (t t' : Js.jsstring),
  Part000.applyIssues cfg node issues (r, t) = Some (r', t') ->
  ((exists i, In i issues /\ Part000.type i = AutoWidth) ->
   r' = Some HEIGHT)
  /\ ((forall i, In i issues -> Part000.type i <> AutoWidth) -> r' = r).
Proof.
  resize_loop applyIssues_cons_part000 Part000.applyIssue Part000.type.
Qed.

(** C8, amended: in both revisions [newText] is populated only with a text
    that differs from the original one (and is left out exactly when the
    processed text equals it); [newAutoResize] is populated, with HEIGHT,
    exactly when the block is WIDTH_AND_HEIGHT or the issues contain an
    auto-width issue, without comparing it with the block's mode: it
    differs from the block's mode whenever that mode is not HEIGHT. *)
Theorem C8_changes_populated
    (cfgA : CodeTs.ProcessingConfig) (cfgB : Part000.ProcessingConfig)
    (originalText : Js.jsstring)
    (issuesA : list CodeTs.DetectedIssue)
    (issuesB : list Part000.DetectedIssue) (node : TextNode) :
  (forall changes,
      CodeTs.generateChanges cfgA originalText issuesA node = Some changes ->
      (forall t, newText changes = Some t -> t <> originalText)
      /\ (newAutoResize changes = Some HEIGHT
          <-> textAutoResize node = WIDTH_AND_HEIGHT
              \/ exists i, In i issuesA /\ CodeTs.type i = AutoWidth)
      /\ (newAutoResize changes = Some HEIGHT
          \/ newAutoResize changes = None)
      /\ (textAutoResize node <> HEIGHT ->
          forall m, newAutoResize changes = Some m ->
                    m <> textAutoResize node))
  /\ (forall changes,
         Part000.generateChanges cfgB originalText issuesB node
         = Some changes ->
         (forall t, newText changes = Some t -> t <> originalText)
         /\ (newAutoResize changes = Some HEIGHT
             <-> textAutoResize node = WIDTH_AND_HEIGHT
                 \/ exists i, In i issuesB /\ Part000.type i = AutoWidth)
         /\ (newAutoResize changes = Some HEIGHT
             \/ newAutoResize changes = None)
         /\ (textAutoResize node <> HEIGHT ->
             forall m, newAutoResize changes = Some m ->
                       m <> textAutoResize node)).
Proof.
  assert (Hshape : forall (changes : ProcessingChanges)
      (processed : option (option AutoResize * Js.jsstring))
      (auto : Prop),
      (forall r t, processed = Some (r, t) ->
         (r = Some HEIGHT <-> textAutoResize node = WIDTH_AND_HEIGHT \/ auto)
         /\ (r = Some HEIGHT \/ r = None)) ->
      match processed with
      | None => None
      | Some (resize, processedText) =>
          Some {| newText := if negb (Js.streq processedText originalText)
                             then Some processedText else None;
                  newAutoResize := resize |}
      end = Some changes ->
      (forall t, newText changes = Some t -> t <> originalText)
      /\ (newAutoResize changes = Some HEIGHT
          <-> textAutoResize node = WIDTH_AND_HEIGHT \/ auto)
      /\ (newAutoResize changes = Some HEIGHT
          \/ newAutoResize changes = None)
      /\ (textAutoResize node <> HEIGHT ->
          forall m, newAutoResize changes = Some m ->
                    m <> textAutoResize node)).
  { intros changes [[r t]|] auto Hr H; [|discriminate].
    injection H as <-. cbn [newText newAutoResize].
    destruct (Hr r t eq_refl) as [Hiff Hcases].
    split; [|split; [exact Hiff|split; [exact Hcases|]]].
    - intros t0 Ht0. destruct (Js.streq t originalText) eqn:E;
        cbn [negb] in Ht0; [discriminate|].
      injection Ht0 as <-. intros ->. now rewrite streq_refl in E.
    - intros Hmode m Hm. destruct Hcases as [Hc|Hc]; congruence. }
  split; intros changes H.
  - apply (Hshape changes _ _) with (2 := H). clear H.
    intros r t Hp.
    destruct (textAutoResize node) eqn:Emode; cbn [AutoResize_eqb] in Hp;
      try (destruct (CodeTs.removeLineBreaksJapanesePriority _ _ _ _ _);
           [|discriminate Hp]);
      try (injection Hp as <- <-; split; [split; auto|now left]);
      destruct (applyIssues_resize_codeTs _ _ _ _ _ _ _ Hp) as [H1 H2];
      (destruct (autoWidth_dec CodeTs.type issuesA) as [Hex|Hno];
       [ assert (Hex' : exists i, In i (CodeTs.sortIssues issuesA)
                                  /\ CodeTs.type i = AutoWidth)
           by (destruct Hex as (i & Hi & Hty); exists i;
               split; [now apply sortIssues_In|exact Hty]);
         rewrite (H1 Hex'); split; [split; auto|now left]
       | assert (Hno' : forall i, In i (CodeTs.sortIssues issuesA) ->
                                  CodeTs.type i <> AutoWidth)
           by (intros i Hi; apply Hno; now apply sortIssues_In);
         rewrite (H2 Hno'); split; [|now right];
         split; [discriminate|];
         intros [Hw|(i & Hi & Hty)];
         [discriminate|exfalso; exact (Hno i Hi Hty)] ]).
  - apply (Hshape changes _ _) with (2 := H). clear H.
    intros r t Hp.
    destruct (textAutoResize node) eqn:Emode; cbn [AutoResize_eqb] in Hp;
      try (injection Hp as <- <-; split; [split; auto|now left]);
      destruct (applyIssues_resize_part000 _ _ _ _ _ _ _ Hp) as [H1 H2];
      (destruct (autoWidth_dec Part000.type issuesB) as [Hex|Hno];
       [ rewrite (H1 Hex); split; [split; auto|now left]
       | rewrite (H2 Hno); split; [|now right];
         split; [discriminate|];
         intros [Hw|(i & Hi & Hty)];
         [discriminate|exfalso; exact (Hno i Hi Hty)] ]).
Qed.

Lemma C8_witness :
  CodeTs.generateChanges CodeTs.DEFAULT_CONFIG
    (characters Sample.autoWidthNode) [] Sample.autoWidthNode
  = Some {| newText := Some (Sample.hiragana 28);
            newAutoResize := Some HEIGHT |}
  /\ (newAutoResize {| newText := Some (Sample.hiragana 28);
                       newAutoResize := Some HEIGHT |} = Some HEIGHT
      <-> textAutoResize Sample.autoWidthNode = WIDTH_AND_HEIGHT
          \/ exists i : CodeTs.DetectedIssue,
               In i [] /\ CodeTs.type i = AutoWidth).
Proof.
  split; [vm_compute; reflexivity|].
  apply (proj1 (C8_changes_populated CodeTs.DEFAULT_CONFIG
                  Sample.config000 (characters Sample.autoWidthNode)
                  [] [] Sample.autoWidthNode)
           {| newText := Some (Sample.hiragana 28);
              newAutoResize := Some HEIGHT |}).
  vm_compute. reflexivity.
Defined.

(** The claim C8 as stated fails on src/code.ts: for an auto-height block
    with a hard break the detector reports an auto-width issue, and the
    change set then carries the resize mode HEIGHT, the mode the block
    already has. *)
Lemma C8_counterexample :
  textAutoResize Sample.autoHeightNode = HEIGHT
  /\ option_map newAutoResize
       (CodeTs.generateChanges CodeTs.DEFAULT_CONFIG
          (characters Sample.autoHeightNode)
          (CodeTs.issues
             (CodeTs.analyzeTextNode CodeTs.DEFAULT_CONFIG
                Sample.autoHeightNode))
          Sample.autoHeightNode)
     = Some (Some (textAutoResize Sample.autoHeightNode)).
Proof. split; vm_compute; reflexivity. Qed.

(** in part_000 the detector reports no auto-width issue for such a block,
    but [generateChanges] given one behaves the same *)
Lemma part000_given_auto_width_sets_height :
  option_map newAutoResize
    (Part000.generateChanges Sample.config000
       (characters Sample.autoHeightNode) [Part000.mkIssue AutoWidth]
       Sample.autoHeightNode)
  = Some (Some (textAutoResize Sample.autoHeightNode)).
Proof. vm_compute. reflexivity. Qed.

(** [generateChanges] returns a change set whenever the break pattern and
    every configured soft break compile as regular expressions. *)
Lemma generateChanges_returns (cfg : CodeTs.ProcessingConfig)
    (originalText : Js.jsstring) (issues : list CodeTs.DetectedIssue)
    (node : TextNode) :
  CodeTs.breakPattern cfg <> None ->
  (forall c, In c (CodeTs.softBreakChars cfg) -> compilePattern c <> None) ->
  CodeTs.generateChanges cfg originalText issues node <> None.
Proof.
  intros Hclass Hc.
  assert (Hrejoin : forall t b,
            CodeTs.removeLineBreaksJapanesePriority cfg t (width node)
              (getFontSize node) b <> None).
  { intros t b. destruct (CodeTs.breakPattern cfg) as [m|] eqn:Em;
      [|congruence].
    now rewrite (rejoin_compiled _ _ _ _ _ m Em). }
  unfold CodeTs.generateChanges.
  destruct (AutoResize_eqb _ _).
  { pose proof (Hrejoin originalText false) as H.
    destruct (CodeTs.removeLineBreaksJapanesePriority _ _ _ _ _);
      [discriminate|congruence]. }
  assert (Hloop : forall l st, CodeTs.applyIssues cfg node l st <> None).
  { induction l as [|i l IH]; intros [r t]; [discriminate|].
    rewrite applyIssues_cons_codeTs. unfold CodeTs.applyIssue.
    pose proof (Hrejoin t false) as Hr.
    destruct (CodeTs.type i).
    - destruct (CodeTs.removeLineBreaksJapanesePriority _ _ _ _ _);
        [apply IH|congruence].
    - destruct (CodeTs.removeLineBreaksJapanesePriority _ _ _ _ _);
        [apply IH|congruence].
    - pose proof (convert_compiles _ t Hc) as Hconv.
      destruct (convertSoftBreaksToHard _ t); [apply IH|congruence]. }
  specialize (Hloop (CodeTs.sortIssues issues) (None, originalText)).
  destruct (CodeTs.applyIssues _ _ _ _) as [[r t]|]; [discriminate|congruence].
Qed.

(** ** Batch analysis *)

Section AnalyzeNodesFacts.

Variable analyze : TextNode -> CodeTs.TextAnalysisResult + Js.jsstring.
Variable onProgress
  : option (CodeTs.ProgressUpdate -> option Js.jsstring).
Variable readFails : TextNode -> option Js.jsstring.
Variable cancelDuring : nat -> bool.
Variable nodes : list TextNode.

Let item :=
  CodeTs.analyzeItem analyze onProgress readFails cancelDuring nodes.
Let chunkLoop :=
  CodeTs.analyzeChunk analyze onProgress readFails cancelDuring nodes.
Let chunksLoop :=
  CodeTs.analyzeChunks analyze onProgress readFails cancelDuring nodes.
Let run := Spec.sequentialRun analyze cancelDuring.
Let cancelled := Spec.cancelledIn cancelDuring.

(** the callback, if there is one, returns *)
Let quiet : Prop :=
  forall callback update,
    onProgress = Some callback -> callback update = None.

Lemma analyzeChunk_cancelled (chunk : list TextNode) (i j : nat)
    (st : CodeTs.BatchState) :
  CodeTs.isCancelled st = true ->
  chunkLoop chunk i j st = CodeTs.Continues st.
Proof.
  intros Hc. destruct chunk; [reflexivity|].
  cbn [chunkLoop CodeTs.analyzeChunk]. now rewrite Hc.
Qed.

Lemma analyzeChunk_index (chunk : list TextNode) (i : nat) :
  forall (j : nat) (st : CodeTs.BatchState),
  chunkLoop chunk i j st = chunkLoop chunk 0 (i + j) st.
Proof.
  induction chunk as [|n chunk IH]; intros j st; [reflexivity|].
  cbn [chunkLoop CodeTs.analyzeChunk Nat.add].
  destruct (CodeTs.isCancelled st); [reflexivity|].
  destruct (CodeTs.analyzeItem _ _ _ _ _ _ _ _) as [st'|st' e];
    [|reflexivity].
  fold chunkLoop. rewrite (IH (S j)).
  now rewrite Nat.add_succ_r.
Qed.

(** the loop over a list is the loop over its first part, then over the
    rest *)
Lemma analyzeChunk_app (l1 l2 : list TextNode) :
  forall (k : nat) (st : CodeTs.BatchState),
  chunkLoop (l1 ++ l2) 0 k st
  = match chunkLoop l1 0 k st with
    | CodeTs.Continues st' => chunkLoop l2 0 (k + length l1) st'
    | CodeTs.Throws st' e => CodeTs.Throws st' e
    end.
Proof.
  induction l1 as [|n l1 IH]; intros k st.
  - cbn [app length chunkLoop CodeTs.analyzeChunk]. now rewrite Nat.add_0_r.
  - cbn [app length chunkLoop CodeTs.analyzeChunk Nat.add].
    destruct (CodeTs.isCancelled st) eqn:Hc.
    + symmetry. now apply analyzeChunk_cancelled.
    + destruct (CodeTs.analyzeItem _ _ _ _ _ _ _ _) as [st'|st' e];
        [|reflexivity].
      fold chunkLoop. rewrite (IH (S k)). cbn [Nat.add].
      now rewrite Nat.add_succ_r.
Qed.

(** the chunks do not show: the two loops are one loop over the nodes *)
Lemma analyzeChunks_flat (m : nat) :
  forall (a : nat) (st : CodeTs.BatchState),
  chunksLoop (map (fun k => k * CodeTs.CHUNK_SIZE) (seq a m)) st
  = chunkLoop
      (firstn (m * CodeTs.CHUNK_SIZE) (skipn (a * CodeTs.CHUNK_SIZE) nodes))
      0 (a * CodeTs.CHUNK_SIZE) st.
Proof.
  induction m as [|m IH]; intros a st; [reflexivity|].
  cbn [seq map chunksLoop CodeTs.analyzeChunks].
  fold chunkLoop. fold chunksLoop.
  set (rest := skipn (a * CodeTs.CHUNK_SIZE) nodes).
  set (chunk := firstn CodeTs.CHUNK_SIZE rest).
  replace (S m * CodeTs.CHUNK_SIZE)
    with (CodeTs.CHUNK_SIZE + m * CodeTs.CHUNK_SIZE) by lia.
  rewrite firstn_plus. fold chunk. rewrite analyzeChunk_app.
  destruct (CodeTs.isCancelled st) eqn:Hc.
  { rewrite (analyzeChunk_cancelled chunk 0 _ st Hc).
    symmetry. now apply analyzeChunk_cancelled. }
  rewrite (analyzeChunk_index chunk (a * CodeTs.CHUNK_SIZE) 0).
  rewrite Nat.add_0_r.
  destruct (chunkLoop chunk 0 (a * CodeTs.CHUNK_SIZE) st) as [st'|st' e];
    [|reflexivity].
  rewrite (IH (S a)). unfold rest. rewrite skipn_skipn.
  change (S a * CodeTs.CHUNK_SIZE)
    with (CodeTs.CHUNK_SIZE + a * CodeTs.CHUNK_SIZE).
  destruct (Nat.eq_dec (length chunk) CodeTs.CHUNK_SIZE) as [E|E].
  - rewrite E. f_equal. lia.
  - assert (Hshort : length nodes
                     <= CodeTs.CHUNK_SIZE + a * CodeTs.CHUNK_SIZE).
    { unfold chunk, rest in E.
      rewrite length_firstn, length_skipn in E. lia. }
    rewrite (skipn_all2 nodes Hshort), !firstn_nil. reflexivity.
Qed.

Lemma analyzeNodes_flat :
  CodeTs.analyzeNodes analyze onProgress readFails cancelDuring nodes
  = match chunkLoop nodes 0 0 (CodeTs.mkBatch true false [] []) with
    | CodeTs.Continues st =>
        (CodeTs.mkBatch false (CodeTs.isCancelled st) (CodeTs.results st)
           (CodeTs.progress st),
         inl (CodeTs.results st))
    | CodeTs.Throws st error =>
        (CodeTs.mkBatch false (CodeTs.isCancelled st) (CodeTs.results st)
           (CodeTs.progress st),
         inr (BATCH_ANALYSIS_FAILED ++ error))
    end.
Proof.
  unfold CodeTs.analyzeNodes, CodeTs.chunkStarts.
  fold chunksLoop. rewrite analyzeChunks_flat.
  cbn [skipn Nat.mul].
  rewrite firstn_all2; [reflexivity|].
  unfold CodeTs.CHUNK_SIZE.
  pose proof (Nat.mul_succ_div_gt (length nodes + 50 - 1) 50
                ltac:(discriminate)).
  lia.
Qed.

(** one item when its [catch], if entered, can read the node and the
    callback returns: one more result; the flag is raised by the
    environment only *)
Lemma analyzeItem_recorded (k : nat) (n : TextNode)
    (st : CodeTs.BatchState) :
  quiet ->
  (forall e, analyze n = inr e -> readFails n = None) ->
  exists st',
    item k n st = CodeTs.Continues st'
    /\ CodeTs.results st' = CodeTs.results st ++ [Spec.recorded analyze n]
    /\ CodeTs.isCancelled st' = CodeTs.isCancelled st || cancelDuring k.
Proof.
  intros Hquiet Hread.
  unfold item, CodeTs.analyzeItem, CodeTs.tryItem, CodeTs.catchItem,
    Spec.recorded.
  destruct (analyze n) as [result|error].
  - destruct onProgress as [callback|] eqn:Ecb.
    + cbv zeta. rewrite (Hquiet callback _ eq_refl).
      eexists. split; [reflexivity|]. split; reflexivity.
    + eexists. split; [reflexivity|]. split; reflexivity.
  - rewrite (Hread error eq_refl).
    eexists. split; [reflexivity|]. split; reflexivity.
Qed.

(** under these conditions the loop is the sequential loop of the
    specification *)
Lemma analyzeChunk_run (l : list TextNode) :
  quiet ->
  (forall n e, In n l -> analyze n = inr e -> readFails n = None) ->
  forall (k : nat) (st : CodeTs.BatchState),
  CodeTs.isCancelled st = false ->
  exists st',
    chunkLoop l 0 k st = CodeTs.Continues st'
    /\ CodeTs.results st' = CodeTs.results st ++ run k l
    /\ CodeTs.isCancelled st' = cancelled k l.
Proof.
  intros Hquiet. induction l as [|n l IH]; intros Hread k st Hc.
  - exists st. cbn. now rewrite app_nil_r.
  - cbn [chunkLoop CodeTs.analyzeChunk Nat.add]. rewrite Hc.
    destruct (analyzeItem_recorded k n st Hquiet
                (fun e => Hread n e (or_introl eq_refl)))
      as (st1 & Hitem & Hr & Hf).
    fold item. rewrite Hitem. fold chunkLoop.
    rewrite Hc in Hf. cbn [orb] in Hf.
    cbn [run cancelled Spec.sequentialRun Spec.cancelledIn].
    fold run. fold cancelled.
    destruct (cancelDuring k) eqn:Ecancel.
    + exists st1. rewrite analyzeChunk_cancelled by exact Hf.
      split; [reflexivity|]. split; [exact Hr|exact Hf].
    + destruct (IH (fun m e Hm => Hread m e (or_intror Hm)) (S k) st1 Hf)
        as (st2 & Hloop & Hr2 & Hf2).
      exists st2. split; [exact Hloop|]. split; [|exact Hf2].
      rewrite Hr2, Hr, <- app_assoc. reflexivity.
Qed.

(** the loop leaves at the first item whose analysis throws and whose
    text cannot be read *)
Lemma analyzeChunk_throws (pre post : list TextNode) (n : TextNode)
    (error thrown : Js.jsstring) :
  quiet ->
  analyze n = inr error -> readFails n = Some thrown ->
  forall (k : nat) (st : CodeTs.BatchState),
  (forall m, In m pre -> exists r, analyze m = inl r) ->
  (forall j, j < length pre -> cancelDuring (k + j) = false) ->
  CodeTs.isCancelled st = false ->
  exists st', chunkLoop (pre ++ n :: post) 0 k st = CodeTs.Throws st' thrown.
Proof.
  intros Hquiet Hn Hread. induction pre as [|m pre IH];
    intros k st Hpre Hrun Hc.
  - cbn [app chunkLoop CodeTs.analyzeChunk Nat.add]. rewrite Hc.
    unfold CodeTs.analyzeItem, CodeTs.tryItem, CodeTs.catchItem.
    rewrite Hn, Hread. now exists st.
  - cbn [app chunkLoop CodeTs.analyzeChunk Nat.add]. rewrite Hc.
    assert (Hm : forall e, analyze m = inr e -> readFails m = None).
    { intros e He. destruct (Hpre m (or_introl eq_refl)) as [r Hr].
      congruence. }
    destruct (analyzeItem_recorded k m st Hquiet Hm)
      as (st1 & Hitem & _ & Hf).
    fold item. rewrite Hitem. fold chunkLoop.
    rewrite Hc in Hf. cbn [orb] in Hf.
    assert (H0 : cancelDuring k = false).
    { rewrite <- (Nat.add_0_r k). apply Hrun. cbn [length]. lia. }
    rewrite H0 in Hf.
    apply (IH (S k) st1).
    + intros x Hx. apply Hpre. now right.
    + intros j Hj. replace (S k + j) with (k + S j) by lia.
      apply Hrun. cbn [length]. lia.
    + exact Hf.
Qed.

Lemma sequentialRun_prefix (l : list TextNode) :
  forall k, exists c,
    c <= length l /\ run k l = map (Spec.recorded analyze) (firstn c l).
Proof.
  induction l as [|n l IH]; intros k.
  - exists 0. split; [lia|reflexivity].
  - cbn [run Spec.sequentialRun]. fold run. destruct (cancelDuring k).
    + exists 1. split; [simpl; lia|reflexivity].
    + destruct (IH (S k)) as (c & Hc & Hrun).
      exists (S c). split; [simpl; lia|]. simpl. now rewrite Hrun.
Qed.

Lemma sequentialRun_complete (l : list TextNode) :
  (forall k, cancelDuring k = false) ->
  forall k, run k l = map (Spec.recorded analyze) l.
Proof.
  intros Hnc. induction l as [|n l IH]; intros k; [reflexivity|].
  cbn [run Spec.sequentialRun]. fold run.
  now rewrite Hnc, IH.
Qed.

(** [analyzeNodes] is the sequential loop when the [catch] of an item can
    read the node and the callback returns: how far the batch gets
    depends on [cancel()] alone *)
Lemma analyzeNodes_sequential :
  quiet ->
  (forall n e, In n nodes -> analyze n = inr e -> readFails n = None) ->
  snd (CodeTs.analyzeNodes analyze onProgress readFails cancelDuring nodes)
  = inl (run 0 nodes).
Proof.
  intros Hquiet Hread. rewrite analyzeNodes_flat.
  destruct (analyzeChunk_run nodes Hquiet Hread 0
              (CodeTs.mkBatch true false [] []) eq_refl)
    as (st' & Hloop & Hr & _).
  rewrite Hloop. cbn [snd]. now rewrite Hr.
Qed.

Lemma analyzeNodes_aborted (pre post : list TextNode) (n : TextNode)
    (error thrown : Js.jsstring) :
  nodes = pre ++ n :: post ->
  quiet ->
  (forall m, In m pre -> exists r, analyze m = inl r) ->
  (forall k, k < length pre -> cancelDuring k = false) ->
  analyze n = inr error -> readFails n = Some thrown ->
  snd (CodeTs.analyzeNodes analyze onProgress readFails cancelDuring nodes)
  = inr (BATCH_ANALYSIS_FAILED ++ thrown)
  /\ CodeTs.isProcessing
       (fst (CodeTs.analyzeNodes analyze onProgress readFails cancelDuring
               nodes)) = false.
Proof.
  intros Hnodes Hquiet Hpre Hrun Hn Hread. rewrite analyzeNodes_flat.
  destruct (analyzeChunk_throws pre post n error thrown Hquiet Hn Hread 0
              (CodeTs.mkBatch true false [] []) Hpre Hrun eq_refl)
    as (st' & Hloop).
  rewrite Hnodes, Hloop. split; reflexivity.
Qed.

(** a callback that throws after the result was pushed: the [catch]
    pushes an error result for the same node *)
Lemma analyzeNodes_two_results (n : TextNode)
    (r : CodeTs.TextAnalysisResult)
    (callback : CodeTs.ProgressUpdate -> option Js.jsstring)
    (e : Js.jsstring) :
  nodes = [n] -> analyze n = inl r -> onProgress = Some callback ->
  callback (CodeTs.mkProgress 1 1) = Some e -> readFails n = None ->
  snd (CodeTs.analyzeNodes analyze onProgress readFails cancelDuring nodes)
  = inl [r; CodeTs.mkResult n [] (CodeTs.AnalysisError e) (characters n)].
Proof.
  intros Hnodes Hr Hcb He Hread. rewrite analyzeNodes_flat.
  rewrite Hnodes at 1.
  cbn [chunkLoop CodeTs.analyzeChunk CodeTs.isCancelled Nat.add].
  unfold CodeTs.analyzeItem, CodeTs.tryItem, CodeTs.catchItem.
  rewrite Hr, Hcb. cbv zeta. rewrite Hnodes. cbn [length Nat.add].
  rewrite He, Hread. reflexivity.
Qed.

End AnalyzeNodesFacts.

Lemma analyzeNodes_results_srcDir
    (analyze : TextNode -> CodeTs.TextAnalysisResult + Js.jsstring)
    (readFails : TextNode -> option Js.jsstring)
    (nodes : list TextNode) :
  (forall n e, In n nodes -> analyze n = inr e -> readFails n = None) ->
  forall acc,
  SrcDir.analyzeNodes analyze readFails nodes acc
  = inl (acc ++ map (Spec.recorded analyze) nodes).
Proof.
  induction nodes as [|n nodes IH]; intros Hread acc; simpl.
  - now rewrite app_nil_r.
  - unfold Spec.recorded at 1.
    assert (Hrest : forall m e, In m nodes -> analyze m = inr e ->
                                readFails m = None)
      by (intros m e Hm; apply Hread; now right).
    destruct (analyze n) as [r|e] eqn:E.
    + rewrite (IH Hrest), <- app_assoc. reflexivity.
    + rewrite (Hread n e (or_introl eq_refl) E).
      rewrite (IH Hrest), <- app_assoc. reflexivity.
Qed.

Lemma analyzeNodes_aborted_srcDir
    (analyze : TextNode -> CodeTs.TextAnalysisResult + Js.jsstring)
    (readFails : TextNode -> option Js.jsstring)
    (pre post : list TextNode) (n : TextNode)
    (error thrown : Js.jsstring) :
  (forall m, In m pre -> exists r, analyze m = inl r) ->
  analyze n = inr error -> readFails n = Some thrown ->
  forall acc,
  SrcDir.analyzeNodes analyze readFails (pre ++ n :: post) acc = inr thrown.
Proof.
  intros Hpre Hn Hread. induction pre as [|m pre IH]; intros acc.
  - cbn [app SrcDir.analyzeNodes]. now rewrite Hn, Hread.
  - cbn [app SrcDir.analyzeNodes].
    destruct (Hpre m (or_introl eq_refl)) as [r Hr]. rewrite Hr.
    apply IH. intros x Hx. apply Hpre. now right.
Qed.

(** C9: the [catch] of an item reads [node.characters] again, and the
    progress callback is called inside the [try] of the item.  So when
    the analysis of a node throws and the read of its text throws too
    (the case of a node that is gone from the document), the exception
    leaves the loops: [analyzeNodes] of src/code.ts throws
    ['Batch analysis failed: ...'], the results recorded so far are lost,
    and that of src/src/textAnalyzer.ts throws the exception itself.
    And when the callback throws after the result of a node was pushed,
    the node gets an error result as well: two results for one node.
    When the text can be read wherever the analysis throws and the
    callback returns, [analyzeNodes] is the sequential loop over the nodes
    that records the result of the analysis or the error result and stops
    only after an item during which [cancel()] was called: what is
    returned is what was recorded for a prefix of the input, in its
    order, and without [cancel()] one result per node, the error result
    at the place of a node whose analysis threw. *)
Theorem C9_item_failure_can_abort_batch
    (analyze : TextNode -> CodeTs.TextAnalysisResult + Js.jsstring)
    (onProgress : option (CodeTs.ProgressUpdate -> option Js.jsstring))
    (readFails : TextNode -> option Js.jsstring)
    (cancelDuring : nat -> bool)
    (nodes : list TextNode) :
  let outcome :=
    snd (CodeTs.analyzeNodes analyze onProgress readFails cancelDuring
           nodes) in
  let quiet :=
    forall callback update,
      onProgress = Some callback -> callback update = None in
  (* the item failure that aborts the batch *)
  (forall pre n post error thrown,
     nodes = pre ++ n :: post ->
     quiet ->
     (forall m, In m pre -> exists r, analyze m = inl r) ->
     (forall k, k < length pre -> cancelDuring k = false) ->
     analyze n = inr error -> readFails n = Some thrown ->
     outcome = inr (BATCH_ANALYSIS_FAILED ++ thrown)
     /\ SrcDir.analyzeNodes analyze readFails nodes [] = inr thrown)
  (* two results for one node *)
  /\ (forall n r callback e,
        nodes = [n] -> analyze n = inl r -> onProgress = Some callback ->
        callback (CodeTs.mkProgress 1 1) = Some e -> readFails n = None ->
        outcome
        = inl [r; CodeTs.mkResult n [] (CodeTs.AnalysisError e)
                    (characters n)])
  (* what holds otherwise *)
  /\ (quiet ->
      (forall n e, In n nodes -> analyze n = inr e -> readFails n = None) ->
      outcome = inl (Spec.sequentialRun analyze cancelDuring 0 nodes)
      /\ (exists c, c <= length nodes
                    /\ outcome
                       = inl (map (Spec.recorded analyze) (firstn c nodes)))
      /\ ((forall k, cancelDuring k = false) ->
          outcome = inl (map (Spec.recorded analyze) nodes)
          /\ length (map (Spec.recorded analyze) nodes) = length nodes
          /\ (forall k n e,
                 nth_error nodes k = Some n -> analyze n = inr e ->
                 nth_error (map (Spec.recorded analyze) nodes) k
                 = Some (CodeTs.mkResult n [] (CodeTs.AnalysisError e)
                           (characters n)))
          /\ (forall k n r,
                 nth_error nodes k = Some n -> analyze n = inl r ->
                 nth_error (map (Spec.recorded analyze) nodes) k = Some r))
      /\ SrcDir.analyzeNodes analyze readFails nodes []
         = inl (map (Spec.recorded analyze) nodes)).
Proof.
  intros outcome quiet. split; [|split].
  - intros pre n post error thrown Hnodes Hquiet Hpre Hrun Hn Hread. split.
    + exact (proj1 (analyzeNodes_aborted analyze onProgress readFails
                      cancelDuring nodes pre post n error thrown Hnodes
                      Hquiet Hpre Hrun Hn Hread)).
    + rewrite Hnodes. now apply (analyzeNodes_aborted_srcDir _ _ _ _ _ error).
  - intros n r callback e. apply analyzeNodes_two_results.
  - intros Hquiet Hread.
    assert (Hseq : outcome
                   = inl (Spec.sequentialRun analyze cancelDuring 0 nodes))
      by (apply analyzeNodes_sequential; assumption).
    split; [exact Hseq|]. split; [|split].
    + destruct (sequentialRun_prefix analyze cancelDuring nodes 0)
        as (c & Hc & Hrun).
      exists c. split; [exact Hc|]. now rewrite Hseq, Hrun.
    + intros Hrun.
      split; [rewrite Hseq; f_equal; now apply sequentialRun_complete|].
      split; [apply length_map|].
      split; intros k n x Hk Hx; rewrite nth_error_map, Hk;
        cbn [option_map]; unfold Spec.recorded; now rewrite Hx.
    + exact (analyzeNodes_results_srcDir analyze readFails nodes Hread []).
Qed.

(** three blocks, the second of which is gone from the document: the
    batch is aborted *)
Lemma C9_witness :
  snd (CodeTs.analyzeNodes Sample.throwingAnalyze (Some Sample.quietCallback)
         Sample.unreadable (fun _ => false) Sample.batch)
  = inr (BATCH_ANALYSIS_FAILED ++ [69%Z])
  /\ SrcDir.analyzeNodes Sample.throwingAnalyze Sample.unreadable
       Sample.batch [] = inr [69%Z].
Proof.
  apply (proj1 (C9_item_failure_can_abort_batch Sample.throwingAnalyze
                  (Some Sample.quietCallback) Sample.unreadable
                  (fun _ => false) Sample.batch)
           [Sample.autoHeightNode] Sample.lockedNode [Sample.autoWidthNode]
           [69%Z] [69%Z] eq_refl).
  - intros callback update H. injection H as <-. reflexivity.
  - intros m [<-|[]]. eexists. reflexivity.
  - reflexivity.
  - reflexivity.
  - reflexivity.
Defined.

(** with a host that can still read the block, the error result is
    recorded at its place and the batch goes on *)
Example analyzeNodes_error_recorded :
  snd (CodeTs.analyzeNodes Sample.throwingAnalyze (Some Sample.quietCallback)
         Sample.readable (fun _ => false) Sample.batch)
  = inl [ CodeTs.analyzeTextNode CodeTs.DEFAULT_CONFIG Sample.autoHeightNode;
          CodeTs.mkResult Sample.lockedNode [] (CodeTs.AnalysisError [69%Z])
            (characters Sample.lockedNode);
          CodeTs.analyzeTextNode CodeTs.DEFAULT_CONFIG Sample.autoWidthNode ].
Proof. vm_compute. reflexivity. Qed.

(** a callback that throws: two results for the one block *)
Example analyzeNodes_callback_throws :
  snd (CodeTs.analyzeNodes
         (fun n => inl (CodeTs.analyzeTextNode CodeTs.DEFAULT_CONFIG n))
         (Some Sample.throwingCallback) Sample.readable (fun _ => false)
         [Sample.autoHeightNode])
  = inl [ CodeTs.analyzeTextNode CodeTs.DEFAULT_CONFIG Sample.autoHeightNode;
          CodeTs.mkResult Sample.autoHeightNode []
            (CodeTs.AnalysisError [80%Z])
            (characters Sample.autoHeightNode) ].
Proof. vm_compute. reflexivity. Qed.

(** a cancellation during the first item stops the batch after it; what was
    recorded is returned *)
Example analyzeNodes_cancelled :
  snd (CodeTs.analyzeNodes Sample.throwingAnalyze (Some Sample.quietCallback)
         Sample.readable (Nat.eqb 0) Sample.batch)
  = inl [ CodeTs.analyzeTextNode CodeTs.DEFAULT_CONFIG
            Sample.autoHeightNode ].
Proof. vm_compute. reflexivity. Qed.

(** * Further properties of the code *)

(** ** The break class *)

(** X1: when no soft break but the last is a hyphen, the pattern compiles
    and matches exactly the hard break and the configured soft breaks, in
    both revisions. *)
Theorem break_class_is_membership
    (cfgA : CodeTs.ProcessingConfig) (cfgB : Part000.ProcessingConfig)
    (HclassA : formsNoRange (CodeTs.softBreakChars cfgA) = true)
    (HclassB : formsNoRange (Part000.softBreakChars cfgB) = true) :
  (exists p, CodeTs.breakPattern cfgA = Some p
             /\ forall c,
                p c = Spec.breakMatcher (CodeTs.softBreakChars cfgA) c)
  /\ (exists p, Part000.getBreakPattern (Part000.softBreakChars cfgB)
                = Some p
                /\ forall c,
                   p c = Spec.breakMatcher (Part000.softBreakChars cfgB) c).
Proof.
  split.
  - exact (compileBreakClass_formsNoRange _ HclassA).
  - exact (compileBreakClass_formsNoRange _ HclassB).
Qed.

Lemma break_class_is_membership_witness :
  exists p, CodeTs.breakPattern CodeTs.DEFAULT_CONFIG = Some p
            /\ p 8232%Z = true /\ p 65%Z = false.
Proof.
  destruct (proj1 (break_class_is_membership CodeTs.DEFAULT_CONFIG
                     Sample.config000 eq_refl eq_refl))
    as (p & Hp & Hmem).
  exists p. split; [exact Hp|]. rewrite !Hmem. split; reflexivity.
Defined.

(** X2: a hyphen as the first of several soft breaks makes a range from
    the hard break to the next soft break: the pattern matches every code
    unit in between, and does not compile when the next soft break lies
    below the hard break. *)
Theorem hyphen_soft_break_makes_range
    (cfg : CodeTs.ProcessingConfig) (b : Z) (rest : list Z)
    (Hsoft : CodeTs.softBreakChars cfg = HYPHEN :: b :: rest) :
  ((b < Js.LF)%Z -> compileBreakClass (CodeTs.softBreakChars cfg) = None)
  /\ (forall p c,
        compileBreakClass (CodeTs.softBreakChars cfg) = Some p ->
        (Js.LF <= c <= b)%Z -> p c = true)
  /\ ((Js.LF <= b)%Z ->
      classRanges rest <> None ->
      compileBreakClass (CodeTs.softBreakChars cfg) <> None).
Proof.
  rewrite Hsoft. unfold compileBreakClass.
  change (classRanges (Js.LF :: HYPHEN :: b :: rest))
    with (if (HYPHEN =? HYPHEN)%Z
          then if (Js.LF <=? b)%Z
               then option_map (cons (Js.LF, b)) (classRanges rest)
               else None
          else option_map (cons (Js.LF, Js.LF))
                 (classRanges (HYPHEN :: b :: rest))).
  rewrite Z.eqb_refl. split; [|split].
  - intros Hb. now replace (Js.LF <=? b)%Z with false
      by (symmetry; apply Z.leb_gt; exact Hb).
  - intros p c Hp [Hlo Hhi].
    destruct (Js.LF <=? b)%Z; [|discriminate Hp].
    destruct (classRanges rest) as [ranges|]; [|discriminate Hp].
    injection Hp as <-. unfold inClass. cbn [existsb fst snd].
    unfold Js.inRange.
    now rewrite (proj2 (Z.leb_le _ _) Hlo), (proj2 (Z.leb_le _ _) Hhi).
  - intros Hb Hrest.
    rewrite (proj2 (Z.leb_le _ _) Hb).
    destruct (classRanges rest); [discriminate|congruence].
Qed.

Lemma hyphen_soft_break_makes_range_witness :
  exists p, compileBreakClass (CodeTs.softBreakChars Sample.hyphenConfig)
            = Some p
            /\ p 65%Z = true
            /\ Spec.breakMatcher (CodeTs.softBreakChars Sample.hyphenConfig)
                 65 = false.
Proof.
  pose proof (hyphen_soft_break_makes_range Sample.hyphenConfig 97 []
                eq_refl) as (_ & Hin & _).
  eexists. split; [reflexivity|]. split; [|reflexivity].
  apply Hin; [reflexivity|]. unfold Js.LF. lia.
Defined.

(** ** Lines and break characters *)


(** no line of a split text contains a character of the class *)
Lemma splitOn_lines_clean (p : Z -> bool) (s : Js.jsstring) :
  forall l, In l (Js.splitOn p s) -> forall c, In c l -> p c = false.
Proof.
  induction s as [|c s IH]; intros l Hl d Hd.
  - destruct Hl as [<-|[]]. destruct Hd.
  - cbn [Js.splitOn] in Hl. destruct (p c) eqn:Ec.
    + destruct Hl as [<-|Hl]; [destruct Hd|]. now apply (IH l).
    + destruct (Js.splitOn p s) as [|l0 ls] eqn:Es.
      * exfalso. exact (splitOn_nonempty p s Es).
      * destruct Hl as [<-|Hl].
        -- destruct Hd as [<-|Hd]; [exact Ec|].
           apply (IH l0); [now left|exact Hd].
        -- apply (IH l); [now right|exact Hd].
Qed.

(** X3: [getLineNumbers] numbers the lines that are followed by a break: as
    many as the text has break characters, from 1 on. *)
Theorem getLineNumbers_counts_breaks (cfg : CodeTs.ProcessingConfig)
    (text : Js.jsstring)
    (Hclass : formsNoRange (CodeTs.softBreakChars cfg) = true) :
  CodeTs.getLineNumbers cfg text
  = Some (seq 1 (length (filter
                           (Spec.breakMatcher (CodeTs.softBreakChars cfg))
                           text)))
  /\ SrcDir.getLineNumbers text = seq 1 (length (filter (Z.eqb Js.LF) text)).
Proof.
  split.
  - rewrite getLineNumbers_compiled.
    destruct (compileBreakClass_formsNoRange _ Hclass) as (m & Hm & Hmem).
    unfold CodeTs.breakPattern. rewrite Hm. cbn [option_map].
    now rewrite (filter_ext _ _ Hmem).
  - unfold SrcDir.getLineNumbers.
    rewrite !filter_lt_seq, !splitOn_length. cbn [Nat.sub].
    now rewrite !Nat.sub_0_r.
Qed.

Lemma getLineNumbers_counts_breaks_witness :
  CodeTs.getLineNumbers CodeTs.DEFAULT_CONFIG Sample.softBrokenText
  = Some [1]
  /\ SrcDir.getLineNumbers Sample.twoSentences = [1].
Proof.
  pose proof (getLineNumbers_counts_breaks CodeTs.DEFAULT_CONFIG
                Sample.softBrokenText eq_refl) as [HA _].
  pose proof (getLineNumbers_counts_breaks CodeTs.DEFAULT_CONFIG
                Sample.twoSentences eq_refl) as [_ HB].
  rewrite HA, HB. split; reflexivity.
Defined.

(** the lines were split at the soft breaks: none is found in them *)
Lemma getSoftBreakLines_nil (cfg : CodeTs.ProcessingConfig)
    (text : Js.jsstring) :
  formsNoRange (CodeTs.softBreakChars cfg) = true ->
  CodeTs.getSoftBreakLines cfg text = Some [].
Proof.
  intros Hclass. unfold CodeTs.getSoftBreakLines.
  destruct (compileBreakClass_formsNoRange _ Hclass) as (m & Hm & Hmem).
  unfold CodeTs.breakPattern. rewrite Hm. cbv zeta. f_equal.
  pose proof (splitOn_lines_clean m text) as Hclean.
  generalize dependent (Js.splitOn m text).
  intros lines Hclean.
  generalize (seq 0 (length lines)) as idx.
  induction lines as [|l lines IH]; intros [|i idx]; try reflexivity.
  cbn [combine flat_map].
  rewrite IH by (intros l' Hl'; apply Hclean; now right).
  assert (Hnone : existsb (fun softBreakChar =>
                             existsb (Z.eqb softBreakChar) l)
                    (CodeTs.softBreakChars cfg) = false).
  { destruct (existsb _ (CodeTs.softBreakChars cfg)) eqn:E; [|reflexivity].
    apply existsb_exists in E as (sb & Hsb & Hin).
    apply existsb_exists in Hin as (c & Hc & Heq).
    apply Z.eqb_eq in Heq. subst c.
    assert (Hbp : m sb = true)
      by (rewrite Hmem; now apply breakMatcher_soft).
    rewrite (Hclean l (or_introl eq_refl) sb Hc) in Hbp. discriminate. }
  now rewrite Hnone.
Qed.

Lemma fold_left_add_count (g : Z -> nat) (l : list Z) (a : nat) :
  fold_left (fun count c => count + g c) l a
  = a + fold_right (fun c n => g c + n) 0 l.
Proof.
  revert a. induction l as [|c l IH]; intros a; simpl; [lia|].
  rewrite IH. lia.
Qed.

Lemma soft_break_count_positive (soft : list Z) (text : Js.jsstring) :
  0 < fold_left
        (fun count softBreakChar =>
           count + length (filter (Z.eqb softBreakChar) text)) soft 0
  <-> exists c, In c soft /\ In c text.
Proof.
  rewrite fold_left_add_count.
  induction soft as [|sb l IH]; simpl.
  - split; [lia|intros (c & [] & _)].
  - split.
    + intros H.
      destruct (filter (Z.eqb sb) text) as [|x xs] eqn:E.
      * simpl in H. apply IH in H as (c & Hc & Ht). exists c. tauto.
      * exists sb. split; [now left|].
        assert (Hx : In x (filter (Z.eqb sb) text)) by (rewrite E; now left).
        apply filter_In in Hx as [Hx Heq]. apply Z.eqb_eq in Heq.
        now subst x.
    + intros (c & [<-|Hc] & Ht).
      * assert (Hin : In sb (filter (Z.eqb sb) text))
          by (apply filter_In; split; [exact Ht|apply Z.eqb_refl]).
        destruct (filter (Z.eqb sb) text); [destruct Hin|simpl; lia].
      * assert (0 < fold_right (fun c n => length (filter (Z.eqb c) text) + n)
                      0 l) by (apply IH; now exists c).
        lia.
Qed.

Lemma countSoftBreaks_positive (cfg : CodeTs.ProcessingConfig)
    (text : Js.jsstring) :
  0 < CodeTs.countSoftBreaks cfg text
  <-> exists c, In c (CodeTs.softBreakChars cfg) /\ In c text.
Proof. apply soft_break_count_positive. Qed.

Lemma detectSoftBreaks_cases (cfg : CodeTs.ProcessingConfig)
    (node : TextNode) :
  formsNoRange (CodeTs.softBreakChars cfg) = true ->
  (CodeTs.detectSoftBreaks cfg node <> []
   <-> (paragraphSpacing node =? 0)%float = true
       /\ exists c, In c (CodeTs.softBreakChars cfg)
                    /\ In c (characters node))
  /\ (forall issue, In issue (CodeTs.detectSoftBreaks cfg node) ->
        issue = CodeTs.mkIssue SoftBreak 0.8 []).
Proof.
  intros Hclass. unfold CodeTs.detectSoftBreaks.
  pose proof (countSoftBreaks_positive cfg (characters node)) as Hcount.
  rewrite (getSoftBreakLines_nil _ _ Hclass).
  destruct (paragraphSpacing node =? 0)%float.
  - destruct (0 <? CodeTs.countSoftBreaks cfg (characters node)) eqn:E.
    + apply Nat.ltb_lt in E. split.
      * split; [intros _; split; [reflexivity|now apply Hcount]|discriminate].
      * intros issue [<-|[]]. reflexivity.
    + apply Nat.ltb_ge in E. split.
      * split; [congruence|]. intros [_ Hex]. apply Hcount in Hex. lia.
      * intros issue [].
  - split; [|intros issue []].
    split; [congruence|]. intros [H _]. discriminate H.
Qed.

(** X4: [getSoftBreakLines] of src/code.ts looks for soft breaks in the
    lines it obtained by splitting at the soft breaks: it never finds
    one. *)
Theorem getSoftBreakLines_is_empty (cfg : CodeTs.ProcessingConfig)
    (text : Js.jsstring)
    (Hclass : formsNoRange (CodeTs.softBreakChars cfg) = true) :
  CodeTs.getSoftBreakLines cfg text = Some [].
Proof. now apply getSoftBreakLines_nil. Qed.

Lemma getSoftBreakLines_is_empty_witness :
  CodeTs.getSoftBreakLines CodeTs.DEFAULT_CONFIG Sample.softBrokenText
  = Some [].
Proof.
  exact (getSoftBreakLines_is_empty CodeTs.DEFAULT_CONFIG
           Sample.softBrokenText eq_refl).
Defined.

(** X5: the soft-break detection reports an issue exactly when the
    paragraph spacing is 0 and the text contains a configured soft break;
    the issue names no line. *)
Theorem detectSoftBreaks_iff (cfg : CodeTs.ProcessingConfig)
    (node : TextNode)
    (Hclass : formsNoRange (CodeTs.softBreakChars cfg) = true) :
  (CodeTs.detectSoftBreaks cfg node <> []
   <-> (paragraphSpacing node =? 0)%float = true
       /\ exists c, In c (CodeTs.softBreakChars cfg)
                    /\ In c (characters node))
  /\ (forall issue, In issue (CodeTs.detectSoftBreaks cfg node) ->
        issue = CodeTs.mkIssue SoftBreak 0.8 []).
Proof. now apply detectSoftBreaks_cases. Qed.

Lemma detectSoftBreaks_iff_witness :
  CodeTs.detectSoftBreaks CodeTs.DEFAULT_CONFIG
    (Sample.textNode Sample.softBrokenText 400 HEIGHT)
  = [CodeTs.mkIssue SoftBreak 0.8 []].
Proof.
  pose proof (detectSoftBreaks_iff CodeTs.DEFAULT_CONFIG
                (Sample.textNode Sample.softBrokenText 400 HEIGHT) eq_refl)
    as [_ Hissue].
  destruct (CodeTs.detectSoftBreaks CodeTs.DEFAULT_CONFIG
              (Sample.textNode Sample.softBrokenText 400 HEIGHT))
    as [|issue rest] eqn:E; [discriminate E|].
  rewrite (Hissue issue (or_introl eq_refl)).
  destruct rest; [reflexivity|discriminate E].
Defined.

(** ** What the rejoin keeps *)

Section KeptCharacters.

(** the code units that count: none of them is whitespace *)
Variable keep : Z -> bool.
Hypothesis keep_not_space : forall c, keep c = true -> Js.isWhiteSpace c = false.

Lemma filter_keep_dropWhile (s : Js.jsstring) :
  filter keep (Js.dropWhile Js.isWhiteSpace s) = filter keep s.
Proof.
  induction s as [|c s IH]; [reflexivity|]. simpl.
  destruct (Js.isWhiteSpace c) eqn:Ews; [|reflexivity].
  destruct (keep c) eqn:Ek; [|exact IH].
  apply keep_not_space in Ek. congruence.
Qed.

Lemma filter_keep_trimStart (s : Js.jsstring) :
  filter keep (Js.trimStart s) = filter keep s.
Proof. apply filter_keep_dropWhile. Qed.

Lemma filter_keep_trimEnd (s : Js.jsstring) :
  filter keep (Js.trimEnd s) = filter keep s.
Proof.
  unfold Js.trimEnd.
  rewrite <- (rev_involutive (filter keep s)), <- filter_rev.
  rewrite <- (filter_keep_dropWhile (rev s)), filter_rev.
  reflexivity.
Qed.

Lemma keep_space_false : keep Js.SPACE = false.
Proof.
  destruct (keep Js.SPACE) eqn:E; [|reflexivity].
  apply keep_not_space in E. discriminate E.
Qed.

Lemma keep_LF_false : keep Js.LF = false.
Proof.
  destruct (keep Js.LF) eqn:E; [|reflexivity].
  apply keep_not_space in E. discriminate E.
Qed.

Lemma combineLines_keep_codeTs (a b : Js.jsstring) :
  filter keep (CodeTs.combineLines a b) = filter keep a ++ filter keep b.
Proof.
  unfold CodeTs.combineLines.
  rewrite <- (filter_keep_trimEnd a), <- (filter_keep_trimStart b).
  destruct (_ || _); [apply filter_app|].
  destruct (_ && _); rewrite !filter_app; [reflexivity|].
  cbn [filter]. now rewrite keep_space_false.
Qed.

Lemma combineLines_keep_part000 (a b : Js.jsstring) :
  filter keep (Part000.combineLines a b) = filter keep a ++ filter keep b.
Proof.
  unfold Part000.combineLines.
  rewrite <- (filter_keep_trimEnd a), <- (filter_keep_trimStart b).
  destruct (_ || _); [apply filter_app|].
  destruct (_ && _); rewrite !filter_app; [|reflexivity].
  cbn [filter]. now rewrite keep_space_false.
Qed.

Variable f : Js.jsstring -> bool.
Variable comb : Js.jsstring -> Js.jsstring -> Js.jsstring.
Hypothesis comb_keep :
  forall a b, filter keep (comb a b) = filter keep a ++ filter keep b.

Lemma fold_joinStep_keep (xs : list (Js.jsstring * bool)) :
  forall (r : list Js.jsstring) (c : Js.jsstring),
  filter keep (concat (fst (fold_left (joinStep comb) xs (r, c)))
               ++ snd (fold_left (joinStep comb) xs (r, c)))
  = filter keep (concat r ++ c) ++ filter keep (concat (map fst xs)).
Proof.
  induction xs as [|[l b] xs IH]; intros r c.
  - simpl. now rewrite app_nil_r.
  - cbn [fold_left map fst concat].
    set (combined := if Js.isEmpty c then l else comb c l).
    assert (Hcombined : filter keep combined = filter keep c ++ filter keep l).
    { unfold combined. destruct c; [reflexivity|].
      cbn [Js.isEmpty]. apply comb_keep. }
    change (joinStep comb (r, c) (l, b))
      with (if b then (r ++ [combined], []) else (r, combined)).
    destruct b; rewrite IH.
    + rewrite concat_app. cbn [concat]. rewrite !app_nil_r.
      rewrite !filter_app, Hcombined.
      now rewrite !app_assoc.
    + rewrite !filter_app, Hcombined. now rewrite !app_assoc.
Qed.

Lemma joinLines_keep (lines : list Js.jsstring) :
  filter keep (concat (joinLines f comb lines)) = filter keep (concat lines).
Proof.
  destruct (list_eq_dec (list_eq_dec Z.eq_dec) lines []) as [->|Hne];
    [reflexivity|].
  unfold joinLines.
  assert (H := fold_joinStep_keep (combine lines (shouldBreakAfter f lines))
                 [] []).
  assert (Hfl := fold_joinStep_flushed f comb lines ([], []) Hne).
  unfold Js.jsstring in *. rewrite Hfl in H.
  rewrite app_nil_r in H. rewrite H. cbn [concat app filter].
  f_equal. f_equal.
  clear. generalize (shouldBreakAfter_length f lines).
  generalize (shouldBreakAfter f lines) as flags.
  induction lines as [|l lines IH]; intros [|b flags] Hl; simpl in *;
    try discriminate; [reflexivity|].
  f_equal. apply IH. lia.
Qed.

Lemma join_keep (segs : list Js.jsstring) :
  filter keep (Js.join [Js.LF] segs) = filter keep (concat segs).
Proof.
  induction segs as [|x [|y segs] IH]; [reflexivity| |].
  - cbn [Js.join concat]. now rewrite app_nil_r.
  - change (Js.join [Js.LF] (x :: y :: segs))
      with (x ++ [Js.LF] ++ Js.join [Js.LF] (y :: segs)).
    change (concat (x :: y :: segs)) with (x ++ concat (y :: segs)).
    rewrite (filter_app keep x), (filter_app keep [Js.LF]), IH.
    rewrite (filter_app keep x). f_equal.
    cbn [filter]. now rewrite keep_LF_false.
Qed.

Lemma splitOn_keep (p : Z -> bool) (s : Js.jsstring) :
  (forall c, p c = true -> keep c = false) ->
  filter keep (concat (Js.splitOn p s)) = filter keep s.
Proof.
  intros Hp. induction s as [|c s IH]; [reflexivity|].
  cbn [Js.splitOn]. destruct (p c) eqn:Ec.
  - cbn [concat app filter]. now rewrite (Hp c Ec).
  - destruct (Js.splitOn p s) as [|l ls] eqn:Es.
    + exfalso. exact (splitOn_nonempty p s Es).
    + cbn [concat app filter] in *. rewrite <- IH.
      destruct (keep c); reflexivity.
Qed.

Lemma rejoinLines_keep (p : Z -> bool) (text : Js.jsstring) :
  (forall c, p c = true -> keep c = false) ->
  filter keep (rejoinLines f comb (Js.splitOn p text)) = filter keep text.
Proof.
  intros Hp. unfold rejoinLines.
  now rewrite join_keep, joinLines_keep, splitOn_keep.
Qed.

End KeptCharacters.

Lemma rejoin_keep_part000 (cfg : Part000.ProcessingConfig)
    (text : Js.jsstring) (containerWidth fontSize : float)
    (ignoreMinCharacters : bool) :
  filter (fun c => negb (Js.isWhiteSpace c))
    (Part000.removeLineBreaksJapanesePriority cfg text containerWidth
       fontSize ignoreMinCharacters)
  = filter (fun c => negb (Js.isWhiteSpace c)) text.
Proof.
  unfold Part000.removeLineBreaksJapanesePriority.
  destruct (_ && _); [reflexivity|].
  apply rejoinLines_keep.
  - intros c Hc. now apply negb_true_iff.
  - apply combineLines_keep_part000.
    intros c Hc. now apply negb_true_iff.
  - intros c Hc. apply Z.eqb_eq in Hc. now subst c.
Qed.

Lemma rejoin_keep_codeTs (cfg : CodeTs.ProcessingConfig)
    (text : Js.jsstring) (containerWidth fontSize : float)
    (ignoreMinCharacters : bool) :
  formsNoRange (CodeTs.softBreakChars cfg) = true ->
  exists out,
    CodeTs.removeLineBreaksJapanesePriority cfg text containerWidth
      fontSize ignoreMinCharacters = Some out
    /\ filter (fun c => negb (Js.isWhiteSpace c
                              || Spec.breakMatcher
                                   (CodeTs.softBreakChars cfg) c)) out
       = filter (fun c => negb (Js.isWhiteSpace c
                                || Spec.breakMatcher
                                     (CodeTs.softBreakChars cfg) c)) text.
Proof.
  intros Hclass. rewrite (rejoin_formsNoRange _ _ _ _ _ Hclass).
  eexists. split; [reflexivity|].
  destruct (_ && _); [reflexivity|].
  apply rejoinLines_keep.
  - intros c Hc. apply negb_true_iff, orb_false_iff in Hc. tauto.
  - apply combineLines_keep_codeTs.
    intros c Hc. apply negb_true_iff, orb_false_iff in Hc. tauto.
  - intros c Hc. rewrite Hc. now rewrite orb_true_r.
Qed.

(** X6: the rejoin changes white space only: the code units of the text
    that are not white space come out the same, in the same order
    (part_000); in src/code.ts also the configured soft breaks at which it
    splits are dropped, all other code units are kept. *)
Theorem rejoin_keeps_visible_characters
    (cfgA : CodeTs.ProcessingConfig) (cfgB : Part000.ProcessingConfig)
    (text : Js.jsstring) (containerWidth fontSize : float)
    (ignoreMinCharacters : bool)
    (Hclass : formsNoRange (CodeTs.softBreakChars cfgA) = true) :
  filter (fun c => negb (Js.isWhiteSpace c))
    (Part000.removeLineBreaksJapanesePriority cfgB text containerWidth
       fontSize ignoreMinCharacters)
  = filter (fun c => negb (Js.isWhiteSpace c)) text
  /\ exists out,
       CodeTs.removeLineBreaksJapanesePriority cfgA text containerWidth
         fontSize ignoreMinCharacters = Some out
       /\ filter (fun c => negb (Js.isWhiteSpace c
                                 || Spec.breakMatcher
                                      (CodeTs.softBreakChars cfgA) c)) out
          = filter (fun c => negb (Js.isWhiteSpace c
                                   || Spec.breakMatcher
                                        (CodeTs.softBreakChars cfgA) c)) text.
Proof. split; [apply rejoin_keep_part000|now apply rejoin_keep_codeTs]. Qed.

Lemma rejoin_keeps_visible_characters_witness :
  filter (fun c => negb (Js.isWhiteSpace c))
    (Part000.removeLineBreaksJapanesePriority Sample.config000
       Sample.twoSentences 400 16 true)
  = filter (fun c => negb (Js.isWhiteSpace c)) Sample.twoSentences.
Proof.
  exact (proj1 (rejoin_keeps_visible_characters CodeTs.DEFAULT_CONFIG
                  Sample.config000 Sample.twoSentences 400 16 true
                  eq_refl)).
Defined.

(** ** The rejoin never adds a break *)

Section RejoinCount.

Variable f : Js.jsstring -> bool.
Variable comb : Js.jsstring -> Js.jsstring -> Js.jsstring.

(** a class of code units that the lines are free of *)
Variable q : Z -> bool.

Hypothesis comb_free :
  forall a b, filter q a = [] -> filter q b = [] ->
              filter q (comb a b) = [].

Lemma fold_joinStep_count (xs : list (Js.jsstring * bool)) :
  forall (r : list Js.jsstring) (c : Js.jsstring),
  length (fst (fold_left (joinStep comb) xs (r, c)))
  = length r + length (filter (fun b => b) (map snd xs)).
Proof.
  induction xs as [|[l b] xs IH]; intros r c.
  - simpl. lia.
  - cbn [fold_left map snd filter].
    change (joinStep comb (r, c) (l, b))
      with (if b then (r ++ [if Js.isEmpty c then l else comb c l], [])
            else (r, if Js.isEmpty c then l else comb c l)).
    destruct b; rewrite IH; [rewrite length_app|]; simpl; lia.
Qed.

Lemma map_snd_combine {A B : Type} (a : list A) (b : list B) :
  length a = length b -> map snd (combine a b) = b.
Proof.
  revert b. induction a as [|x a IH]; intros [|y b] H; simpl in *;
    try discriminate; [reflexivity|].
  f_equal. apply IH. lia.
Qed.

(** one output line for every break that stays *)
Lemma joinLines_length (lines : list Js.jsstring) :
  length (joinLines f comb lines)
  = length (filter (fun b => b) (shouldBreakAfter f lines))
  /\ length (joinLines f comb lines) <= length lines.
Proof.
  assert (H : length (joinLines f comb lines)
              = length (filter (fun b => b) (shouldBreakAfter f lines))).
  { unfold joinLines. rewrite fold_joinStep_count.
    rewrite map_snd_combine by (now rewrite shouldBreakAfter_length).
    reflexivity. }
  split; [exact H|]. rewrite H.
  rewrite <- (shouldBreakAfter_length f lines). apply filter_length_le.
Qed.

Lemma fold_joinStep_free (xs : list (Js.jsstring * bool)) :
  forall (r : list Js.jsstring) (c : Js.jsstring),
  (forall x, In x xs -> filter q (fst x) = []) ->
  (forall s, In s r -> filter q s = []) ->
  filter q c = [] ->
  forall s, In s (fst (fold_left (joinStep comb) xs (r, c))) ->
            filter q s = [].
Proof.
  induction xs as [|[l b] xs IH]; intros r c Hxs Hr Hc s Hs.
  - now apply Hr.
  - cbn [fold_left] in Hs.
    set (combined := if Js.isEmpty c then l else comb c l) in *.
    assert (Hl : filter q l = [])
      by (apply (Hxs (l, b)); now left).
    assert (Hcombined : filter q combined = []).
    { unfold combined. destruct (Js.isEmpty c); [exact Hl|].
      now apply comb_free. }
    change (joinStep comb (r, c) (l, b))
      with (if b then (r ++ [combined], []) else (r, combined)) in Hs.
    destruct b.
    + apply (IH (r ++ [combined]) []); try assumption.
      * intros x Hx. apply Hxs. now right.
      * intros t Ht. apply in_app_or in Ht as [Ht|[<-|[]]];
          [now apply Hr|exact Hcombined].
      * reflexivity.
    + apply (IH r combined); try assumption.
      intros x Hx. apply Hxs. now right.
Qed.

Lemma joinLines_free (lines : list Js.jsstring) :
  (forall l, In l lines -> filter q l = []) ->
  forall s, In s (joinLines f comb lines) -> filter q s = [].
Proof.
  intros Hlines s Hs. unfold joinLines in Hs.
  apply (fold_joinStep_free _ [] []) with (4 := Hs).
  - intros [l b] Hx. apply in_combine_l in Hx. now apply Hlines.
  - intros t [].
  - reflexivity.
Qed.

End RejoinCount.

Lemma filter_none_app (q : Z -> bool) (s t : Js.jsstring) :
  filter q s = [] -> filter q t = [] ->
  filter q (s ++ t) = [].
Proof. intros Hs Ht. now rewrite filter_app, Hs, Ht. Qed.

Lemma filter_none_dropWhile (q p : Z -> bool) (s : Js.jsstring) :
  filter q s = [] ->
  filter q (Js.dropWhile p s) = [].
Proof.
  induction s as [|c s IH]; intros H; [reflexivity|].
  cbn [Js.dropWhile]. destruct (p c); [|exact H].
  apply IH. cbn [filter] in H. destruct (q c); [discriminate|exact H].
Qed.

Lemma filter_none_trimEnd (q : Z -> bool) (s : Js.jsstring) :
  filter q s = [] -> filter q (Js.trimEnd s) = [].
Proof.
  intros H. unfold Js.trimEnd.
  assert (Hrev : filter q (rev s) = [])
    by (now rewrite filter_rev, H).
  now rewrite filter_rev, (filter_none_dropWhile q _ _ Hrev).
Qed.

Lemma combineLines_free_codeTs (q : Z -> bool) (a b : Js.jsstring) :
  q Js.SPACE = false ->
  filter q a = [] -> filter q b = [] ->
  filter q (CodeTs.combineLines a b) = [].
Proof.
  intros Hq Ha Hb. unfold CodeTs.combineLines.
  pose proof (filter_none_trimEnd q a Ha) as Ha'.
  pose proof (filter_none_dropWhile q Js.isWhiteSpace b Hb) as Hb'.
  fold (Js.trimStart b) in Hb'.
  assert (Hsp : filter q [Js.SPACE] = []) by (cbn [filter]; now rewrite Hq).
  destruct (_ || _); [now apply filter_none_app|].
  destruct (_ && _); repeat apply filter_none_app; auto.
Qed.

Lemma combineLines_free_part000 (q : Z -> bool) (a b : Js.jsstring) :
  q Js.SPACE = false ->
  filter q a = [] -> filter q b = [] ->
  filter q (Part000.combineLines a b) = [].
Proof.
  intros Hq Ha Hb. unfold Part000.combineLines.
  pose proof (filter_none_trimEnd q a Ha) as Ha'.
  pose proof (filter_none_dropWhile q Js.isWhiteSpace b Hb) as Hb'.
  fold (Js.trimStart b) in Hb'.
  assert (Hsp : filter q [Js.SPACE] = []) by (cbn [filter]; now rewrite Hq).
  destruct (_ || _); [now apply filter_none_app|].
  destruct (_ && _); repeat apply filter_none_app; auto.
Qed.

Lemma join_count_breaks (segs : list Js.jsstring) :
  (forall s, In s segs -> filter (Z.eqb Js.LF) s = []) ->
  length (filter (Z.eqb Js.LF) (Js.join [Js.LF] segs)) = length segs - 1.
Proof.
  induction segs as [|x [|y segs] IH]; intros H; [reflexivity| |].
  - cbn [Js.join]. now rewrite (H x (or_introl eq_refl)).
  - change (Js.join [Js.LF] (x :: y :: segs))
      with (x ++ [Js.LF] ++ Js.join [Js.LF] (y :: segs)).
    rewrite !filter_app, !length_app, (H x (or_introl eq_refl)).
    rewrite IH by (intros s Hs; apply H; now right).
    cbn [filter length]. rewrite Z.eqb_refl. simpl. lia.
Qed.

Lemma filter_empty_iff (p : Z -> bool) (l : Js.jsstring) :
  (forall c, In c l -> p c = false) -> filter p l = [].
Proof.
  induction l as [|c l IH]; intros H; [reflexivity|].
  cbn [filter]. rewrite (H c (or_introl eq_refl)).
  apply IH. intros d Hd. apply H. now right.
Qed.

Lemma filter_length_mono (p q : Z -> bool) (l : Js.jsstring) :
  (forall c, p c = true -> q c = true) ->
  length (filter p l) <= length (filter q l).
Proof.
  intros H. induction l as [|c l IH]; [reflexivity|].
  cbn [filter]. destruct (p c) eqn:Ep.
  - rewrite (H c Ep). simpl. lia.
  - destruct (q c); simpl; lia.
Qed.

(** X7: the rejoin never adds a hard break: its output has at most as
    many hard breaks as the text has break characters (hard breaks in
    part_000, hard and configured soft breaks in src/code.ts). *)
Theorem rejoin_never_adds_breaks
    (cfgA : CodeTs.ProcessingConfig) (cfgB : Part000.ProcessingConfig)
    (text : Js.jsstring) (containerWidth fontSize : float)
    (ignoreMinCharacters : bool)
    (Hclass : formsNoRange (CodeTs.softBreakChars cfgA) = true) :
  length (filter (Z.eqb Js.LF)
            (Part000.removeLineBreaksJapanesePriority cfgB text
               containerWidth fontSize ignoreMinCharacters))
  <= length (filter (Z.eqb Js.LF) text)
  /\ exists out,
       CodeTs.removeLineBreaksJapanesePriority cfgA text containerWidth
         fontSize ignoreMinCharacters = Some out
       /\ length (filter (Z.eqb Js.LF) out)
          <= length (filter
                       (Spec.breakMatcher (CodeTs.softBreakChars cfgA))
                       text).
Proof.
  split.
  - unfold Part000.removeLineBreaksJapanesePriority.
    destruct (_ && _); [reflexivity|]. unfold rejoinLines.
    rewrite join_count_breaks.
    + pose proof (proj2 (joinLines_length
                           (Part000.breakAfterLine cfgB containerWidth fontSize)
                           Part000.combineLines
                           (Js.splitOn (Z.eqb Js.LF) text))) as H.
      rewrite splitOn_length in H. lia.
    + apply joinLines_free;
        [intros a b; now apply combineLines_free_part000|].
      intros l Hl. apply filter_empty_iff. intros c Hc.
      apply (splitOn_lines_clean _ _ l Hl c Hc).
  - rewrite (rejoin_formsNoRange _ _ _ _ _ Hclass).
    eexists. split; [reflexivity|].
    set (matches := Spec.breakMatcher (CodeTs.softBreakChars cfgA)).
    assert (Hsub : forall c, (Js.LF =? c)%Z = true -> matches c = true).
    { intros c Hc. apply Z.eqb_eq in Hc. subst c.
      apply breakMatcher_LF. }
    destruct (_ && _); [now apply filter_length_mono|]. unfold rejoinLines.
    rewrite join_count_breaks.
    + pose proof (proj2 (joinLines_length
                           (CodeTs.breakAfterLine cfgA containerWidth fontSize)
                           CodeTs.combineLines
                           (Js.splitOn matches text))) as H.
      rewrite splitOn_length in H. lia.
    + apply joinLines_free;
        [intros a b; now apply combineLines_free_codeTs|].
      intros l Hl. apply filter_empty_iff. intros c Hc.
      destruct (Js.LF =? c)%Z eqn:E; [|reflexivity].
      specialize (Hsub c E).
      rewrite (splitOn_lines_clean _ _ l Hl c Hc) in Hsub. discriminate.
Qed.

Lemma rejoin_never_adds_breaks_witness :
  exists out,
    CodeTs.removeLineBreaksJapanesePriority CodeTs.DEFAULT_CONFIG
      Sample.softBrokenText 400 16 true = Some out
    /\ length (filter (Z.eqb Js.LF) out) <= 1.
Proof.
  exact (proj2 (rejoin_never_adds_breaks CodeTs.DEFAULT_CONFIG
                  Sample.config000 Sample.softBrokenText 400 16 true
                  eq_refl)).
Defined.

(** ** What the conversion leaves *)

Lemma replace_chain_LF (S : list Z) :
  fold_left (fun y c => if (y =? c)%Z then Js.LF else y) S Js.LF = Js.LF.
Proof.
  induction S as [|c S IH]; [reflexivity|].
  cbn [fold_left]. destruct (Js.LF =? c)%Z; exact IH.
Qed.

Lemma replace_chain_other (S : list Z) (x : Z) :
  ~ In x S ->
  fold_left (fun y c => if (y =? c)%Z then Js.LF else y) S x = x.
Proof.
  revert x. induction S as [|c S IH]; intros x Hx; [reflexivity|].
  cbn [fold_left]. destruct (Z.eqb_spec x c) as [->|Hne].
  - exfalso. apply Hx. now left.
  - apply IH. intros H. apply Hx. now right.
Qed.

Lemma replace_chain_member (S : list Z) (x : Z) :
  In x S ->
  fold_left (fun y c => if (y =? c)%Z then Js.LF else y) S x = Js.LF.
Proof.
  revert x. induction S as [|c S IH]; intros x Hx; [destruct Hx|].
  cbn [fold_left]. destruct (Z.eqb_spec x c) as [->|Hne]; [apply replace_chain_LF|].
  apply IH. destruct Hx as [->|Hx]; [congruence|exact Hx].
Qed.

Lemma splitOn_map (p : Z -> bool) (g : Z -> Z) (s : Js.jsstring) :
  (forall x, p (g x) = p x) ->
  (forall x, p x = false -> g x = x) ->
  Js.splitOn p (map g s) = Js.splitOn p s.
Proof.
  intros Hp Hg. induction s as [|c s IH]; [reflexivity|].
  cbn [map Js.splitOn]. rewrite Hp, IH.
  destruct (p c) eqn:E; [reflexivity|]. now rewrite (Hg c E).
Qed.

Lemma convert_literal_as_map (soft : list Z) (text : Js.jsstring) :
  forallb isLiteralPattern soft = true ->
  convertSoftBreaksToHard soft text
  = Some (map (fun x => if existsb (Z.eqb x) soft then Js.LF else x) text).
Proof.
  intros Hliteral.
  rewrite (convert_literal_map soft text Hliteral). f_equal.
  apply map_ext. intros x.
  destruct (existsb (Z.eqb x) soft) eqn:E.
  - apply replace_chain_member. apply existsb_exists in E as (y & Hy & Hxy).
    apply Z.eqb_eq in Hxy. now subst y.
  - apply replace_chain_other. intros Hin.
    assert (existsb (Z.eqb x) soft = true)
      by (apply existsb_exists; exists x; split;
          [exact Hin|apply Z.eqb_refl]).
    congruence.
Qed.

(** X8: when no configured soft break is a pattern character, the
    conversion replaces code unit by code unit: the text keeps its length,
    every soft break has become a hard break, every other code unit is
    untouched; the detector then counts no soft break, and the text splits
    into the same lines as before. *)
Theorem convert_replaces_every_soft_break
    (cfg : CodeTs.ProcessingConfig) (text : Js.jsstring)
    (Hliteral : forallb isLiteralPattern (CodeTs.softBreakChars cfg) = true)
    (Hclass : formsNoRange (CodeTs.softBreakChars cfg) = true) :
  exists converted,
    convertSoftBreaksToHard (CodeTs.softBreakChars cfg) text = Some converted
    /\ converted
       = map (fun x => if existsb (Z.eqb x) (CodeTs.softBreakChars cfg)
                       then Js.LF else x) text
    /\ length converted = length text
    /\ (forall c, In c (CodeTs.softBreakChars cfg) -> c <> Js.LF ->
                  ~ In c converted)
    /\ (~ In Js.LF (CodeTs.softBreakChars cfg) ->
        CodeTs.countSoftBreaks cfg converted = 0)
    /\ Js.splitOn (Spec.breakMatcher (CodeTs.softBreakChars cfg)) converted
       = Js.splitOn (Spec.breakMatcher (CodeTs.softBreakChars cfg)) text
    /\ exists matches,
         CodeTs.breakPattern cfg = Some matches
         /\ Js.splitOn matches converted = Js.splitOn matches text.
Proof.
  set (S := CodeTs.softBreakChars cfg) in *.
  set (g := fun x => if existsb (Z.eqb x) S then Js.LF else x).
  assert (Hconv : convertSoftBreaksToHard S text = Some (map g text))
    by (apply convert_literal_as_map; exact Hliteral).
  assert (Hgone : forall c, In c S -> c <> Js.LF -> ~ In c (map g text)).
  { intros c Hc Hne Hin. apply in_map_iff in Hin as (x & Hx & _).
    unfold g in Hx. destruct (existsb (Z.eqb x) S) eqn:E; [congruence|].
    subst x.
    assert (existsb (Z.eqb c) S = true)
      by (apply existsb_exists; exists c; split;
          [exact Hc|apply Z.eqb_refl]).
    congruence. }
  exists (map g text).
  split; [exact Hconv|]. split; [reflexivity|].
  split; [apply length_map|]. split; [exact Hgone|]. split.
  - intros HLF.
    destruct (Nat.eq_dec (CodeTs.countSoftBreaks cfg (map g text)) 0)
      as [E|E]; [exact E|].
    assert (Hpos : 0 < CodeTs.countSoftBreaks cfg (map g text)) by lia.
    apply countSoftBreaks_positive in Hpos as (c & Hc & Hin).
    exfalso. apply (Hgone c Hc); [|exact Hin].
    intros ->. now apply HLF.
  - assert (Hsame : Js.splitOn (Spec.breakMatcher S) (map g text)
                    = Js.splitOn (Spec.breakMatcher S) text).
    { apply splitOn_map.
      - intros x. unfold g, Spec.breakMatcher. cbn [existsb].
        destruct (existsb (Z.eqb x) S) eqn:E.
        + now rewrite Z.eqb_refl, orb_true_r.
        + now rewrite E.
      - intros x Hx. unfold g, Spec.breakMatcher in *.
        cbn [existsb] in Hx. apply orb_false_iff in Hx as [_ Hx].
        now rewrite Hx. }
    split; [exact Hsame|].
    destruct (breakPattern_formsNoRange cfg Hclass) as (m & Hm & Hs).
    exists m. split; [exact Hm|]. fold S in Hs. now rewrite !Hs.
Qed.

Lemma convert_replaces_every_soft_break_witness :
  convertSoftBreaksToHard (CodeTs.softBreakChars CodeTs.DEFAULT_CONFIG)
    [65; 8232; 66; 8232; 67]%Z
  = Some [65; 10; 66; 10; 67]%Z.
Proof.
  destruct (convert_replaces_every_soft_break CodeTs.DEFAULT_CONFIG
              [65; 8232; 66; 8232; 67]%Z eq_refl eq_refl)
    as (converted & Hconv & Hmap & _).
  rewrite Hconv, Hmap. reflexivity.
Defined.

(** ** Character classes of the estimator *)

(** X9: the half-width Katakana U+FF61..U+FF9F lie inside the full-width
    forms U+FF00..U+FFEF, which are tested first: both estimators give
    them the full-width weight, the half-width branch is never taken for
    them. *)
Theorem halfwidth_katakana_counts_full_width
    (cfgA : CodeTs.ProcessingConfig) (cfgB : Part000.ProcessingConfig)
    (fontSize : float) (c : Z)
    (Hc : (0xFF61 <= c <= 0xFF9F)%Z) :
  Js.inRange 0xFF61 0xFF9F c = true
  /\ CodeTs.charWidth cfgA fontSize c
     = (fontSize * Js.orDefault (CodeTs.fontWidthMultiplier cfgA) 1)%float
  /\ Part000.getFallbackCharacterWidth cfgB c fontSize
     = (fontSize * Js.orDefault (Part000.fontWidthMultiplier cfgB) 1 * 1)%float.
Proof.
  assert (Hfull : CodeTs.isFullWidthCharacter c = true).
  { unfold CodeTs.isFullWidthCharacter, Js.inRange.
    apply orb_true_iff. left. apply orb_true_iff. right.
    apply andb_true_iff. split; apply Z.leb_le; lia. }
  split; [|split].
  - unfold Js.inRange. apply andb_true_iff. split; apply Z.leb_le; lia.
  - unfold CodeTs.charWidth. now rewrite Hfull.
  - unfold Part000.getFallbackCharacterWidth.
    change (Part000.isFullWidthCharacter c)
      with (CodeTs.isFullWidthCharacter c).
    rewrite Hfull.
    assert (Hp : Part000.isPunctuation c = false).
    { unfold Part000.isPunctuation.
      destruct (existsb _ _) eqn:E; [|reflexivity].
      apply existsb_exists in E as (x & Hx & Hcx). apply Z.eqb_eq in Hcx.
      subst x. simpl in Hx.
      repeat (destruct Hx as [Hx|Hx]; [lia|]). destruct Hx. }
    now rewrite Hp.
Qed.

Lemma halfwidth_katakana_witness :
  CodeTs.charWidth CodeTs.DEFAULT_CONFIG 16 0xFF71 = 16%float.
Proof.
  rewrite (proj1 (proj2 (halfwidth_katakana_counts_full_width
                           CodeTs.DEFAULT_CONFIG Sample.config000 16 0xFF71
                           ltac:(lia)))).
  reflexivity.
Defined.

(** ** What the word wrap keeps *)

Lemma concat_consHead (c : Z) (ts : list Js.jsstring) :
  concat (Js.consHead c ts) = c :: concat ts.
Proof. destruct ts; reflexivity. Qed.

(** the tokens of a paragraph, put together, are the paragraph *)
Lemma concat_tokens (s : Js.jsstring) :
  forall inWs, concat (Js.tokens inWs s) = s.
Proof.
  induction s as [|c s IH]; intros inWs.
  - now destruct inWs.
  - cbn [Js.tokens].
    destruct (Js.isWhiteSpace c), inWs; cbn [concat app];
      now rewrite concat_consHead, IH.
Qed.

Section WordWrapContent.

Variable est : Js.jsstring -> float -> float.
Variable bp : Z -> bool.
Variable containerWidth fontSize' : float.

Let step := wrapStep est containerWidth fontSize'.
Let paragraph := wrapParagraph est containerWidth fontSize'.
Let fits (line : Js.jsstring) : Prop :=
  (est line fontSize' <=? containerWidth)%float = true.

Lemma wrapStep_cases (lines : list Js.jsstring) (cur word : Js.jsstring) :
  (step (lines, cur) word = (lines, cur ++ word)
   /\ (fits (cur ++ word) \/ cur = []))
  \/ (step (lines, cur) word = (lines ++ [cur], word) /\ cur <> []).
Proof.
  unfold step, wrapStep, fits.
  destruct (est (cur ++ word) fontSize' <=? containerWidth)%float;
    [left; split; [reflexivity|now left]|].
  destruct cur as [|c cur]; [left; split; [reflexivity|now right]|].
  right. split; [reflexivity|discriminate].
Qed.

Lemma fold_wrapStep_concat (words : list Js.jsstring) :
  forall (lines : list Js.jsstring) (cur : Js.jsstring),
  concat (fst (fold_left step words (lines, cur)))
    ++ snd (fold_left step words (lines, cur))
  = concat lines ++ cur ++ concat words.
Proof.
  induction words as [|w words IH]; intros lines cur.
  - simpl. now rewrite app_nil_r.
  - cbn [fold_left concat].
    destruct (wrapStep_cases lines cur w) as [[-> _]|[-> _]]; rewrite IH.
    + now rewrite <- app_assoc.
    + rewrite concat_app. cbn [concat]. now rewrite app_nil_r, <- !app_assoc.
Qed.

(** every line is a token or fits, and so does the line being filled *)
Lemma fold_wrapStep_fit (tokens words : list Js.jsstring) :
  forall (lines : list Js.jsstring) (cur : Js.jsstring),
  (forall w, In w words -> In w tokens) ->
  (forall l, In l lines -> l <> [] /\ (In l tokens \/ fits l)) ->
  (cur = [] \/ In cur tokens \/ fits cur) ->
  (forall l, In l (fst (fold_left step words (lines, cur))) ->
             l <> [] /\ (In l tokens \/ fits l))
  /\ (snd (fold_left step words (lines, cur)) = []
      \/ In (snd (fold_left step words (lines, cur))) tokens
      \/ fits (snd (fold_left step words (lines, cur)))).
Proof.
  induction words as [|w words IH]; intros lines cur Hw Hlines Hcur.
  - split; assumption.
  - cbn [fold_left].
    assert (Hw' : forall x, In x words -> In x tokens)
      by (intros x Hx; apply Hw; now right).
    destruct (wrapStep_cases lines cur w) as [[-> Hacc]|[-> Hne]];
      apply IH; try assumption.
    + destruct Hacc as [Hfit| ->]; [now right; right|].
      right. left. apply Hw. now left.
    + intros l Hl. apply in_app_or in Hl as [Hl|[<-|[]]];
        [now apply Hlines|].
      split; [exact Hne|]. destruct Hcur as [Hc|Hc]; [congruence|exact Hc].
    + right. left. apply Hw. now left.
Qed.

Lemma wrapParagraph_content (p : Js.jsstring) :
  Js.trim p <> [] -> concat (paragraph [] p) = p.
Proof.
  intros Hne. unfold paragraph, wrapParagraph.
  destruct (Js.trim p) as [|c t]; [congruence|]. cbn [Js.isEmpty].
  cbv zeta. fold step.
  assert (H := fold_wrapStep_concat (Js.splitWs p) [] []).
  unfold Js.jsstring in *.
  destruct (fold_left step (Js.splitWs p) ([], [])) as [ls cur].
  cbn [fst snd concat app] in H.
  unfold Js.splitWs in H. rewrite concat_tokens in H.
  destruct cur as [|x cur]; cbn [Js.isEmpty negb].
  - now rewrite app_nil_r in H.
  - rewrite concat_app. cbn [concat]. now rewrite app_nil_r.
Qed.

Lemma wrapParagraph_fit (p : Js.jsstring) :
  Js.trim p <> [] ->
  forall l, In l (paragraph [] p) ->
            l <> [] /\ (In l (Js.splitWs p) \/ fits l).
Proof.
  intros Hne l Hl. unfold paragraph, wrapParagraph in Hl.
  destruct (Js.trim p) as [|c t]; [congruence|]. cbn [Js.isEmpty] in Hl.
  cbv zeta in Hl. fold step in Hl.
  assert (H := fold_wrapStep_fit (Js.splitWs p) (Js.splitWs p) [] []
                 (fun w Hw => Hw)
                 (fun l (Hl : In l []) => match Hl with end)
                 (or_introl eq_refl)).
  unfold Js.jsstring in *.
  destruct (fold_left step (Js.splitWs p) ([], [])) as [ls cur].
  cbn [fst snd] in H. destruct H as [Hls Hcur].
  destruct cur as [|x cur]; cbn [Js.isEmpty negb] in Hl.
  - now apply Hls.
  - apply in_app_or in Hl as [Hl|[<-|[]]]; [now apply Hls|].
    split; [discriminate|].
    destruct Hcur as [Hc|Hc]; [discriminate|exact Hc].
Qed.

End WordWrapContent.

(** X10: the word wrap of a paragraph that is not blank loses nothing and
    invents nothing: its lines, put together, are the paragraph; no line
    is empty; and a line is wider than the container only when it is a
    single token of the paragraph (a word or a run of white space). *)
Theorem wrapParagraph_partitions_paragraph
    (est : Js.jsstring -> float -> float)
    (containerWidth fontSize : float) (p : Js.jsstring)
    (Hp : Js.trim p <> []) :
  let lines := wrapParagraph est containerWidth fontSize [] p in
  concat lines = p
  /\ (forall l, In l lines ->
        l <> []
        /\ (In l (Js.splitWs p)
            \/ (est l fontSize <=? containerWidth)%float = true)).
Proof.
  split.
  - now apply wrapParagraph_content.
  - now apply wrapParagraph_fit.
Qed.

Lemma wrapParagraph_partitions_witness :
  concat (wrapParagraph (CodeTs.estimateTextWidth CodeTs.DEFAULT_CONFIG)
            20 16 [] [97; 97; 32; 98; 98]%Z)
  = [97; 97; 32; 98; 98]%Z.
Proof.
  exact (proj1 (wrapParagraph_partitions_paragraph
                  (CodeTs.estimateTextWidth CodeTs.DEFAULT_CONFIG) 20 16
                  [97; 97; 32; 98; 98]%Z ltac:(discriminate))).
Defined.

(** ** What an analysis result says *)

Lemma detectAutoWidthIssues_types (cfg : CodeTs.ProcessingConfig)
    (node : TextNode) :
  exists a : bool,
    map CodeTs.type (CodeTs.detectAutoWidthIssues cfg node)
    = if a then [AutoWidth] else [].
Proof.
  unfold CodeTs.detectAutoWidthIssues.
  destruct (_ && _); [|now exists false].
  destruct (CodeTs.getLineNumbers _ _); [now exists true|now exists false].
Qed.

Lemma detectEdgeBreaking_types (cfg : CodeTs.ProcessingConfig)
    (node : TextNode) :
  exists e : bool,
    map CodeTs.type (CodeTs.detectEdgeBreaking cfg node)
    = if e then [EdgeBreaking] else [].
Proof.
  unfold CodeTs.detectEdgeBreaking.
  destruct (_ || _); [|now exists false].
  destruct (CodeTs.findEdgeBreakingLines _ _ _ _); [|now exists false].
  destruct (_ <? _); [now exists true|now exists false].
Qed.

Lemma detectSoftBreaks_types (cfg : CodeTs.ProcessingConfig)
    (node : TextNode) :
  exists s : bool,
    map CodeTs.type (CodeTs.detectSoftBreaks cfg node)
    = if s then [SoftBreak] else [].
Proof.
  unfold CodeTs.detectSoftBreaks.
  destruct (_ =? _)%float; [|now exists false].
  destruct (_ <? _); [|now exists false].
  destruct (CodeTs.getSoftBreakLines _ _); [now exists true|now exists false].
Qed.

(** X11: the analysis of a node always returns the node and its text; a node
    with a missing font, a locked or hidden node and a text shorter than
    [minCharacters] get no issue; otherwise there is at most one issue of
    each kind, in the order auto-width, edge-breaking, soft-break, and only
    of the kinds that are enabled. *)
Theorem analyzeTextNode_structure (cfg : CodeTs.ProcessingConfig)
    (node : TextNode) :
  let result := CodeTs.analyzeTextNode cfg node in
  CodeTs.node result = node
  /\ CodeTs.originalText result = characters node
  /\ (hasMissingFont node = true \/ locked node = true
      \/ visible node = false
      \/ (Z.of_nat (length (characters node)) < CodeTs.minCharacters cfg)%Z ->
      CodeTs.issues result = [])
  /\ (exists a e s : bool,
         map CodeTs.type (CodeTs.issues result)
         = (if a then [AutoWidth] else [])
             ++ (if e then [EdgeBreaking] else [])
             ++ (if s then [SoftBreak] else []))
  /\ (forall issue, In issue (CodeTs.issues result) ->
        CodeTs.enabled cfg (CodeTs.type issue) = true).
Proof.
  cbv zeta. unfold CodeTs.analyzeTextNode.
  destruct (hasMissingFont node) eqn:Efont.
  { cbn [CodeTs.node CodeTs.originalText CodeTs.issues map].
    split; [reflexivity|]. split; [reflexivity|].
    split; [intros _; reflexivity|].
    split; [now exists false, false, false|intros issue []]. }
  destruct (locked node || negb (visible node)) eqn:Elock.
  { cbn [CodeTs.node CodeTs.originalText CodeTs.issues map].
    split; [reflexivity|]. split; [reflexivity|].
    split; [intros _; reflexivity|].
    split; [now exists false, false, false|intros issue []]. }
  destruct (Z.of_nat (length (characters node)) <? CodeTs.minCharacters cfg)%Z
    eqn:Eshort.
  { cbn [CodeTs.node CodeTs.originalText CodeTs.issues map].
    split; [reflexivity|]. split; [reflexivity|].
    split; [intros _; reflexivity|].
    split; [now exists false, false, false|intros issue []]. }
  cbn [CodeTs.node CodeTs.originalText CodeTs.issues].
  apply orb_false_iff in Elock as [Hlocked Hvisible].
  apply negb_false_iff in Hvisible. apply Z.ltb_ge in Eshort.
  split; [reflexivity|]. split; [reflexivity|]. split; [|split].
  - intros [H|[H|[H|H]]]; try congruence. lia.
  - destruct (detectAutoWidthIssues_types cfg node) as [a Ha].
    destruct (detectEdgeBreaking_types cfg node) as [e He].
    destruct (detectSoftBreaks_types cfg node) as [s Hs].
    exists (CodeTs.enabled cfg AutoWidth && a),
      (CodeTs.enabled cfg EdgeBreaking && e),
      (CodeTs.enabled cfg SoftBreak && s).
    rewrite !map_app.
    destruct (CodeTs.enabled cfg AutoWidth),
      (CodeTs.enabled cfg EdgeBreaking), (CodeTs.enabled cfg SoftBreak);
      cbn [andb map]; rewrite ?Ha, ?He, ?Hs; reflexivity.
  - intros issue Hin.
    assert (Hty : forall (l : list CodeTs.DetectedIssue) (b : bool)
                         (d : DetectionType),
               map CodeTs.type l = (if b then [d] else []) ->
               In issue l -> CodeTs.type issue = d).
    { intros l b d Hl Hi. apply (in_map CodeTs.type) in Hi.
      rewrite Hl in Hi. destruct b; [|destruct Hi]. now destruct Hi. }
    destruct (detectAutoWidthIssues_types cfg node) as [a Ha].
    destruct (detectEdgeBreaking_types cfg node) as [e He].
    destruct (detectSoftBreaks_types cfg node) as [s Hs].
    apply in_app_or in Hin as [Hin|Hin];
      [|apply in_app_or in Hin as [Hin|Hin]].
    + destruct (CodeTs.enabled cfg AutoWidth) eqn:E; [|destruct Hin].
      now rewrite (Hty _ _ _ Ha Hin).
    + destruct (CodeTs.enabled cfg EdgeBreaking) eqn:E; [|destruct Hin].
      now rewrite (Hty _ _ _ He Hin).
    + destruct (CodeTs.enabled cfg SoftBreak) eqn:E; [|destruct Hin].
      now rewrite (Hty _ _ _ Hs Hin).
Qed.

(** the pairs of [lines.forEach((line, index) => ...)] *)
Lemma combine_seq_In {A : Type} (lines : list A) :
  forall (start index : nat) (line : A),
  In (index, line) (combine (seq start (length lines)) lines)
  <-> start <= index /\ nth_error lines (index - start) = Some line.
Proof.
  induction lines as [|l lines IH]; intros start index line.
  - simpl. split; [tauto|]. intros [_ H]. destruct (index - start); discriminate.
  - cbn [length seq combine In]. rewrite IH. split.
    + intros [Heq|[Hle Hn]].
      * injection Heq as <- <-. now rewrite Nat.sub_diag.
      * split; [lia|].
        replace (index - start) with (S (index - S start)) by lia.
        exact Hn.
    + intros [Hle Hn]. destruct (Nat.eq_dec start index) as [<-|Hne].
      * left. rewrite Nat.sub_diag in Hn. now injection Hn as ->.
      * right. split; [lia|].
        replace (index - start) with (S (index - S start)) in Hn by lia.
        exact Hn.
Qed.

Lemma findEdgeBreakingLines_In (cfg : CodeTs.ProcessingConfig)
    (text : Js.jsstring) (containerWidth fontSize : float)
    (suspiciousLines : list nat) (k : nat) :
  CodeTs.findEdgeBreakingLines cfg text containerWidth fontSize
  = Some suspiciousLines ->
  exists lines,
    CodeTs.simulateWordWrap cfg text containerWidth fontSize = Some lines
    /\ (In k suspiciousLines
        <-> exists index line,
              k = index + 1
              /\ nth_error lines index = Some line
              /\ Js.trim line <> []
              /\ (CodeTs.lineBreakThreshold cfg
                  <=? CodeTs.estimateTextWidth cfg (Js.trim line) fontSize
                      / containerWidth)%float = true).
Proof.
  unfold CodeTs.findEdgeBreakingLines. cbv zeta.
  destruct (CodeTs.simulateWordWrap cfg text containerWidth fontSize)
    as [lines|]; [|discriminate].
  intros H. injection H as <-. exists lines. split; [reflexivity|].
  rewrite in_flat_map. split.
  - intros ([index line] & Hin & Hk).
    apply combine_seq_In in Hin as [_ Hnth]. rewrite Nat.sub_0_r in Hnth.
    exists index, line.
    destruct (Js.trim line) as [|c t] eqn:Et; [destruct Hk|].
    cbn [Js.isEmpty negb] in Hk.
    destruct (_ <=? _)%float eqn:Er; [|destruct Hk].
    destruct Hk as [<-|[]]. repeat split; [exact Hnth|discriminate].
  - intros (index & line & -> & Hnth & Htrim & Hratio).
    exists (index, line). split.
    + apply combine_seq_In. split; [lia|]. now rewrite Nat.sub_0_r.
    + destruct (Js.trim line) as [|c t]; [congruence|].
      cbn [Js.isEmpty negb]. rewrite Hratio. now left.
Qed.

(** X12: every issue stands for something in the node: an auto-width issue for
    a hard break in the text of a node that is not TRUNCATE, an
    edge-breaking issue for at least one simulated line that is not blank
    and whose width ratio is not below the threshold, in a NONE or HEIGHT
    node, a soft-break issue for a configured soft break in a text with
    paragraph spacing 0. *)
Theorem analyzeTextNode_issues_are_founded (cfg : CodeTs.ProcessingConfig)
    (node : TextNode) (issue : CodeTs.DetectedIssue)
    (Hclass : formsNoRange (CodeTs.softBreakChars cfg) = true)
    (Hissue : In issue (CodeTs.issues (CodeTs.analyzeTextNode cfg node))) :
  match CodeTs.type issue with
  | AutoWidth =>
      CodeTs.confidence issue = 0.9%float
      /\ In Js.LF (characters node)
      /\ textAutoResize node <> TRUNCATE
  | EdgeBreaking =>
      CodeTs.confidence issue = 0.7%float
      /\ (textAutoResize node = NONE \/ textAutoResize node = HEIGHT)
      /\ CodeTs.lineNumbers issue <> []
      /\ forall k, In k (CodeTs.lineNumbers issue) ->
           exists lines line,
             CodeTs.simulateWordWrap cfg (characters node) (width node)
               (getFontSize node) = Some lines
             /\ nth_error lines (k - 1) = Some line
             /\ Js.trim line <> []
             /\ (CodeTs.lineBreakThreshold cfg
                 <=? CodeTs.estimateTextWidth cfg (Js.trim line)
                       (getFontSize node) / width node)%float = true
  | SoftBreak =>
      CodeTs.confidence issue = 0.8%float
      /\ (paragraphSpacing node =? 0)%float = true
      /\ exists c, In c (CodeTs.softBreakChars cfg)
                   /\ In c (characters node)
  end.
Proof.
  unfold CodeTs.analyzeTextNode in Hissue.
  destruct (hasMissingFont node); [destruct Hissue|].
  destruct (_ || _); [destruct Hissue|].
  destruct (_ <? _)%Z; [destruct Hissue|].
  cbn [CodeTs.issues] in Hissue.
  apply in_app_or in Hissue as [H|H];
    [|apply in_app_or in H as [H|H]].
  - destruct (CodeTs.enabled cfg AutoWidth); [|destruct H].
    unfold CodeTs.detectAutoWidthIssues in H.
    destruct (_ && _) eqn:E; [|destruct H].
    destruct (CodeTs.getLineNumbers _ _); [|destruct H].
    destruct H as [<-|[]].
    cbn [CodeTs.type CodeTs.confidence].
    apply andb_prop in E as [Emode Ebreak].
    split; [reflexivity|]. split.
    + unfold CodeTs.containsHardBreak in Ebreak.
      apply existsb_exists in Ebreak as (c & Hc & Heq).
      apply Z.eqb_eq in Heq. now subst c.
    + intros Ht. rewrite Ht in Emode. discriminate Emode.
  - destruct (CodeTs.enabled cfg EdgeBreaking); [|destruct H].
    unfold CodeTs.detectEdgeBreaking in H.
    destruct (_ || _) eqn:Emode; [|destruct H].
    destruct (CodeTs.findEdgeBreakingLines _ _ _ _)
      as [suspiciousLines|] eqn:Efind; [|destruct H].
    destruct (0 <? _) eqn:Elen; [|destruct H]. destruct H as [<-|[]].
    cbn [CodeTs.type CodeTs.confidence CodeTs.lineNumbers].
    split; [reflexivity|]. split; [|split].
    + destruct (textAutoResize node); auto; discriminate Emode.
    + apply Nat.ltb_lt in Elen. intros E. rewrite E in Elen.
      simpl in Elen. lia.
    + intros k Hk.
      destruct (findEdgeBreakingLines_In _ _ _ _ _ k Efind)
        as (lines & Hsim & Hin).
      destruct (proj1 Hin Hk) as (index & line & Heq & Hnth & Htrim & Hratio).
      exists lines, line. rewrite Heq.
      replace (index + 1 - 1) with index by lia. auto.
  - destruct (CodeTs.enabled cfg SoftBreak); [|destruct H].
    pose proof (proj2 (detectSoftBreaks_cases cfg node Hclass) issue H)
      as Hi.
    assert (Hne : CodeTs.detectSoftBreaks cfg node <> [])
      by (intros E; rewrite E in H; destruct H).
    subst issue. cbn [CodeTs.type CodeTs.confidence].
    split; [reflexivity|].
    exact (proj1 (proj1 (detectSoftBreaks_cases cfg node Hclass)) Hne).
Qed.

Lemma analyzeTextNode_issues_witness :
  CodeTs.confidence (CodeTs.mkIssue AutoWidth 0.9 [1]) = 0.9%float
  /\ In Js.LF (characters Sample.autoHeightNode)
  /\ textAutoResize Sample.autoHeightNode <> TRUNCATE.
Proof.
  exact (analyzeTextNode_issues_are_founded CodeTs.DEFAULT_CONFIG
           Sample.autoHeightNode (CodeTs.mkIssue AutoWidth 0.9 [1])
           eq_refl (or_introl eq_refl)).
Defined.

(** ** Validation of the nodes *)

Lemma fold_validateStep (nodes : list TextNode) :
  forall processable issues,
  fold_left Processing.validateStep nodes (processable, issues)
  = (processable
       ++ filter (fun node => negb (hasMissingFont node)
                              && negb (locked node) && visible node) nodes,
     issues
       ++ flat_map
            (fun node =>
               if hasMissingFont node then [(node, Processing.MissingFont)]
               else if locked node then [(node, Processing.NodeIsLocked)]
               else if negb (visible node)
               then [(node, Processing.NodeIsHidden)]
               else []) nodes).
Proof.
  induction nodes as [|node nodes IH]; intros processable issues.
  - cbn [fold_left filter flat_map]. now rewrite !app_nil_r.
  - cbn [fold_left filter flat_map]. unfold Processing.validateStep at 2.
    destruct (hasMissingFont node); [|destruct (locked node);
      [|destruct (visible node)]]; cbn [negb andb app];
      rewrite IH, <- ?app_assoc; reflexivity.
Qed.

(** X13: [validateNodesForProcessing] splits the nodes, keeping their
    order: the processable ones have their fonts, are not locked and are
    visible; every other node gets one issue, whose reason is the first
    of missing font, locked, hidden that applies. *)
Theorem validateNodesForProcessing_partitions (nodes : list TextNode) :
  let '(processable, issues) := Processing.validateNodesForProcessing nodes in
  processable
  = filter (fun node => negb (hasMissingFont node)
                        && negb (locked node) && visible node) nodes
  /\ map fst issues
     = filter (fun node => hasMissingFont node || locked node
                           || negb (visible node)) nodes
  /\ (forall node reason,
        In (node, reason) issues ->
        reason = if hasMissingFont node then Processing.MissingFont
                 else if locked node then Processing.NodeIsLocked
                 else Processing.NodeIsHidden)
  /\ length processable + length issues = length nodes.
Proof.
  unfold Processing.validateNodesForProcessing.
  rewrite fold_validateStep. cbn [app].
  split; [reflexivity|]. split; [|split].
  - induction nodes as [|node nodes IH]; [reflexivity|].
    cbn [flat_map filter]. rewrite map_app, IH.
    destruct (hasMissingFont node); [reflexivity|].
    destruct (locked node); [reflexivity|].
    destruct (visible node); reflexivity.
  - intros node reason Hin. apply in_flat_map in Hin as (n & _ & Hin).
    destruct (hasMissingFont n) eqn:Em.
    { destruct Hin as [Heq|[]]. injection Heq as <- <-. now rewrite Em. }
    destruct (locked n) eqn:El.
    { destruct Hin as [Heq|[]]. injection Heq as <- <-.
      now rewrite Em, El. }
    destruct (visible n) eqn:Ev; [destruct Hin|].
    destruct Hin as [Heq|[]]. injection Heq as <- <-. now rewrite Em, El.
  - induction nodes as [|node nodes IH]; [reflexivity|].
    cbn [flat_map filter length]. rewrite length_app.
    destruct (hasMissingFont node); [cbn [negb andb length]; lia|].
    destruct (locked node); [cbn [negb andb length]; lia|].
    destruct (visible node); cbn [negb andb length]; lia.
Qed.

(** ** Processing one node *)

Lemma validateOne_cases (node : TextNode) :
  Processing.validateOne node
  = if hasMissingFont node
    then Some (Processing.failed
                 (Processing.reasonText Processing.MissingFont))
    else if locked node
    then Some (Processing.failed
                 (Processing.reasonText Processing.NodeIsLocked))
    else if negb (visible node)
    then Some (Processing.failed
                 (Processing.reasonText Processing.NodeIsHidden))
    else None.
Proof.
  unfold Processing.validateOne, Processing.validateNodesForProcessing.
  cbn [fold_left]. unfold Processing.validateStep.
  destruct (hasMissingFont node); [reflexivity|].
  destruct (locked node); [reflexivity|].
  destruct (visible node); reflexivity.
Qed.

Section ApplyFacts.

Variable fontsLoad : bool.
Variable accepts : Processing.NodeWrite -> bool.
Variable messageOf : Processing.Thrown -> Js.jsstring.

(** the writes that a list of changes asks for *)
Let planned (c : ProcessingChanges) : list Processing.NodeWrite :=
  match newAutoResize c with
  | Some value => [Processing.SetTextAutoResize value]
  | None => []
  end
  ++ match newText c with
     | Some (x :: t) => [Processing.SetCharacters (x :: t)]
     | _ => []
     end.

Lemma applyChangesToNode_cases (node : TextNode) (c : ProcessingChanges) :
  forall writes thrown,
  Processing.applyChangesToNode fontsLoad accepts node c = (writes, thrown) ->
  (thrown = None -> writes = planned c)
  /\ (thrown <> None -> (forall w, accepts w = true) -> writes = [])
  /\ (writes <> [] ->
      hasMissingFont node = false /\ locked node = false
      /\ fontsLoad = true)
  /\ (forall w, In w writes -> In w (planned c)).
Proof.
  intros writes thrown. unfold Processing.applyChangesToNode, planned.
  destruct (hasMissingFont node).
  { intros H; injection H as <- <-. repeat split; try congruence.
    intros w []. }
  destruct (locked node).
  { intros H; injection H as <- <-. repeat split; try congruence.
    intros w []. }
  destruct fontsLoad; cbn [negb].
  2:{ intros H; injection H as <- <-. repeat split; try congruence.
      intros w []. }
  unfold Processing.write.
  destruct (newAutoResize c) as [value|];
    [destruct (accepts (Processing.SetTextAutoResize value)) eqn:Ea|];
    (destruct (newText c) as [[|x t]|];
     [| destruct (accepts (Processing.SetCharacters (x :: t))) eqn:Et |]);
    cbn [app]; intros H; injection H as <- <-;
    (split; [try congruence; try reflexivity|]);
    (split; [try congruence; intros _ Hall;
             try (rewrite Hall in Ea; discriminate Ea);
             try (rewrite Hall in Et; discriminate Et)|]);
    (split; [intros _; repeat split|]);
    intros w Hw; cbn [In] in *; tauto.
Qed.

Lemma applyAndReport_cases (node : TextNode) (c : ProcessingChanges) :
  forall writes result,
  Processing.applyAndReport fontsLoad accepts messageOf node c
  = (writes, result) ->
  (Processing.success result = true ->
   Processing.changes result = Some c /\ Processing.error result = None
   /\ writes = planned c)
  /\ (Processing.success result = false ->
      Processing.changes result = None /\ Processing.error result <> None
      /\ ((forall w, accepts w = true) -> writes = []))
  /\ (writes <> [] ->
      hasMissingFont node = false /\ locked node = false
      /\ fontsLoad = true)
  /\ (forall w, In w writes -> In w (planned c)).
Proof.
  intros writes result. unfold Processing.applyAndReport.
  destruct (Processing.applyChangesToNode fontsLoad accepts node c)
    as [ws thrown] eqn:E.
  destruct (applyChangesToNode_cases node c ws thrown E)
    as (Hok & Hfail & Hguard & Hin).
  destruct thrown as [e|]; intros H; injection H as <- <-;
    cbn [Processing.failed Processing.succeeded Processing.success
         Processing.changes Processing.error].
  - split; [discriminate|]. split; [|split; assumption].
    intros _. split; [reflexivity|]. split; [discriminate|].
    apply Hfail. discriminate.
  - split; [|split; [discriminate|split; assumption]].
    intros _. repeat split. now apply Hok.
Qed.

End ApplyFacts.

Lemma applyIssues_resize_height (cfg : CodeTs.ProcessingConfig)
    (node : TextNode) :
  forall (issues : list CodeTs.DetectedIssue)
         (r r' : option AutoResize) (t t' : Js.jsstring),
  CodeTs.applyIssues cfg node issues (r, t) = Some (r', t') ->
  r' = r \/ r' = Some HEIGHT.
Proof.
  induction issues as [|i issues IH]; intros r r' t t' H.
  - injection H as <- <-. now left.
  - rewrite applyIssues_cons_codeTs in H. unfold CodeTs.applyIssue in H.
    destruct (CodeTs.type i).
    + destruct (CodeTs.removeLineBreaksJapanesePriority _ _ _ _ _);
        [|discriminate H].
      apply IH in H. destruct H; auto.
    + destruct (CodeTs.removeLineBreaksJapanesePriority _ _ _ _ _);
        [|discriminate H].
      now apply IH in H.
    + destruct (convertSoftBreaksToHard _ t); [|discriminate H].
      now apply IH in H.
Qed.

Lemma generateChanges_shape (cfg : CodeTs.ProcessingConfig)
    (originalText : Js.jsstring) (issues : list CodeTs.DetectedIssue)
    (node : TextNode) (c : ProcessingChanges) :
  CodeTs.generateChanges cfg originalText issues node = Some c ->
  (newAutoResize c = None \/ newAutoResize c = Some HEIGHT)
  /\ (forall text, newText c = Some text -> text <> originalText).
Proof.
  unfold CodeTs.generateChanges. intros H.
  assert (Hshape : forall r text,
            Some {| newText := if negb (Js.streq text originalText)
                               then Some text else None;
                    newAutoResize := r |} = Some c ->
            (r = None \/ r = Some HEIGHT) ->
            (newAutoResize c = None \/ newAutoResize c = Some HEIGHT)
            /\ (forall t, newText c = Some t -> t <> originalText)).
  { intros r text Hc Hr. injection Hc as <-. cbn [newAutoResize newText].
    split; [exact Hr|]. intros t Ht.
    destruct (Js.streq text originalText) eqn:E; [discriminate Ht|].
    injection Ht as <-. intros ->. now rewrite streq_refl in E. }
  destruct (AutoResize_eqb _ _).
  - destruct (CodeTs.removeLineBreaksJapanesePriority _ _ _ _ _);
      [|discriminate H].
    apply (Hshape _ _ H). now right.
  - destruct (CodeTs.applyIssues _ _ _ _) as [[r text]|] eqn:E;
      [|discriminate H].
    apply (Hshape _ _ H).
    apply applyIssues_resize_height in E. destruct E; auto.
Qed.

Section ProcessFacts.

Variable fontsLoad : bool.
Variable accepts : Processing.NodeWrite -> bool.
Variable messageOf : Processing.Thrown -> Js.jsstring.
Variable node : TextNode.

(** what a run of [processIndividualNode] guarantees about the writes
    it made and the result it returned *)
Let sound (run : list Processing.NodeWrite * Processing.ProcessingResult)
    : Prop :=
  let '(writes, result) := run in
  (Processing.success result = true ->
   exists c,
     Processing.changes result = Some c
     /\ Processing.error result = None
     /\ writes
        = match newAutoResize c with
          | Some value => [Processing.SetTextAutoResize value]
          | None => []
          end
          ++ match newText c with
             | Some (x :: t) => [Processing.SetCharacters (x :: t)]
             | _ => []
             end)
  /\ (Processing.success result = false ->
      Processing.changes result = None
      /\ Processing.error result <> None
      /\ ((forall w, accepts w = true) -> writes = []))
  /\ (writes <> [] ->
      hasMissingFont node = false /\ locked node = false
      /\ visible node = true /\ fontsLoad = true)
  /\ (forall w, In w writes ->
        match w with
        | Processing.SetTextAutoResize value => value = HEIGHT
        | Processing.SetCharacters text =>
            text <> [] /\ text <> characters node
        end).

Lemma sound_failed (text : Js.jsstring) :
  sound ([], Processing.failed text).
Proof.
  unfold sound. cbn. repeat split; try discriminate; try congruence.
  intros w [].
Qed.

Lemma sound_unchanged :
  sound ([], Processing.succeeded Processing.noChanges).
Proof.
  unfold sound. cbn. repeat split; try discriminate; try congruence.
  - intros _. exists Processing.noChanges. repeat split.
  - intros w [].
Qed.

Lemma sound_applied (c : ProcessingChanges) :
  visible node = true ->
  (newAutoResize c = None \/ newAutoResize c = Some HEIGHT) ->
  (forall text, newText c = Some text -> text <> characters node) ->
  sound (Processing.applyAndReport fontsLoad accepts messageOf node c).
Proof.
  intros Hvisible Hresize Htext.
  destruct (Processing.applyAndReport fontsLoad accepts messageOf node c)
    as [writes result] eqn:E.
  pose proof (applyAndReport_cases fontsLoad accepts messageOf node c
                writes result E) as H.
  cbv zeta in H. destruct H as (Hok & Hfail & Hguard & Hin).
  unfold sound. split; [|split; [exact Hfail|split]].
  - intros Hs. exists c. now apply Hok.
  - intros Hw. destruct (Hguard Hw) as (Hm & Hl & Hf). auto.
  - intros w Hw. apply Hin in Hw. apply in_app_or in Hw as [Hw|Hw].
    + destruct (newAutoResize c) as [value|]; [|destruct Hw].
      destruct Hw as [<-|[]]. destruct Hresize as [Hr|Hr]; congruence.
    + destruct (newText c) as [[|x t]|] eqn:Et;
        [destruct Hw| |destruct Hw].
      destruct Hw as [<-|[]]. split; [discriminate|].
      now apply Htext.
Qed.

Lemma sound_codeTs (cfg : CodeTs.ProcessingConfig)
    (forceChanges : option Processing.ForceChanges) :
  sound (CodeTs.processIndividualNode cfg fontsLoad accepts messageOf node
           forceChanges).
Proof.
  unfold CodeTs.processIndividualNode. rewrite validateOne_cases.
  case (hasMissingFont node); [apply sound_failed|].
  case (locked node); [apply sound_failed|].
  case_eq (visible node); intros Ev; [|apply sound_failed]. cbn [negb].
  destruct forceChanges as [force|].
  - unfold CodeTs.forceNode. cbv zeta.
    destruct (if Processing.removeLineBreaks force then _ else _)
      as [rejoined|]; [|apply sound_failed].
    destruct (if Processing.convertSoftBreaks force then _ else _)
      as [processedText|]; [|apply sound_failed].
    destruct (Processing.hasKeys _); [|apply sound_unchanged].
    apply sound_applied; [exact Ev| |]; cbn [newAutoResize newText].
    + destruct (_ && _); auto.
    + intros text Ht.
      destruct (Js.streq processedText (characters node)) eqn:E;
        [discriminate Ht|].
      injection Ht as <-. intros Heq. rewrite Heq, streq_refl in E.
      discriminate E.
  - unfold CodeTs.analyzeAndApply. cbv zeta.
    destruct (_ =? _)%nat; [apply sound_unchanged|].
    destruct (CodeTs.generateChanges _ _ _ _) as [c|] eqn:E;
      [|apply sound_failed].
    apply generateChanges_shape in E as [Hr Ht].
    apply sound_applied; [exact Ev|exact Hr|].
    replace (characters node)
      with (CodeTs.originalText (CodeTs.analyzeTextNode cfg node));
      [exact Ht|].
    unfold CodeTs.analyzeTextNode.
    case (hasMissingFont node); [reflexivity|].
    case (_ || _); [reflexivity|].
    case (_ <? _)%Z; reflexivity.
Qed.

Lemma sound_part000 (cfg : Part000.ProcessingConfig)
    (forceChanges : option Processing.ForceChanges) :
  sound (Part000.processIndividualNode cfg fontsLoad accepts messageOf node
           forceChanges).
Proof.
  unfold Part000.processIndividualNode. rewrite validateOne_cases.
  case (hasMissingFont node); [apply sound_failed|].
  case (locked node); [apply sound_failed|].
  case_eq (visible node); intros Ev; [|apply sound_failed]. cbn [negb].
  destruct forceChanges as [force|]; [|apply sound_unchanged].
  unfold Part000.forceNode.
  destruct (Part000.processTextDirectly _ _ _ _ _) as [processedText|];
    [|apply sound_failed].
  cbv zeta.
  destruct (Processing.hasKeys _); [|apply sound_unchanged].
  apply sound_applied; [exact Ev| |]; cbn [newAutoResize newText].
  - destruct (_ && _); auto.
  - intros text Ht.
    destruct (Js.streq processedText (characters node)) eqn:E;
      [discriminate Ht|].
    injection Ht as <-. intros Heq. rewrite Heq, streq_refl in E.
    discriminate E.
Qed.

End ProcessFacts.

(** X14: what [processIndividualNode] reports is what it did, in both
    revisions.  A successful result carries the changes, and the writes
    made are those changes, set the resize mode first, except that an empty
    new text is reported but not written; a failed result carries an
    error text and no changes, and nothing was written unless the host
    refused a write; nothing is ever written to a node that lacks a font,
    is locked or hidden, or whose fonts do not load; the resize mode is
    only ever set to HEIGHT, and the text only to a text that is not
    empty and differs from the node's. *)
Theorem processIndividualNode_reports_its_writes
    (cfgA : CodeTs.ProcessingConfig) (cfgB : Part000.ProcessingConfig)
    (fontsLoad : bool) (accepts : Processing.NodeWrite -> bool)
    (messageOf : Processing.Thrown -> Js.jsstring)
    (node : TextNode) (forceChanges : option Processing.ForceChanges)
    (writes : list Processing.NodeWrite)
    (result : Processing.ProcessingResult)
    (Hrun : CodeTs.processIndividualNode cfgA fontsLoad accepts messageOf
              node forceChanges = (writes, result)
            \/ Part000.processIndividualNode cfgB fontsLoad accepts
                 messageOf node forceChanges = (writes, result)) :
  (Processing.success result = true ->
   exists c,
     Processing.changes result = Some c
     /\ Processing.error result = None
     /\ writes
        = match newAutoResize c with
          | Some value => [Processing.SetTextAutoResize value]
          | None => []
          end
          ++ match newText c with
             | Some (x :: t) => [Processing.SetCharacters (x :: t)]
             | _ => []
             end)
  /\ (Processing.success result = false ->
      Processing.changes result = None
      /\ Processing.error result <> None
      /\ ((forall w, accepts w = true) -> writes = []))
  /\ (writes <> [] ->
      hasMissingFont node = false /\ locked node = false
      /\ visible node = true /\ fontsLoad = true)
  /\ (forall w, In w writes ->
        match w with
        | Processing.SetTextAutoResize value => value = HEIGHT
        | Processing.SetCharacters text =>
            text <> [] /\ text <> characters node
        end).
Proof.
  destruct Hrun as [Hrun|Hrun].
  - pose proof (sound_codeTs fontsLoad accepts messageOf node cfgA
                  forceChanges) as H.
    cbv zeta in H. rewrite Hrun in H. exact H.
  - pose proof (sound_part000 fontsLoad accepts messageOf node cfgB
                  forceChanges) as H.
    cbv zeta in H. rewrite Hrun in H. exact H.
Qed.

Lemma processIndividualNode_reports_its_writes_witness :
  fst (CodeTs.processIndividualNode Sample.zeroThresholdConfig true
         Sample.willingHost Sample.messageOf Sample.blankLinesNode
         (Some Sample.removeOnly))
  = []
  /\ Processing.changes
       (snd (CodeTs.processIndividualNode Sample.zeroThresholdConfig true
               Sample.willingHost Sample.messageOf Sample.blankLinesNode
               (Some Sample.removeOnly)))
     = Some {| newText := Some []; newAutoResize := None |}.
Proof.
  destruct (processIndividualNode_reports_its_writes
              Sample.zeroThresholdConfig Sample.config000 true
              Sample.willingHost Sample.messageOf Sample.blankLinesNode
              (Some Sample.removeOnly) _ _
              (or_introl (surjective_pairing _)))
    as (Hok & _).
  destruct (Hok eq_refl) as (c & Hc & _ & Hw).
  assert (Hcc : Some c = Some {| newText := Some []; newAutoResize := None |})
    by (rewrite <- Hc; reflexivity).
  injection Hcc as Hcc. rewrite Hw, Hc, Hcc. split; reflexivity.
Defined.

(** ** Forced processing of a selected node *)

Lemma join_free (q : Z -> bool) (segs : list Js.jsstring) :
  q Js.LF = false ->
  (forall s, In s segs -> filter q s = []) ->
  filter q (Js.join [Js.LF] segs) = [].
Proof.
  intros Hq. induction segs as [|x [|y segs] IH]; intros H; [reflexivity| |].
  - cbn [Js.join]. apply H. now left.
  - change (Js.join [Js.LF] (x :: y :: segs))
      with (x ++ [Js.LF] ++ Js.join [Js.LF] (y :: segs)).
    rewrite !filter_app, (H x (or_introl eq_refl)).
    rewrite IH by (intros s Hs; apply H; now right).
    cbn [filter app]. now rewrite Hq.
Qed.

(** after the rejoin of src/code.ts no soft break is left in the text,
    when the space is not configured as one *)
Lemma rejoin_leaves_no_soft_break (cfg : CodeTs.ProcessingConfig)
    (text : Js.jsstring) (containerWidth fontSize : float) :
  formsNoRange (CodeTs.softBreakChars cfg) = true ->
  ~ In Js.SPACE (CodeTs.softBreakChars cfg) ->
  exists rejoined,
    CodeTs.removeLineBreaksJapanesePriority cfg text containerWidth
      fontSize true = Some rejoined
    /\ forall c, In c rejoined ->
                 In c (CodeTs.softBreakChars cfg) -> c = Js.LF.
Proof.
  intros Hclass Hspace. rewrite (rejoin_formsNoRange _ _ _ _ _ Hclass).
  cbn [negb andb]. eexists. split; [reflexivity|].
  intros c Hc Hsoft.
  destruct (Z.eq_dec c Js.LF) as [Heq|Hne]; [exact Heq|exfalso].
  set (q := fun x => existsb (Z.eqb x) (CodeTs.softBreakChars cfg)
                     && negb (x =? Js.LF)%Z).
  assert (Hq : q c = true).
  { unfold q. apply andb_true_iff. split.
    - apply existsb_exists. exists c. split; [exact Hsoft|apply Z.eqb_refl].
    - apply negb_true_iff. now apply Z.eqb_neq. }
  set (rejoined := rejoinLines _ _ _) in *.
  assert (Hfree : filter q rejoined = []).
  { unfold rejoined, rejoinLines.
    apply join_free; [unfold q; apply andb_false_r|].
    apply joinLines_free.
    - intros a b. apply combineLines_free_codeTs.
      unfold q. apply andb_false_iff. left.
      destruct (existsb _ _) eqn:E; [|reflexivity].
      apply existsb_exists in E as (x & Hx & Hsx).
      apply Z.eqb_eq in Hsx. subst x. contradiction.
    - intros l Hl. apply filter_empty_iff. intros x Hx.
      pose proof (splitOn_lines_clean _ _ l Hl x Hx) as Hclean.
      apply breakMatcher_false in Hclean as [_ Hclean].
      unfold q. now rewrite Hclean. }
  assert (Hin : In c (filter q rejoined))
    by (apply filter_In; split; assumption).
  rewrite Hfree in Hin. destruct Hin.
Qed.

Lemma convert_after_rejoin (cfg : CodeTs.ProcessingConfig)
    (text : Js.jsstring) (containerWidth fontSize : float) :
  forallb isLiteralPattern (CodeTs.softBreakChars cfg) = true ->
  formsNoRange (CodeTs.softBreakChars cfg) = true ->
  ~ In Js.SPACE (CodeTs.softBreakChars cfg) ->
  exists rejoined,
    CodeTs.removeLineBreaksJapanesePriority cfg text containerWidth
      fontSize true = Some rejoined
    /\ convertSoftBreaksToHard (CodeTs.softBreakChars cfg) rejoined
       = Some rejoined.
Proof.
  intros Hliteral Hclass Hspace.
  destruct (rejoin_leaves_no_soft_break cfg text containerWidth fontSize
              Hclass Hspace) as (rejoined & Hrejoin & Hnone).
  exists rejoined. split; [exact Hrejoin|].
  rewrite (convert_literal_as_map _ _ Hliteral). f_equal.
  rewrite <- (map_id rejoined) at 2.
  apply map_ext_in. intros x Hx.
  destruct (existsb (Z.eqb x) (CodeTs.softBreakChars cfg)) eqn:E;
    [|reflexivity].
  apply existsb_exists in E as (y & Hy & Hxy). apply Z.eqb_eq in Hxy.
  subst y. symmetry.
  exact (Hnone x Hx Hy).
Qed.

(** X15: in src/code.ts the conversion of the soft breaks, which a forced
    run makes after the removal of the line breaks, changes nothing: the
    removal splits the text at the soft breaks too, so none is left.  A
    forced run with both options does what it does with the removal
    alone. *)
Theorem forced_conversion_after_removal_is_idle
    (cfg : CodeTs.ProcessingConfig)
    (fontsLoad : bool) (accepts : Processing.NodeWrite -> bool)
    (messageOf : Processing.Thrown -> Js.jsstring) (node : TextNode)
    (Hliteral : forallb isLiteralPattern (CodeTs.softBreakChars cfg) = true)
    (Hclass : formsNoRange (CodeTs.softBreakChars cfg) = true)
    (Hspace : ~ In Js.SPACE (CodeTs.softBreakChars cfg)) :
  (exists rejoined,
     CodeTs.removeLineBreaksJapanesePriority cfg (characters node)
       (width node) (getFontSize node) true = Some rejoined
     /\ convertSoftBreaksToHard (CodeTs.softBreakChars cfg) rejoined
        = Some rejoined)
  /\ CodeTs.processIndividualNode cfg fontsLoad accepts messageOf node
       (Some {| Processing.removeLineBreaks := true;
                Processing.convertSoftBreaks := true |})
     = CodeTs.processIndividualNode cfg fontsLoad accepts messageOf node
         (Some {| Processing.removeLineBreaks := true;
                  Processing.convertSoftBreaks := false |}).
Proof.
  pose proof (convert_after_rejoin cfg (characters node) (width node)
                (getFontSize node) Hliteral Hclass Hspace) as Hidle.
  split; [exact Hidle|].
  destruct Hidle as (rejoined & Hrejoin & Hidle).
  unfold CodeTs.processIndividualNode, CodeTs.forceNode.
  cbn [Processing.removeLineBreaks Processing.convertSoftBreaks].
  cbv zeta. now rewrite Hrejoin, Hidle.
Qed.

Lemma forced_conversion_after_removal_witness :
  CodeTs.processIndividualNode CodeTs.DEFAULT_CONFIG true
    Sample.willingHost Sample.messageOf
    (Sample.textNode Sample.softBrokenText 400 HEIGHT)
    (Some Sample.removeAndConvert)
  = CodeTs.processIndividualNode CodeTs.DEFAULT_CONFIG true
      Sample.willingHost Sample.messageOf
      (Sample.textNode Sample.softBrokenText 400 HEIGHT)
      (Some Sample.removeOnly).
Proof.
  refine (proj2 (forced_conversion_after_removal_is_idle
                   CodeTs.DEFAULT_CONFIG true Sample.willingHost
                   Sample.messageOf
                   (Sample.textNode Sample.softBrokenText 400 HEIGHT)
                   eq_refl eq_refl _)).
  cbn. unfold Js.SPACE. intros [H|[]]. discriminate H.
Defined.

(** X16: a forced run that only removes line breaks writes a text with the
    same visible characters as the node's (in src/code.ts: the same but
    for the soft breaks), and it sets the resize mode only of a node that
    was WIDTH_AND_HEIGHT; a forced run without the removal never sets the
    resize mode. *)
Theorem forced_removal_keeps_visible_text
    (cfgA : CodeTs.ProcessingConfig) (cfgB : Part000.ProcessingConfig)
    (fontsLoad : bool) (accepts : Processing.NodeWrite -> bool)
    (messageOf : Processing.Thrown -> Js.jsstring) (node : TextNode)
    (force : Processing.ForceChanges)
    (Hclass : formsNoRange (CodeTs.softBreakChars cfgA) = true)
    (Honly : Processing.convertSoftBreaks force = false) :
  (forall text,
     In (Processing.SetCharacters text)
        (fst (CodeTs.processIndividualNode cfgA fontsLoad accepts messageOf
                node (Some force))) ->
     Processing.removeLineBreaks force = true
     /\ filter (fun c => negb (Js.isWhiteSpace c
                               || Spec.breakMatcher
                                    (CodeTs.softBreakChars cfgA) c)) text
        = filter (fun c => negb (Js.isWhiteSpace c
                                 || Spec.breakMatcher
                                      (CodeTs.softBreakChars cfgA) c))
            (characters node))
  /\ (forall text,
        In (Processing.SetCharacters text)
           (fst (Part000.processIndividualNode cfgB fontsLoad accepts
                   messageOf node (Some force))) ->
        Processing.removeLineBreaks force = true
        /\ filter (fun c => negb (Js.isWhiteSpace c)) text
           = filter (fun c => negb (Js.isWhiteSpace c)) (characters node))
  /\ (forall value,
        In (Processing.SetTextAutoResize value)
           (fst (CodeTs.processIndividualNode cfgA fontsLoad accepts
                   messageOf node (Some force)))
        \/ In (Processing.SetTextAutoResize value)
              (fst (Part000.processIndividualNode cfgB fontsLoad accepts
                      messageOf node (Some force))) ->
        Processing.removeLineBreaks force = true
        /\ textAutoResize node = WIDTH_AND_HEIGHT).
Proof.
  assert (Hplanned : forall c writes result w,
            Processing.applyAndReport fontsLoad accepts messageOf node c
            = (writes, result) ->
            In w writes ->
            match w with
            | Processing.SetTextAutoResize value =>
                newAutoResize c = Some value
            | Processing.SetCharacters text => newText c = Some text
            end).
  { intros c writes result w E Hw.
    pose proof (applyAndReport_cases fontsLoad accepts messageOf node c
                  writes result E) as H.
    cbv zeta in H. destruct H as (_ & _ & _ & Hin).
    apply Hin in Hw. apply in_app_or in Hw as [Hw|Hw].
    - destruct (newAutoResize c); [|destruct Hw].
      destruct Hw as [<-|[]]. reflexivity.
    - destruct (newText c) as [[|x t]|]; [destruct Hw| |destruct Hw].
      destruct Hw as [<-|[]]. reflexivity. }
  assert (Hresize : forall value,
            (if Processing.removeLineBreaks force
                && AutoResize_eqb (textAutoResize node) WIDTH_AND_HEIGHT
             then Some HEIGHT else None) = Some value ->
            Processing.removeLineBreaks force = true
            /\ textAutoResize node = WIDTH_AND_HEIGHT).
  { intros value H.
    destruct (Processing.removeLineBreaks force); [|discriminate H].
    destruct (textAutoResize node); try discriminate H. now split. }
  assert (HA : forall w,
            In w (fst (CodeTs.processIndividualNode cfgA fontsLoad accepts
                         messageOf node (Some force))) ->
            match w with
            | Processing.SetTextAutoResize value =>
                Processing.removeLineBreaks force = true
                /\ textAutoResize node = WIDTH_AND_HEIGHT
            | Processing.SetCharacters text =>
                Processing.removeLineBreaks force = true
                /\ CodeTs.removeLineBreaksJapanesePriority cfgA
                     (characters node) (width node) (getFontSize node) true
                   = Some text
            end).
  { intros w. unfold CodeTs.processIndividualNode.
    destruct (Processing.validateOne node); [intros []|].
    unfold CodeTs.forceNode. rewrite Honly. cbv zeta.
    destruct (if Processing.removeLineBreaks force then _ else _)
      as [rejoined|] eqn:Erejoin; [|intros []].
    destruct (Processing.hasKeys _); [|intros []].
    destruct (Processing.applyAndReport _ _ _ _ _) as [writes result] eqn:E.
    cbn [fst]. intros Hw. pose proof (Hplanned _ _ _ w E Hw) as H.
    destruct w as [value|text]; cbn [newAutoResize newText] in H.
    - now apply Hresize in H.
    - destruct (Processing.removeLineBreaks force).
      + destruct (negb _); [|discriminate H]. injection H as <-. now split.
      + injection Erejoin as <-. rewrite streq_refl in H. discriminate H. }
  assert (HB : forall w,
            In w (fst (Part000.processIndividualNode cfgB fontsLoad accepts
                         messageOf node (Some force))) ->
            match w with
            | Processing.SetTextAutoResize value =>
                Processing.removeLineBreaks force = true
                /\ textAutoResize node = WIDTH_AND_HEIGHT
            | Processing.SetCharacters text =>
                Processing.removeLineBreaks force = true
                /\ text = Part000.removeLineBreaksJapanesePriority cfgB
                            (characters node) (width node)
                            (getFontSize node) true
            end).
  { intros w. unfold Part000.processIndividualNode.
    destruct (Processing.validateOne node); [intros []|].
    unfold Part000.forceNode, Part000.processTextDirectly.
    rewrite Honly. cbv zeta.
    destruct (Processing.hasKeys _); [|intros []].
    destruct (Processing.applyAndReport _ _ _ _ _) as [writes result] eqn:E.
    cbn [fst]. intros Hw. pose proof (Hplanned _ _ _ w E Hw) as H.
    destruct w as [value|text]; cbn [newAutoResize newText] in H.
    - now apply Hresize in H.
    - destruct (Processing.removeLineBreaks force).
      + destruct (negb _); [|discriminate H]. injection H as <-. now split.
      + rewrite streq_refl in H. discriminate H. }
  split; [|split].
  - intros text Hw. destruct (HA _ Hw) as [Hr Htext].
    split; [exact Hr|].
    destruct (rejoin_keep_codeTs cfgA (characters node) (width node)
                (getFontSize node) true Hclass) as (out & Hout & Hkeep).
    rewrite Htext in Hout. injection Hout as <-. exact Hkeep.
  - intros text Hw. destruct (HB _ Hw) as [Hr ->].
    split; [exact Hr|apply rejoin_keep_part000].
  - intros value [Hw|Hw]; [exact (HA _ Hw)|exact (HB _ Hw)].
Qed.

Lemma forced_removal_keeps_visible_text_witness :
  filter (fun c => negb (Js.isWhiteSpace c))
    (Sample.hiragana 23 ++ Sample.hiragana 5)
  = filter (fun c => negb (Js.isWhiteSpace c))
      (characters Sample.autoWidthNode)
  /\ textAutoResize Sample.autoWidthNode = WIDTH_AND_HEIGHT.
Proof.
  pose proof (forced_removal_keeps_visible_text CodeTs.DEFAULT_CONFIG
                Sample.config000 true Sample.willingHost Sample.messageOf
                Sample.autoWidthNode Sample.removeOnly eq_refl eq_refl)
    as (_ & Htext & Hresize).
  split.
  - apply (Htext (Sample.hiragana 23 ++ Sample.hiragana 5)).
    vm_compute. right. left. reflexivity.
  - apply (Hresize HEIGHT). right. vm_compute. left. reflexivity.
Defined.

(** ** Statistics of a run *)

Lemma streq_sym (s t : Js.jsstring) : Js.streq s t = Js.streq t s.
Proof.
  destruct (Js.streq s t) eqn:E1, (Js.streq t s) eqn:E2; try reflexivity.
  - apply streq_eq in E1. subst t. now rewrite streq_refl in E2.
  - apply streq_eq in E2. subst t. now rewrite streq_refl in E1.
Qed.

Lemma getOwn_setOwn_same (key : Js.jsstring) (value : CodeTs.SummaryValue)
    (o : CodeTs.ErrorSummary) :
  CodeTs.getOwn key (CodeTs.setOwn key value o) = Some value.
Proof.
  induction o as [|[k v] o IH]; cbn [CodeTs.setOwn CodeTs.getOwn].
  - now rewrite streq_refl.
  - destruct (Js.streq k key) eqn:E; cbn [CodeTs.getOwn]; rewrite E;
      [reflexivity|exact IH].
Qed.

Lemma getOwn_setOwn_other (key key' : Js.jsstring)
    (value : CodeTs.SummaryValue) (o : CodeTs.ErrorSummary) :
  Js.streq key key' = false ->
  CodeTs.getOwn key' (CodeTs.setOwn key value o) = CodeTs.getOwn key' o.
Proof.
  intros Hne. induction o as [|[k v] o IH]; cbn [CodeTs.setOwn CodeTs.getOwn].
  - now rewrite Hne.
  - destruct (Js.streq k key) eqn:E; cbn [CodeTs.getOwn].
    + apply streq_eq in E. subst k. now rewrite Hne.
    + destruct (Js.streq k key'); [reflexivity|exact IH].
Qed.

Section StatisticsFacts.

Variable inherited : Js.jsstring -> CodeTs.Inherited.
Variable key : Js.jsstring.
Hypothesis key_own : inherited key = CodeTs.NotInherited.

(** the value under [key] after [n] more errors of that text *)
Let bump (n : nat) (v : option CodeTs.SummaryValue)
    : option CodeTs.SummaryValue :=
  match v with
  | Some (CodeTs.Count m) => Some (CodeTs.Count (m + n))
  | Some CodeTs.Text => Some CodeTs.Text
  | None => if n =? 0 then None else Some (CodeTs.Count n)
  end.

Lemma countError_key (summary : CodeTs.ErrorSummary)
    (r : Processing.ProcessingResult) :
  CodeTs.getOwn key (CodeTs.countError inherited summary r)
  = if Js.streq (CodeTs.errorType r) key
    then bump 1 (CodeTs.getOwn key summary)
    else CodeTs.getOwn key summary.
Proof.
  unfold CodeTs.countError. cbv zeta.
  destruct (Js.streq (CodeTs.errorType r) key) eqn:E.
  - apply streq_eq in E. rewrite E, key_own.
    destruct (CodeTs.getOwn key summary) as [[m|]|];
      rewrite getOwn_setOwn_same; reflexivity.
  - destruct (CodeTs.getOwn (CodeTs.errorType r) summary) as [[m|]|];
      try (now rewrite getOwn_setOwn_other).
    destruct (inherited (CodeTs.errorType r));
      try (now rewrite getOwn_setOwn_other).
    reflexivity.
Qed.

Lemma fold_countError_key (rs : list Processing.ProcessingResult) :
  forall summary,
  CodeTs.getOwn key (fold_left (CodeTs.countError inherited) rs summary)
  = bump (length (filter (fun r => Js.streq (CodeTs.errorType r) key) rs))
      (CodeTs.getOwn key summary).
Proof.
  induction rs as [|r rs IH]; intros summary.
  - cbn [fold_left filter length]. unfold bump.
    destruct (CodeTs.getOwn key summary) as [[m|]|]; try reflexivity.
    now rewrite Nat.add_0_r.
  - cbn [fold_left filter]. rewrite IH, countError_key.
    destruct (Js.streq (CodeTs.errorType r) key); [|reflexivity].
    cbn [length]. unfold bump.
    destruct (CodeTs.getOwn key summary) as [[m|]|]; try reflexivity.
    do 2 f_equal. lia.
Qed.

End StatisticsFacts.

Section StatisticsSum.

Variable inherited : Js.jsstring -> CodeTs.Inherited.

(** the sum of the counts, when every value is a count *)
Let total (o : CodeTs.ErrorSummary) : option nat :=
  fold_right
    (fun kv acc =>
       match snd kv, acc with
       | CodeTs.Count m, Some n => Some (m + n)
       | _, _ => None
       end) (Some 0) o.

Lemma total_setOwn_new (k : Js.jsstring) (o : CodeTs.ErrorSummary) :
  forall n, total o = Some n -> CodeTs.getOwn k o = None ->
  total (CodeTs.setOwn k (CodeTs.Count 1) o) = Some (n + 1).
Proof.
  induction o as [|[k' v] o IH]; intros n Ht Hg.
  - injection Ht as <-. reflexivity.
  - cbn [CodeTs.getOwn] in Hg. cbn [CodeTs.setOwn].
    destruct (Js.streq k' k); [discriminate Hg|].
    unfold total in *. cbn [fold_right snd] in *.
    destruct v as [m|]; [|discriminate Ht].
    destruct (fold_right _ (Some 0) o) as [n'|] eqn:E; [|discriminate Ht].
    injection Ht as <-.
    rewrite (IH n' eq_refl Hg). f_equal. lia.
Qed.

Lemma total_setOwn_count (k : Js.jsstring) (o : CodeTs.ErrorSummary) :
  forall n m, total o = Some n -> CodeTs.getOwn k o = Some (CodeTs.Count m) ->
  total (CodeTs.setOwn k (CodeTs.Count (m + 1)) o) = Some (n + 1).
Proof.
  induction o as [|[k' v] o IH]; intros n m Ht Hg; [discriminate Hg|].
  cbn [CodeTs.getOwn] in Hg. cbn [CodeTs.setOwn].
  unfold total in *. cbn [fold_right snd] in Ht.
  destruct v as [m'|]; [|discriminate Ht].
  destruct (fold_right _ (Some 0) o) as [n'|] eqn:E; [|discriminate Ht].
  injection Ht as <-.
  destruct (Js.streq k' k).
  - injection Hg as ->. cbn [fold_right snd]. rewrite E. f_equal. lia.
  - cbn [fold_right snd]. rewrite (IH n' m eq_refl Hg). f_equal. lia.
Qed.

Lemma getOwn_total (k : Js.jsstring) (o : CodeTs.ErrorSummary) :
  forall n, total o = Some n -> CodeTs.getOwn k o <> Some CodeTs.Text.
Proof.
  induction o as [|[k' v] o IH]; intros n Ht; [discriminate|].
  unfold total in *. cbn [fold_right snd] in Ht. cbn [CodeTs.getOwn].
  destruct v as [m'|]; [|discriminate Ht].
  destruct (fold_right _ (Some 0) o) as [n'|] eqn:E; [|discriminate Ht].
  destruct (Js.streq k' k); [discriminate|]. now apply (IH n').
Qed.

Lemma fold_countError_total (rs : list Processing.ProcessingResult) :
  (forall r, In r rs ->
             inherited (CodeTs.errorType r) = CodeTs.NotInherited) ->
  forall summary n,
  total summary = Some n ->
  total (fold_left (CodeTs.countError inherited) rs summary)
  = Some (n + length rs).
Proof.
  induction rs as [|r rs IH]; intros Hown summary n Ht.
  - cbn [fold_left length]. now rewrite Nat.add_0_r.
  - cbn [fold_left length].
    rewrite (IH (fun r' Hr' => Hown r' (or_intror Hr')) _ (n + 1)).
    + f_equal. lia.
    + unfold CodeTs.countError. cbv zeta.
      rewrite (Hown r (or_introl eq_refl)).
      destruct (CodeTs.getOwn (CodeTs.errorType r) summary) as [[m|]|] eqn:Eg.
      * now apply total_setOwn_count.
      * exfalso. exact (getOwn_total _ _ n Ht Eg).
      * now apply total_setOwn_new.
Qed.

End StatisticsSum.

(** X17: [generateStatistics] counts every result once, as successful or
    as failed; under an error text that a plain object does not inherit
    the summary holds the number of failed results with that text (an
    error without a text counting as ['Unknown error']), and no property
    when there is none; when no error text of a failed result is an
    inherited name, the counts of the summary add up to [failed]. *)
Theorem generateStatistics_counts
    (inherited : Js.jsstring -> CodeTs.Inherited)
    (results : list Processing.ProcessingResult) (key : Js.jsstring)
    (Hkey : inherited key = CodeTs.NotInherited) :
  let stats := CodeTs.generateStatistics inherited results in
  CodeTs.totalProcessed stats = length results
  /\ CodeTs.successful stats + CodeTs.failed stats
     = CodeTs.totalProcessed stats
  /\ CodeTs.getOwn key (CodeTs.errorSummary stats)
     = (let n := length
                   (filter (fun r => negb (Processing.success r)
                                     && Js.streq (CodeTs.errorType r) key)
                      results) in
        if n =? 0 then None else Some (CodeTs.Count n))
  /\ ((forall r, In r results -> Processing.success r = false ->
                 inherited (CodeTs.errorType r) = CodeTs.NotInherited) ->
      fold_right
        (fun kv acc =>
           match snd kv, acc with
           | CodeTs.Count m, Some n => Some (m + n)
           | _, _ => None
           end) (Some 0) (CodeTs.errorSummary stats)
      = Some (CodeTs.failed stats)).
Proof.
  cbv zeta. unfold CodeTs.generateStatistics.
  cbn [CodeTs.totalProcessed CodeTs.successful CodeTs.failed
       CodeTs.errorSummary].
  split; [reflexivity|]. split; [|split].
  - induction results as [|r results IH]; [reflexivity|].
    cbn [filter length]. destruct (Processing.success r);
      cbn [negb length]; lia.
  - rewrite (fold_countError_key inherited key Hkey). cbn [CodeTs.getOwn].
    replace (filter (fun r => Js.streq (CodeTs.errorType r) key)
               (filter (fun r => negb (Processing.success r)) results))
      with (filter (fun r => negb (Processing.success r)
                             && Js.streq (CodeTs.errorType r) key) results).
    + reflexivity.
    + induction results as [|r results IH]; [reflexivity|].
      cbn [filter]. destruct (Processing.success r); cbn [negb andb filter].
      * exact IH.
      * destruct (Js.streq (CodeTs.errorType r) key); now rewrite IH.
  - intros Hown.
    pose proof (fold_countError_total inherited
                  (filter (fun r => negb (Processing.success r)) results))
      as H.
    cbv zeta in H.
    assert (Hfailed : forall r,
              In r (filter (fun r => negb (Processing.success r)) results) ->
              inherited (CodeTs.errorType r) = CodeTs.NotInherited).
    { intros r Hr. apply filter_In in Hr as [Hr Hs].
      apply Hown; [exact Hr|]. now apply negb_true_iff. }
    now rewrite (H Hfailed [] 0 eq_refl).
Qed.

Lemma generateStatistics_counts_witness :
  CodeTs.getOwn (Processing.reasonText Processing.NodeIsLocked)
    (CodeTs.errorSummary
       (CodeTs.generateStatistics Sample.objectPrototype Sample.processed))
  = Some (CodeTs.Count 2)
  /\ CodeTs.failed
       (CodeTs.generateStatistics Sample.objectPrototype Sample.processed)
     = 3.
Proof.
  pose proof (generateStatistics_counts Sample.objectPrototype
                Sample.processed
                (Processing.reasonText Processing.NodeIsLocked) eq_refl)
    as (_ & _ & Hcount & _).
  cbv zeta in Hcount. rewrite Hcount. split; reflexivity.
Defined.

(** ** The pattern cache of part_000 *)

Lemma cacheKey_cons (c : Z) (soft : list Z) :
  Part000.RegexPatternCache.cacheKey (c :: soft)
  = Js.LF :: 124%Z :: Js.join [124%Z] (map (fun char => [char]) (c :: soft)).
Proof. reflexivity. Qed.

Lemma join_singletons_injective (l1 : list Z) :
  forall l2,
  Js.join [124%Z] (map (fun char => [char]) l1)
  = Js.join [124%Z] (map (fun char => [char]) l2) ->
  l1 = l2.
Proof.
  induction l1 as [|a [|b l1] IH]; intros [|a' [|b' l2]] H;
    try reflexivity; try discriminate H.
  - injection H as ->. reflexivity.
  - change (a :: 124%Z :: Js.join [124%Z] (map (fun char => [char]) (b :: l1))
            = a' :: 124%Z
                 :: Js.join [124%Z] (map (fun char => [char]) (b' :: l2)))
      in H.
    injection H as -> H. f_equal. now apply IH.
Qed.

Lemma cacheKey_injective (soft1 soft2 : list Z) :
  Part000.RegexPatternCache.cacheKey soft1
  = Part000.RegexPatternCache.cacheKey soft2 ->
  soft1 = soft2.
Proof.
  unfold Part000.RegexPatternCache.cacheKey. intros H.
  apply join_singletons_injective in H. now injection H.
Qed.

Lemma cacheKey_not_empty (soft : list Z) :
  Js.isEmpty (Part000.RegexPatternCache.cacheKey soft) = false.
Proof. destruct soft; reflexivity. Qed.

Lemma cache_get_app (key : Js.jsstring)
    (c1 c2 : Part000.RegexPatternCache.Cache) :
  Part000.RegexPatternCache.get key (c1 ++ c2)
  = match Part000.RegexPatternCache.get key c1 with
    | Some pattern => Some pattern
    | None => Part000.RegexPatternCache.get key c2
    end.
Proof.
  induction c1 as [|[k p] c1 IH]; [reflexivity|].
  cbn [app Part000.RegexPatternCache.get].
  destruct (Js.streq k key); [reflexivity|exact IH].
Qed.

Lemma cache_get_In (key : Js.jsstring) (pattern : list (Z * Z))
    (cache : Part000.RegexPatternCache.Cache) :
  Part000.RegexPatternCache.get key cache = Some pattern ->
  In (key, pattern) cache.
Proof.
  induction cache as [|[k p] cache IH]; [discriminate|].
  cbn [Part000.RegexPatternCache.get].
  destruct (Js.streq k key) eqn:E.
  - intros H. injection H as ->. apply streq_eq in E. subst k. now left.
  - intros H. right. now apply IH.
Qed.

Section CacheFacts.

(** every entry holds the pattern of the soft breaks of its key, and
    the cache is not over its size *)
Let wellFormed (cache : Part000.RegexPatternCache.Cache) : Prop :=
  length cache <= Part000.RegexPatternCache.maxSize
  /\ forall key pattern,
       In (key, pattern) cache ->
       exists soft,
         key = Part000.RegexPatternCache.cacheKey soft
         /\ classRanges (Js.LF :: soft) = Some pattern.

Lemma getBreakPattern_cached (cache : Part000.RegexPatternCache.Cache)
    (soft : list Z) :
  wellFormed cache ->
  wellFormed (fst (Part000.RegexPatternCache.getBreakPattern cache soft))
  /\ snd (Part000.RegexPatternCache.getBreakPattern cache soft)
     = classRanges (Js.LF :: soft).
Proof.
  intros [Hsize Hentries]. unfold Part000.RegexPatternCache.getBreakPattern.
  cbv zeta.
  destruct (Part000.RegexPatternCache.get
              (Part000.RegexPatternCache.cacheKey soft) cache)
    as [pattern|] eqn:Eget.
  - cbn [fst snd]. split; [split; assumption|].
    apply cache_get_In in Eget.
    destruct (Hentries _ _ Eget) as (soft' & Hkey & Hp).
    apply cacheKey_injective in Hkey. now subst soft'.
  - destruct (classRanges (Js.LF :: soft)) as [pattern|] eqn:Ec.
    2:{ cbn [fst snd]. split; [split; assumption|reflexivity]. }
    set (key := Part000.RegexPatternCache.cacheKey soft) in *.
    assert (Hnew : forall k p, In (k, p) (cache ++ [(key, pattern)]) ->
              exists soft',
                k = Part000.RegexPatternCache.cacheKey soft'
                /\ classRanges (Js.LF :: soft') = Some p).
    { intros k p Hin. apply in_app_or in Hin as [Hin|[Heq|[]]].
      - now apply Hentries.
      - injection Heq as <- <-. now exists soft. }
    assert (Hget : Part000.RegexPatternCache.get key
                     (cache ++ [(key, pattern)]) = Some pattern).
    { rewrite cache_get_app, Eget.
      cbn [Part000.RegexPatternCache.get]. now rewrite streq_refl. }
    destruct (Part000.RegexPatternCache.maxSize
              <? length (cache ++ [(key, pattern)])) eqn:Efull.
    + destruct cache as [|[firstKey p0] rest].
      * discriminate Efull.
      * cbn [app].
        destruct (Hentries firstKey p0 (or_introl eq_refl))
          as (soft0 & Hk0 & _).
        rewrite Hk0, cacheKey_not_empty. cbn [fst snd]. split.
        -- split.
           ++ rewrite length_app. cbn [length] in *. lia.
           ++ intros k p Hin. apply (Hnew k p). cbn [app]. now right.
        -- cbn [app Part000.RegexPatternCache.get] in Hget.
           cbn [Part000.RegexPatternCache.get] in Eget.
           destruct (Js.streq firstKey key); [discriminate Eget|].
           exact Hget.
    + cbn [fst snd]. split; [|exact Hget].
      split; [|exact Hnew]. apply Nat.ltb_ge in Efull. exact Efull.
Qed.

Lemma cache_reachable (calls : list (list Z)) :
  forall cache,
  wellFormed cache ->
  wellFormed
    (fold_left
       (fun c soft => fst (Part000.RegexPatternCache.getBreakPattern c soft))
       calls cache).
Proof.
  induction calls as [|soft calls IH]; intros cache Hwf; [exact Hwf|].
  cbn [fold_left]. apply IH. now apply getBreakPattern_cached.
Qed.

End CacheFacts.

(** X18: the pattern cache is bounded and cannot be seen from outside:
    after any sequence of calls it holds at most [maxSize] patterns, and
    a call returns the pattern of the soft breaks it is given, as if it
    were compiled afresh. *)
Theorem pattern_cache_is_bounded_and_transparent
    (calls : list (list Z)) (softBreakChars : list Z) :
  let cache :=
    fold_left
      (fun c soft => fst (Part000.RegexPatternCache.getBreakPattern c soft))
      calls [] in
  length cache <= Part000.RegexPatternCache.maxSize
  /\ length (fst (Part000.RegexPatternCache.getBreakPattern cache
                    softBreakChars))
     <= Part000.RegexPatternCache.maxSize
  /\ snd (Part000.RegexPatternCache.getBreakPattern cache softBreakChars)
     = classRanges (Js.LF :: softBreakChars).
Proof.
  cbv zeta.
  pose proof (cache_reachable calls []) as Hreach. cbv zeta in Hreach.
  assert (Hwf : length (@nil (Js.jsstring * list (Z * Z)))
                <= Part000.RegexPatternCache.maxSize
                /\ forall key pattern,
                     In (key, pattern) [] ->
                     exists soft,
                       key = Part000.RegexPatternCache.cacheKey soft
                       /\ classRanges (Js.LF :: soft) = Some pattern).
  { split; [cbn; lia|]. intros key pattern []. }
  specialize (Hreach Hwf).
  pose proof (getBreakPattern_cached _ softBreakChars Hreach) as H.
  cbv zeta in H. destruct H as [[Hsize _] Hpattern].
  destruct Hreach as [Hsize0 _]. auto.
Qed.

(** ** The analysis of part_000 *)

Lemma hasBreakCharacters_iff (cfg : Part000.ProcessingConfig)
    (text : Js.jsstring) :
  Part000.hasBreakCharacters cfg text = true
  <-> exists c, In c text
                /\ (c = Js.LF \/ In c (Part000.softBreakChars cfg)).
Proof.
  unfold Part000.hasBreakCharacters. split.
  - destruct (existsb (Z.eqb Js.LF) text) eqn:E.
    + intros _. apply existsb_exists in E as (c & Hc & Heq).
      apply Z.eqb_eq in Heq. exists c. split; [exact Hc|now left].
    + intros H. apply existsb_exists in H as (sb & Hsb & H).
      apply existsb_exists in H as (c & Hc & Heq).
      apply Z.eqb_eq in Heq. subst c. exists sb. split; [exact Hc|now right].
  - intros (c & Hc & [->|Hsoft]).
    + replace (existsb (Z.eqb Js.LF) text) with true; [reflexivity|].
      symmetry. apply existsb_exists. exists Js.LF.
      split; [exact Hc|apply Z.eqb_refl].
    + destruct (existsb (Z.eqb Js.LF) text); [reflexivity|].
      apply existsb_exists. exists c. split; [exact Hsoft|].
      apply existsb_exists. exists c. split; [exact Hc|apply Z.eqb_refl].
Qed.

Lemma changeTypes_distinct (kinds : list DetectionType) :
  forall seen issues,
  map Part000.type issues = kinds ->
  NoDup (seen ++ kinds) ->
  fold_left
    (fun seen issue =>
       if existsb (DetectionType_eqb (Part000.type issue)) seen then seen
       else seen ++ [Part000.type issue])
    issues seen
  = seen ++ kinds.
Proof.
  induction kinds as [|k kinds IH]; intros seen [|i issues] Hmap Hnodup;
    try discriminate Hmap.
  - cbn [fold_left]. now rewrite app_nil_r.
  - cbn [map] in Hmap. injection Hmap as Hk Hmap. cbn [fold_left].
    assert (Hnew : existsb (DetectionType_eqb (Part000.type i)) seen = false).
    { destruct (existsb _ seen) eqn:E; [|reflexivity].
      apply existsb_exists in E as (x & Hx & Heq).
      assert (x = k) by (rewrite <- Hk; destruct (Part000.type i), x;
                         try discriminate Heq; reflexivity).
      subst x. apply NoDup_remove_2 in Hnodup.
      exfalso. apply Hnodup. apply in_or_app. now left. }
    rewrite Hnew, Hk.
    rewrite (IH (seen ++ [k]) issues Hmap).
    + now rewrite <- app_assoc.
    + now rewrite <- app_assoc.
Qed.

(** X19: the analysis of part_000 reports at most one issue of each kind,
    in the order auto-width, edge-breaking, soft-break, and never
    auto-width together with edge-breaking; a node gets an issue only if
    it has its fonts, is not locked, is visible, is long enough and its
    text contains a hard or a configured soft break; the estimated
    changes list the kinds of the issues as they are; and the test for
    break characters hides no auto-width and no soft-break issue (it can
    only hide an edge-breaking one). *)
Theorem part000_analysis_needs_a_break (cfg : Part000.ProcessingConfig)
    (node : TextNode) :
  let result := Part000.analyzeTextNode cfg node in
  Part000.node result = node
  /\ Part000.originalText result = characters node
  /\ (exists a e s : bool,
        map Part000.type (Part000.issues result)
        = (if a then [AutoWidth] else [])
            ++ (if e then [EdgeBreaking] else [])
            ++ (if s then [SoftBreak] else [])
        /\ (a = true -> textAutoResize node = WIDTH_AND_HEIGHT
                        /\ In Js.LF (characters node))
        /\ (e = true -> textAutoResize node = NONE
                        \/ textAutoResize node = HEIGHT)
        /\ (s = true -> (paragraphSpacing node =? 0)%float = true
                        /\ exists c, In c (Part000.softBreakChars cfg)
                                     /\ In c (characters node))
        /\ a && e = false)
  /\ (Part000.issues result <> [] ->
      hasMissingFont node = false /\ locked node = false
      /\ visible node = true
      /\ (Part000.minCharacters cfg
          <= Z.of_nat (length (characters node)))%Z
      /\ (exists c, In c (characters node)
                    /\ (c = Js.LF \/ In c (Part000.softBreakChars cfg)))
      /\ Part000.estimatedChanges result
         = Part000.ChangeList (map Part000.type (Part000.issues result)))
  /\ (Part000.hasBreakCharacters cfg (characters node) = false ->
      Part000.detectAutoWidthIssues node = []
      /\ Part000.detectSoftBreaks cfg node = []).
Proof.
  cbv zeta.
  assert (Hkinds : exists a e s : bool,
            map Part000.type
              (Part000.detectAutoWidthIssues node
                 ++ Part000.detectEdgeBreaking cfg node
                 ++ Part000.detectSoftBreaks cfg node)
            = (if a then [AutoWidth] else [])
                ++ (if e then [EdgeBreaking] else [])
                ++ (if s then [SoftBreak] else [])
            /\ (a = true -> textAutoResize node = WIDTH_AND_HEIGHT
                            /\ In Js.LF (characters node))
            /\ (e = true -> textAutoResize node = NONE
                            \/ textAutoResize node = HEIGHT)
            /\ (s = true -> (paragraphSpacing node =? 0)%float = true
                            /\ exists c, In c (Part000.softBreakChars cfg)
                                         /\ In c (characters node))
            /\ a && e = false).
  { exists (AutoResize_eqb (textAutoResize node) WIDTH_AND_HEIGHT
            && Part000.containsHardBreak (characters node)),
      ((AutoResize_eqb (textAutoResize node) NONE
        || AutoResize_eqb (textAutoResize node) HEIGHT)
       && match Part000.findEdgeBreakingLines cfg (characters node)
                  (width node) (getFontSize node) with
          | Some suspiciousLines => 0 <? length suspiciousLines
          | None => false
          end),
      ((paragraphSpacing node =? 0)%float
       && (0 <? Part000.countSoftBreaks cfg (characters node))).
    split; [|split; [|split; [|split]]].
    - rewrite !map_app.
      unfold Part000.detectAutoWidthIssues, Part000.detectEdgeBreaking,
        Part000.detectSoftBreaks. cbv zeta.
      destruct (AutoResize_eqb (textAutoResize node) WIDTH_AND_HEIGHT
                && Part000.containsHardBreak (characters node));
        destruct (AutoResize_eqb (textAutoResize node) NONE
                  || AutoResize_eqb (textAutoResize node) HEIGHT);
        (destruct (Part000.findEdgeBreakingLines _ _ _ _);
         [destruct (0 <? length _)|]);
        destruct (paragraphSpacing node =? 0)%float;
        destruct (0 <? Part000.countSoftBreaks cfg (characters node));
        reflexivity.
    - intros H. apply andb_prop in H as [Hmode Hbreak]. split.
      + destruct (textAutoResize node); try discriminate Hmode; reflexivity.
      + unfold Part000.containsHardBreak in Hbreak.
        apply existsb_exists in Hbreak as (c & Hc & Heq).
        apply Z.eqb_eq in Heq. now subst c.
    - intros H. apply andb_prop in H as [Hmode _].
      destruct (textAutoResize node); try discriminate Hmode; auto.
    - intros H. apply andb_prop in H as [Hspacing Hcount].
      split; [exact Hspacing|]. apply Nat.ltb_lt in Hcount.
      now apply soft_break_count_positive in Hcount.
    - destruct (textAutoResize node); cbn [AutoResize_eqb andb orb];
        try reflexivity; apply andb_false_r. }
  assert (Hguard : Part000.hasBreakCharacters cfg (characters node) = false ->
                   Part000.detectAutoWidthIssues node = []
                   /\ Part000.detectSoftBreaks cfg node = []).
  { intros Hno. split.
    - unfold Part000.detectAutoWidthIssues.
      destruct (_ && _) eqn:E; [|reflexivity].
      apply andb_prop in E as [_ E]. unfold Part000.containsHardBreak in E.
      unfold Part000.hasBreakCharacters in Hno. rewrite E in Hno.
      discriminate Hno.
    - unfold Part000.detectSoftBreaks.
      destruct (_ =? _)%float; [|reflexivity].
      destruct (0 <? _) eqn:E; [|reflexivity].
      apply Nat.ltb_lt in E.
      apply soft_break_count_positive in E as (c & Hsoft & Hc).
      assert (Hhas : Part000.hasBreakCharacters cfg (characters node) = true)
        by (apply hasBreakCharacters_iff; exists c; auto).
      congruence. }
  unfold Part000.analyzeTextNode.
  destruct (hasMissingFont node) eqn:Efont.
  { cbn [Part000.node Part000.originalText Part000.issues map].
    repeat split; try assumption; try congruence; try apply Hguard;
      try assumption.
    exists false, false, false. repeat split; discriminate. }
  destruct (locked node || negb (visible node)) eqn:Elock.
  { cbn [Part000.node Part000.originalText Part000.issues map].
    repeat split; try assumption; try congruence; try apply Hguard;
      try assumption.
    exists false, false, false. repeat split; discriminate. }
  destruct (Z.of_nat (length (characters node)) <? Part000.minCharacters cfg)%Z
    eqn:Eshort.
  { cbn [Part000.node Part000.originalText Part000.issues map].
    repeat split; try assumption; try congruence; try apply Hguard;
      try assumption.
    exists false, false, false. repeat split; discriminate. }
  destruct (Part000.hasBreakCharacters cfg (characters node)) eqn:Ehas;
    cbn [negb].
  2:{ cbn [Part000.node Part000.originalText Part000.issues map].
      repeat split; try assumption; try congruence; try apply Hguard;
        try assumption; try reflexivity.
      exists false, false, false. repeat split; discriminate. }
  cbn [Part000.node Part000.originalText Part000.issues
       Part000.estimatedChanges].
  apply orb_false_iff in Elock as [Hlocked Hvisible].
  apply negb_false_iff in Hvisible. apply Z.ltb_ge in Eshort.
  split; [reflexivity|]. split; [reflexivity|].
  split; [exact Hkinds|]. split; [|discriminate].
  intros Hne. repeat split; try assumption.
  - now apply hasBreakCharacters_iff.
  - destruct Hkinds as (a & e & s & Hmap & _ & _ & _ & Hae).
    unfold Part000.generateEstimatedChanges.
    destruct (Part000.detectAutoWidthIssues node
                ++ Part000.detectEdgeBreaking cfg node
                ++ Part000.detectSoftBreaks cfg node) as [|i l] eqn:El;
      [congruence|].
    f_equal. unfold Part000.changeTypes.
    rewrite (changeTypes_distinct _ [] (i :: l) eq_refl); [reflexivity|].
    cbn [app]. rewrite Hmap.
    destruct a, e, s; cbn [app]; repeat constructor;
      cbn [In]; intuition discriminate.
Qed.

(** ** What the simulated wrap keeps of a text *)

Section WrapKeeps.

Variable est : Js.jsstring -> float -> float.
Variable containerWidth fontSize' : float.
Variable keep : Z -> bool.
Hypothesis keep_not_space :
  forall c, keep c = true -> Js.isWhiteSpace c = false.

Lemma wrapParagraph_keep (p : Js.jsstring) :
  filter keep (concat (wrapParagraph est containerWidth fontSize' [] p))
  = filter keep p.
Proof.
  destruct (Js.trim p) as [|c t] eqn:Et.
  - unfold wrapParagraph. rewrite Et. cbn [Js.isEmpty app concat filter].
    rewrite <- (filter_keep_trimStart keep keep_not_space p).
    rewrite <- (filter_keep_trimEnd keep keep_not_space (Js.trimStart p)).
    fold (Js.trim p). now rewrite Et.
  - rewrite (wrapParagraph_content est containerWidth fontSize' p);
      [reflexivity|]. rewrite Et. discriminate.
Qed.

Lemma wrapParagraph_some_line (p : Js.jsstring) :
  1 <= length (wrapParagraph est containerWidth fontSize' [] p).
Proof.
  destruct (Js.trim p) as [|c t] eqn:Et.
  - unfold wrapParagraph. rewrite Et. cbn. lia.
  - assert (Hne : Js.trim p <> []) by (rewrite Et; discriminate).
    pose proof (wrapParagraph_content est containerWidth fontSize' p Hne)
      as Hcontent.
    destruct (wrapParagraph est containerWidth fontSize' [] p) as [|l ls].
    + cbn [concat] in Hcontent. subst p. discriminate Et.
    + cbn [length]. lia.
Qed.

Lemma simulateWordWrap_paragraphs (bp : Z -> bool) (text : Js.jsstring) :
  simulateWordWrap est (Some bp) containerWidth fontSize' text
  = Some (flat_map (wrapParagraph est containerWidth fontSize' [])
            (Js.splitOn bp text)).
Proof.
  unfold simulateWordWrap. cbv zeta. f_equal.
  exact (fold_wrapParagraph est containerWidth fontSize'
           (Js.splitOn bp text) []).
Qed.

Lemma simulateWordWrap_keep (bp : Z -> bool) (text : Js.jsstring) :
  (forall c, bp c = true -> keep c = false) ->
  filter keep
    (concat (flat_map (wrapParagraph est containerWidth fontSize' [])
               (Js.splitOn bp text)))
  = filter keep text.
Proof.
  intros Hbp.
  rewrite <- (splitOn_keep keep bp text Hbp).
  induction (Js.splitOn bp text) as [|p ps IH]; [reflexivity|].
  cbn [flat_map concat]. rewrite concat_app, !filter_app, IH.
  now rewrite wrapParagraph_keep.
Qed.

Lemma simulateWordWrap_lines (bp : Z -> bool) (text : Js.jsstring) :
  length (filter bp text)
  < length (flat_map (wrapParagraph est containerWidth fontSize' [])
              (Js.splitOn bp text)).
Proof.
  assert (H : length (Js.splitOn bp text)
              <= length (flat_map
                           (wrapParagraph est containerWidth fontSize' [])
                           (Js.splitOn bp text))).
  { induction (Js.splitOn bp text) as [|p ps IH]; [reflexivity|].
    cbn [flat_map length]. rewrite length_app.
    pose proof (wrapParagraph_some_line p). lia. }
  pose proof (splitOn_length bp text) as Hsplit. lia.
Qed.

(** what the simulation keeps, for the class it was given *)
Lemma simulateWordWrap_kept (soft : list Z) (text : Js.jsstring) :
  formsNoRange soft = true ->
  (forall c, keep c = negb (Js.isWhiteSpace c || Spec.breakMatcher soft c)) ->
  exists lines,
    simulateWordWrap est (compileBreakClass soft) containerWidth fontSize'
      text = Some lines
    /\ filter keep (concat lines) = filter keep text
    /\ length (filter (Spec.breakMatcher soft) text) < length lines.
Proof.
  intros Hclass Hkeep.
  destruct (compileBreakClass_formsNoRange soft Hclass) as (m & Hm & Hmem).
  rewrite Hm, simulateWordWrap_paragraphs.
  rewrite (splitOn_ext m (Spec.breakMatcher soft) text (fun c _ => Hmem c)).
  eexists. split; [reflexivity|]. split.
  - apply simulateWordWrap_keep.
    intros c Hc. rewrite Hkeep, Hc. now rewrite orb_true_r.
  - apply simulateWordWrap_lines.
Qed.

End WrapKeeps.

(** X20: the simulated wrap of a whole text keeps its visible characters:
    the code units that are neither white space nor break characters come
    out the same, in the same order, over the lines; and every paragraph
    gives at least one line, so there are more lines than the text has
    break characters. *)
Theorem simulateWordWrap_keeps_visible_characters
    (cfgA : CodeTs.ProcessingConfig) (cfgB : Part000.ProcessingConfig)
    (text : Js.jsstring) (containerWidth fontSize : float)
    (HclassA : formsNoRange (CodeTs.softBreakChars cfgA) = true)
    (HclassB : formsNoRange (Part000.softBreakChars cfgB) = true) :
  (exists lines,
     CodeTs.simulateWordWrap cfgA text containerWidth fontSize = Some lines
     /\ filter (fun c => negb (Js.isWhiteSpace c
                               || Spec.breakMatcher
                                    (CodeTs.softBreakChars cfgA) c))
          (concat lines)
        = filter (fun c => negb (Js.isWhiteSpace c
                                 || Spec.breakMatcher
                                      (CodeTs.softBreakChars cfgA) c))
            text
     /\ length (filter (Spec.breakMatcher (CodeTs.softBreakChars cfgA)) text)
        < length lines)
  /\ (exists lines,
        Part000.simulateWordWrap cfgB text containerWidth fontSize
        = Some lines
        /\ filter (fun c => negb (Js.isWhiteSpace c
                                  || Spec.breakMatcher
                                       (Part000.softBreakChars cfgB) c))
             (concat lines)
           = filter (fun c => negb (Js.isWhiteSpace c
                                    || Spec.breakMatcher
                                         (Part000.softBreakChars cfgB) c))
               text
        /\ length (filter (Spec.breakMatcher (Part000.softBreakChars cfgB))
                     text)
           < length lines).
Proof.
  split.
  - apply (simulateWordWrap_kept (CodeTs.estimateTextWidth cfgA)
             containerWidth fontSize _); [|exact HclassA|reflexivity].
    intros c Hc. apply negb_true_iff, orb_false_iff in Hc. tauto.
  - apply (simulateWordWrap_kept (Part000.estimateTextWidth cfgB)
             containerWidth fontSize _); [|exact HclassB|reflexivity].
    intros c Hc. apply negb_true_iff, orb_false_iff in Hc. tauto.
Qed.

Lemma simulateWordWrap_keeps_visible_characters_witness :
  exists lines,
    CodeTs.simulateWordWrap CodeTs.DEFAULT_CONFIG Sample.softBrokenText
      400 16 = Some lines
    /\ 1 < length lines.
Proof.
  destruct (proj1 (simulateWordWrap_keeps_visible_characters
                     CodeTs.DEFAULT_CONFIG Sample.config000
                     Sample.softBrokenText 400 16 eq_refl eq_refl))
    as (lines & Hsim & _ & Hlen).
  exists lines. split; [exact Hsim|exact Hlen].
Defined.

(** ** The order in which the issues of an analysis are treated *)

Lemma detectAutoWidthIssues_cases (cfg : CodeTs.ProcessingConfig)
    (node : TextNode) :
  CodeTs.detectAutoWidthIssues cfg node = []
  \/ exists lineNumbers,
       CodeTs.detectAutoWidthIssues cfg node
       = [CodeTs.mkIssue AutoWidth 0.9 lineNumbers].
Proof.
  unfold CodeTs.detectAutoWidthIssues. cbv zeta.
  destruct (_ && _); [|now left].
  destruct (CodeTs.getLineNumbers _ _);
    [right; eexists; reflexivity|now left].
Qed.

Lemma detectEdgeBreaking_cases (cfg : CodeTs.ProcessingConfig)
    (node : TextNode) :
  CodeTs.detectEdgeBreaking cfg node = []
  \/ exists lineNumbers,
       CodeTs.detectEdgeBreaking cfg node
       = [CodeTs.mkIssue EdgeBreaking 0.7 lineNumbers].
Proof.
  unfold CodeTs.detectEdgeBreaking. cbv zeta.
  destruct (_ || _); [|now left].
  destruct (CodeTs.findEdgeBreakingLines _ _ _ _); [|now left].
  destruct (_ <? _); [right; eexists; reflexivity|now left].
Qed.

Lemma detectSoftBreaks_kinds (cfg : CodeTs.ProcessingConfig)
    (node : TextNode) :
  CodeTs.detectSoftBreaks cfg node = []
  \/ exists lineNumbers,
       CodeTs.detectSoftBreaks cfg node
       = [CodeTs.mkIssue SoftBreak 0.8 lineNumbers].
Proof.
  unfold CodeTs.detectSoftBreaks. cbv zeta.
  destruct (_ =? _)%float; [|now left].
  destruct (_ <? _); [|now left].
  destruct (CodeTs.getSoftBreakLines _ _);
    [right; eexists; reflexivity|now left].
Qed.

(** X21: [generateChanges] of src/code.ts sorts the issues by falling
    confidence before it treats them: of the issues of an analysis, which
    come in the order auto-width, edge-breaking, soft-break, the soft
    break is treated before the edge break.  (part_000 does not sort and
    treats them as they come.) *)
Theorem analysis_issues_are_treated_by_confidence
    (cfg : CodeTs.ProcessingConfig) (node : TextNode) :
  exists a e s : bool,
    map CodeTs.type (CodeTs.issues (CodeTs.analyzeTextNode cfg node))
    = (if a then [AutoWidth] else [])
        ++ (if e then [EdgeBreaking] else [])
        ++ (if s then [SoftBreak] else [])
    /\ map CodeTs.type
         (CodeTs.sortIssues
            (CodeTs.issues (CodeTs.analyzeTextNode cfg node)))
       = (if a then [AutoWidth] else [])
           ++ (if s then [SoftBreak] else [])
           ++ (if e then [EdgeBreaking] else []).
Proof.
  unfold CodeTs.analyzeTextNode.
  destruct (hasMissingFont node);
    [exists false, false, false; split; reflexivity|].
  destruct (_ || _); [exists false, false, false; split; reflexivity|].
  destruct (_ <? _)%Z; [exists false, false, false; split; reflexivity|].
  cbn [CodeTs.issues].
  assert (Ha : (if CodeTs.enabled cfg AutoWidth
                then CodeTs.detectAutoWidthIssues cfg node else []) = []
               \/ exists lineNumbers,
                    (if CodeTs.enabled cfg AutoWidth
                     then CodeTs.detectAutoWidthIssues cfg node else [])
                    = [CodeTs.mkIssue AutoWidth 0.9 lineNumbers]).
  { destruct (CodeTs.enabled cfg AutoWidth); [|now left].
    apply detectAutoWidthIssues_cases. }
  assert (He : (if CodeTs.enabled cfg EdgeBreaking
                then CodeTs.detectEdgeBreaking cfg node else []) = []
               \/ exists lineNumbers,
                    (if CodeTs.enabled cfg EdgeBreaking
                     then CodeTs.detectEdgeBreaking cfg node else [])
                    = [CodeTs.mkIssue EdgeBreaking 0.7 lineNumbers]).
  { destruct (CodeTs.enabled cfg EdgeBreaking); [|now left].
    apply detectEdgeBreaking_cases. }
  assert (Hs : (if CodeTs.enabled cfg SoftBreak
                then CodeTs.detectSoftBreaks cfg node else []) = []
               \/ exists lineNumbers,
                    (if CodeTs.enabled cfg SoftBreak
                     then CodeTs.detectSoftBreaks cfg node else [])
                    = [CodeTs.mkIssue SoftBreak 0.8 lineNumbers]).
  { destruct (CodeTs.enabled cfg SoftBreak); [|now left].
    apply detectSoftBreaks_kinds. }
  destruct Ha as [->|[la ->]], He as [->|[le ->]], Hs as [->|[ls ->]].
  - exists false, false, false. split; reflexivity.
  - exists false, false, true. split; reflexivity.
  - exists false, true, false. split; reflexivity.
  - exists false, true, true. split; reflexivity.
  - exists true, false, false. split; reflexivity.
  - exists true, false, true. split; reflexivity.
  - exists true, true, false. split; reflexivity.
  - exists true, true, true. split; reflexivity.
Qed.

(** ** The batch analysis of part_000 *)

Section BatchFacts.

Variable analyze : TextNode -> Part000.TextAnalysisResult + Js.jsstring.
Variable readFails : TextNode -> option Js.jsstring.
Variable nodes : list TextNode.

Let chunkLoop := Part000.analyzeChunk analyze readFails.
Let chunksLoop := Part000.analyzeChunks analyze readFails nodes.

(** what the batch records for a node *)
Let recorded (n : TextNode) : Part000.TextAnalysisResult :=
  match analyze n with
  | inl result => result
  | inr error =>
      Part000.mkResult n [] (Part000.AnalysisError error) (characters n)
  end.

Lemma analyzeChunk_app_part000 (l1 l2 : list TextNode) :
  forall results,
  chunkLoop (l1 ++ l2) results
  = match chunkLoop l1 results with
    | inl results' => chunkLoop l2 results'
    | inr thrown => inr thrown
    end.
Proof.
  induction l1 as [|n l1 IH]; intros results; [reflexivity|].
  cbn [app chunkLoop Part000.analyzeChunk].
  destruct (Part000.analyzeItem _ _ _ _) as [results'|thrown];
    [apply IH|reflexivity].
Qed.

(** the chunks do not show *)
Lemma analyzeChunks_flat_part000 (m : nat) :
  forall a results,
  chunksLoop (map (fun k => k * Part000.CHUNK_SIZE) (seq a m)) results
  = chunkLoop
      (firstn (m * Part000.CHUNK_SIZE)
         (skipn (a * Part000.CHUNK_SIZE) nodes)) results.
Proof.
  induction m as [|m IH]; intros a results; [reflexivity|].
  cbn [seq map chunksLoop Part000.analyzeChunks].
  fold chunkLoop. fold chunksLoop.
  replace (S m * Part000.CHUNK_SIZE)
    with (Part000.CHUNK_SIZE + m * Part000.CHUNK_SIZE) by lia.
  rewrite firstn_plus, analyzeChunk_app_part000.
  destruct (chunkLoop _ results) as [results'|thrown]; [|reflexivity].
  rewrite (IH (S a)), skipn_skipn. reflexivity.
Qed.

Lemma analyzeNodes_flat_part000 :
  Part000.analyzeNodes analyze readFails nodes
  = match chunkLoop nodes [] with
    | inl results => inl results
    | inr thrown => inr (BATCH_ANALYSIS_FAILED ++ thrown)
    end.
Proof.
  unfold Part000.analyzeNodes, Part000.chunkStarts.
  fold chunksLoop. rewrite analyzeChunks_flat_part000.
  cbn [Nat.mul skipn].
  rewrite firstn_all2; [reflexivity|].
  unfold Part000.CHUNK_SIZE.
  pose proof (Nat.div_mod_eq (length nodes + 20 - 1) 20) as Hdiv.
  pose proof (Nat.mod_upper_bound (length nodes + 20 - 1) 20) as Hmod.
  lia.
Qed.

Lemma analyzeChunk_map (chunk : list TextNode) :
  (forall n e, In n chunk -> analyze n = inr e -> readFails n = None) ->
  forall results,
  chunkLoop chunk results = inl (results ++ map recorded chunk).
Proof.
  induction chunk as [|n chunk IH]; intros Hread results.
  - cbn. now rewrite app_nil_r.
  - cbn [chunkLoop Part000.analyzeChunk map].
    assert (Hrest : forall m e, In m chunk -> analyze m = inr e ->
                                readFails m = None)
      by (intros m e Hm; apply Hread; now right).
    unfold Part000.analyzeItem, recorded at 1.
    destruct (analyze n) as [result|error] eqn:E.
    + fold chunkLoop. rewrite (IH Hrest), <- app_assoc. reflexivity.
    + rewrite (Hread n error (or_introl eq_refl) E).
      fold chunkLoop. rewrite (IH Hrest), <- app_assoc. reflexivity.
Qed.

Lemma analyzeNodes_map :
  (forall n e, In n nodes -> analyze n = inr e -> readFails n = None) ->
  Part000.analyzeNodes analyze readFails nodes = inl (map recorded nodes).
Proof.
  intros Hread. rewrite analyzeNodes_flat_part000.
  now rewrite (analyzeChunk_map nodes Hread []).
Qed.

Lemma analyzeNodes_aborted_part000 (pre post : list TextNode) (n : TextNode)
    (error thrown : Js.jsstring) :
  nodes = pre ++ n :: post ->
  (forall m e, In m pre -> analyze m = inr e -> readFails m = None) ->
  analyze n = inr error -> readFails n = Some thrown ->
  Part000.analyzeNodes analyze readFails nodes
  = inr (BATCH_ANALYSIS_FAILED ++ thrown).
Proof.
  intros Hnodes Hpre Hn Hread. rewrite analyzeNodes_flat_part000, Hnodes.
  rewrite analyzeChunk_app_part000, (analyzeChunk_map pre Hpre []).
  cbn [chunkLoop Part000.analyzeChunk]. unfold Part000.analyzeItem.
  now rewrite Hn, Hread.
Qed.

End BatchFacts.

(** X22: the batch analysis of part_000 works through the nodes in
    chunks.  When the text of every node whose analysis throws can be
    read, it returns one result for every node, in the order of the
    nodes: the result of the analysis, or the error result; with the
    analyzer of part_000, which does not throw, it is the list of their
    analyses.  When the analysis of a node throws and the read of its text
    in the [catch] throws too, the batch throws
    ['Batch analysis failed: ...'] and returns nothing. *)
Theorem part000_analyzeNodes_one_result_per_node
    (analyze : TextNode -> Part000.TextAnalysisResult + Js.jsstring)
    (readFails : TextNode -> option Js.jsstring)
    (cfg : Part000.ProcessingConfig) (nodes : list TextNode) :
  let recorded := fun n =>
    match analyze n with
    | inl result => result
    | inr error =>
        Part000.mkResult n [] (Part000.AnalysisError error) (characters n)
    end in
  ((forall n e, In n nodes -> analyze n = inr e -> readFails n = None) ->
   Part000.analyzeNodes analyze readFails nodes = inl (map recorded nodes)
   /\ length (map recorded nodes) = length nodes)
  /\ Part000.analyzeNodes (fun n => inl (Part000.analyzeTextNode cfg n))
       readFails nodes
     = inl (map (Part000.analyzeTextNode cfg) nodes)
  /\ map Part000.node (map (Part000.analyzeTextNode cfg) nodes) = nodes
  /\ (forall pre n post error thrown,
        nodes = pre ++ n :: post ->
        (forall m e, In m pre -> analyze m = inr e -> readFails m = None) ->
        analyze n = inr error -> readFails n = Some thrown ->
        Part000.analyzeNodes analyze readFails nodes
        = inr (BATCH_ANALYSIS_FAILED ++ thrown)).
Proof.
  cbv zeta. split; [|split; [|split]].
  - intros Hread. split; [|apply length_map].
    exact (analyzeNodes_map analyze readFails nodes Hread).
  - apply (analyzeNodes_map (fun n => inl (Part000.analyzeTextNode cfg n))
             readFails nodes).
    intros n e _ H. discriminate H.
  - rewrite map_map. rewrite <- (map_id nodes) at 2.
    apply map_ext. intros n. unfold Part000.analyzeTextNode.
    destruct (hasMissingFont n); [reflexivity|].
    destruct (_ || _); [reflexivity|].
    destruct (_ <? _)%Z; [reflexivity|].
    destruct (negb _); reflexivity.
  - intros pre n post error thrown.
    apply analyzeNodes_aborted_part000.
Qed.

(** three blocks, the second of which is gone from the document *)
Lemma part000_analyzeNodes_witness :
  Part000.analyzeNodes
    (fun n => if locked n then inr [69%Z]
              else inl (Part000.analyzeTextNode Sample.config000 n))
    Sample.unreadable Sample.batch
  = inr (BATCH_ANALYSIS_FAILED ++ [69%Z]).
Proof.
  apply (proj2 (proj2 (proj2 (part000_analyzeNodes_one_result_per_node
                                (fun n =>
                                   if locked n then inr [69%Z]
                                   else inl (Part000.analyzeTextNode
                                               Sample.config000 n))
                                Sample.unreadable Sample.config000
                                Sample.batch)))
           [Sample.autoHeightNode] Sample.lockedNode [Sample.autoWidthNode]
           [69%Z] [69%Z] eq_refl).
  - intros m e [<-|[]] H. discriminate H.
  - reflexivity.
  - reflexivity.
Defined.

(** ** The soft-break lines of textAnalyzer.ts *)

Lemma splitOn_covers (p : Z -> bool) (s : Js.jsstring) (c : Z) :
  In c s -> p c = false -> exists l, In l (Js.splitOn p s) /\ In c l.
Proof.
  induction s as [|d s IH]; intros Hc Hp; [destruct Hc|].
  cbn [Js.splitOn]. destruct (p d) eqn:Ed.
  - destruct Hc as [->|Hc]; [congruence|].
    destruct (IH Hc Hp) as (l & Hl & Hcl). exists l. split; [now right|exact Hcl].
  - destruct (Js.splitOn p s) as [|l0 ls] eqn:Es.
    + exfalso. exact (splitOn_nonempty p s Es).
    + destruct Hc as [->|Hc].
      * exists (c :: l0). split; now left.
      * destruct (IH Hc Hp) as (l & [<-|Hl] & Hcl).
        -- exists (d :: l0). split; [now left|now right].
        -- exists l. split; [now right|exact Hcl].
Qed.

(** X23: [getSoftBreakLines] of textAnalyzer.ts names exactly the lines
    between hard breaks that contain a configured soft break, counted
    from 1; it names a line as soon as the text contains a soft break
    that is not the hard break. *)
Theorem srcDir_getSoftBreakLines_names_the_lines
    (softBreakChars : list Z) (text : Js.jsstring) :
  (forall k,
     In k (SrcDir.getSoftBreakLines softBreakChars text)
     <-> exists index line,
           k = index + 1
           /\ nth_error (Js.splitOn (Z.eqb Js.LF) text) index = Some line
           /\ exists c, In c softBreakChars /\ In c line)
  /\ (SrcDir.getSoftBreakLines softBreakChars text <> []
      <-> exists c, In c softBreakChars /\ c <> Js.LF /\ In c text).
Proof.
  assert (Hin : forall k,
            In k (SrcDir.getSoftBreakLines softBreakChars text)
            <-> exists index line,
                  k = index + 1
                  /\ nth_error (Js.splitOn (Z.eqb Js.LF) text) index
                     = Some line
                  /\ exists c, In c softBreakChars /\ In c line).
  { intros k. unfold SrcDir.getSoftBreakLines. cbv zeta.
    rewrite in_flat_map. split.
    - intros ([index line] & Hpair & Hk).
      apply combine_seq_In in Hpair as [_ Hnth].
      rewrite Nat.sub_0_r in Hnth.
      destruct (existsb _ softBreakChars) eqn:E; [|destruct Hk].
      destruct Hk as [<-|[]]. exists index, line.
      split; [reflexivity|]. split; [exact Hnth|].
      apply existsb_exists in E as (sb & Hsb & E).
      apply existsb_exists in E as (c & Hc & Heq).
      apply Z.eqb_eq in Heq. subst c. now exists sb.
    - intros (index & line & -> & Hnth & c & Hsoft & Hc).
      exists (index, line). split.
      + apply combine_seq_In. split; [lia|]. now rewrite Nat.sub_0_r.
      + replace (existsb _ softBreakChars) with true; [now left|].
        symmetry. apply existsb_exists. exists c. split; [exact Hsoft|].
        apply existsb_exists. exists c. split; [exact Hc|apply Z.eqb_refl]. }
  split; [exact Hin|]. split.
  - intros Hne.
    destruct (SrcDir.getSoftBreakLines softBreakChars text) as [|k ks] eqn:E;
      [congruence|].
    assert (Hk : In k (k :: ks)) by now left.
    destruct (proj1 (Hin k) Hk) as (index & line & _ & Hnth & c & Hsoft & Hc).
    apply nth_error_In in Hnth. exists c. split; [exact Hsoft|]. split.
    + intros ->.
      pose proof (splitOn_lines_clean _ _ line Hnth Js.LF Hc) as Hclean.
      now rewrite Z.eqb_refl in Hclean.
    + clear - Hnth Hc. revert line Hnth Hc.
      induction text as [|d text IH]; intros line Hnth Hc.
      * destruct Hnth as [<-|[]]. destruct Hc.
      * cbn [Js.splitOn] in Hnth. destruct (Js.LF =? d)%Z.
        -- destruct Hnth as [<-|Hnth]; [destruct Hc|].
           right. exact (IH line Hnth Hc).
        -- destruct (Js.splitOn (Z.eqb Js.LF) text) as [|l0 ls] eqn:Es.
           ++ exfalso. exact (splitOn_nonempty _ _ Es).
           ++ destruct Hnth as [<-|Hnth].
              ** destruct Hc as [<-|Hc]; [now left|].
                 right. exact (IH l0 (or_introl eq_refl) Hc).
              ** right. exact (IH line (or_intror Hnth) Hc).
  - intros (c & Hsoft & Hne & Hc).
    assert (Hp : (Js.LF =? c)%Z = false) by (apply Z.eqb_neq; congruence).
    destruct (splitOn_covers (Z.eqb Js.LF) text c Hc Hp)
      as (line & Hline & Hcl).
    apply In_nth_error in Hline as [index Hnth].
    assert (Hk : In (index + 1) (SrcDir.getSoftBreakLines softBreakChars text)).
    { apply Hin. exists index, line. repeat split; try assumption.
      now exists c. }
    intros E. rewrite E in Hk. destruct Hk.
Qed.

(** ** Reusing the processor of part_000 *)

Lemma SFcompare_Eq_cases (a b : spec_float) :
  SFcompare a b = Some Eq ->
  a = b \/ exists s1 s2, a = S754_zero s1 /\ b = S754_zero s2.
Proof.
  destruct a as [s1| s1| |s1 m1 e1], b as [s2| s2| |s2 m2 e2];
    cbn [SFcompare]; intros H; try discriminate H;
    try (right; exists s1, s2; split; reflexivity);
    try (destruct s1; discriminate H);
    try (destruct s2; discriminate H).
  - destruct s1, s2; try discriminate H; now left.
  - assert (Hm : forall c, (PosDef.Pos.compare_cont Eq m1 m2 = Eq
                            \/ CompOpp (PosDef.Pos.compare_cont Eq m1 m2) = Eq)
                           -> c = Eq -> m1 = m2).
    { intros c [Hc|Hc] _; apply Pos.compare_eq; unfold Pos.compare;
        [exact Hc|].
      destruct (PosDef.Pos.compare_cont Eq m1 m2); try discriminate Hc;
        reflexivity. }
    destruct s1, s2; try discriminate H;
      destruct (e1 ?= e2)%Z eqn:Ee; try discriminate H;
      apply Z.compare_eq in Ee; subst e2; injection H as H;
      left; f_equal; apply (Hm Eq); auto.
Qed.

Lemma eqb_zero_shape (x : float) :
  (x =? 0)%float = true -> exists s, Prim2SF x = S754_zero s.
Proof.
  rewrite eqb_spec. unfold SFeqb. intros H.
  destruct (SFcompare (Prim2SF x) (Prim2SF 0)) as [[| |]|] eqn:E;
    try discriminate H.
  apply SFcompare_Eq_cases in E as [E|(s1 & s2 & E & _)].
  - exists false. rewrite E. reflexivity.
  - now exists s1.
Qed.

Lemma zero_shape_eqb (x : float) (s : bool) :
  Prim2SF x = S754_zero s -> (x =? 0)%float = true.
Proof. intros H. rewrite eqb_spec, H. reflexivity. Qed.

Lemma eqb_true_cases (x y : float) :
  (x =? y)%float = true ->
  x = y \/ ((x =? 0)%float = true /\ (y =? 0)%float = true).
Proof.
  rewrite eqb_spec. unfold SFeqb. intros H.
  destruct (SFcompare (Prim2SF x) (Prim2SF y)) as [[| |]|] eqn:E;
    try discriminate H.
  apply SFcompare_Eq_cases in E as [E|(s1 & s2 & E1 & E2)].
  - left. now apply Prim2SF_inj.
  - right. split; eapply zero_shape_eqb; eassumption.
Qed.

Lemma leb_eqb_left (x y r : float) :
  (x =? y)%float = true -> (x <=? r)%float = (y <=? r)%float.
Proof.
  intros H. apply eqb_true_cases in H as [->|[Hx Hy]]; [reflexivity|].
  apply eqb_zero_shape in Hx as [sx Hx]. apply eqb_zero_shape in Hy as [sy Hy].
  rewrite !leb_spec, Hx, Hy. unfold SFleb.
  destruct (Prim2SF r); reflexivity.
Qed.

Lemma orDefault_eqb (a b d : float) :
  (a =? b)%float = true ->
  Js.orDefault (Some a) d = Js.orDefault (Some b) d.
Proof.
  intros H. apply eqb_true_cases in H as [->|[Ha Hb]]; [reflexivity|].
  unfold Js.orDefault. now rewrite Ha, Hb.
Qed.

Lemma fold_left_pointwise {A B : Type} (f g : A -> B -> A) (l : list B) :
  (forall a b, f a b = g a b) ->
  forall a, fold_left f l a = fold_left g l a.
Proof.
  intros H. induction l as [|b l IH]; intros a; [reflexivity|].
  cbn [fold_left]. now rewrite H, IH.
Qed.

Lemma rejoinLines_pointwise (f g : Js.jsstring -> bool)
    (comb : Js.jsstring -> Js.jsstring -> Js.jsstring)
    (lines : list Js.jsstring) :
  (forall l, f l = g l) ->
  rejoinLines f comb lines = rejoinLines g comb lines.
Proof.
  intros H. unfold rejoinLines, joinLines, shouldBreakAfter.
  do 4 f_equal. apply map_ext. intros i. unfold shouldBreakAfterAt.
  now rewrite H.
Qed.

Lemma simulateWordWrap_pointwise (est1 est2 : Js.jsstring -> float -> float)
    (bp : option (Z -> bool)) (containerWidth fontSize : float)
    (text : Js.jsstring) :
  (forall s fs, est1 s fs = est2 s fs) ->
  simulateWordWrap est1 bp containerWidth fontSize text
  = simulateWordWrap est2 bp containerWidth fontSize text.
Proof.
  intros H. unfold simulateWordWrap.
  destruct bp as [matches|]; [|reflexivity]. cbv zeta. f_equal.
  apply fold_left_pointwise.
  intros lines p. unfold wrapParagraph.
  destruct (Js.isEmpty (Js.trim p)); [reflexivity|]. cbv zeta.
  rewrite (fold_left_pointwise (wrapStep est1 containerWidth fontSize)
             (wrapStep est2 containerWidth fontSize));
    [reflexivity|].
  intros [ls cur] w. unfold wrapStep. now rewrite H.
Qed.

Lemma softBreakChars_unchanged (l1 l2 : list Z) :
  (length l1 =? length l2) = true ->
  existsb (fun pair => negb (fst pair =? snd pair)%Z) (combine l1 l2)
  = false ->
  l1 = l2.
Proof.
  revert l2. induction l1 as [|a l1 IH]; intros [|b l2] Hlen Hsome;
    try discriminate Hlen; [reflexivity|].
  cbn [combine existsb fst snd] in Hsome.
  apply orb_false_iff in Hsome as [Hab Hsome].
  apply negb_false_iff, Z.eqb_eq in Hab. subst b.
  f_equal. now apply IH.
Qed.

Section UnchangedConfig.

Variables oldConfig newConfig : Part000.ProcessingConfig.
Hypothesis unchanged :
  Part000.isConfigChanged (Some oldConfig) newConfig = false.

Lemma unchanged_fields :
  Part000.minCharacters oldConfig = Part000.minCharacters newConfig
  /\ (Part000.lineBreakThreshold oldConfig
      =? Part000.lineBreakThreshold newConfig)%float = true
  /\ Js.orDefault (Part000.fontWidthMultiplier oldConfig) 1
     = Js.orDefault (Part000.fontWidthMultiplier newConfig) 1
  /\ Part000.softBreakChars oldConfig = Part000.softBreakChars newConfig.
Proof.
  unfold Part000.isConfigChanged in unchanged.
  apply orb_false_iff in unchanged as [H Hsome].
  apply orb_false_iff in H as [H Hlen].
  apply orb_false_iff in H as [H Hmul].
  apply orb_false_iff in H as [Hmin Hthr].
  apply negb_false_iff in Hmin, Hthr, Hlen. apply Z.eqb_eq in Hmin.
  split; [exact Hmin|]. split; [exact Hthr|]. split.
  - destruct (Part000.fontWidthMultiplier oldConfig) as [a|],
      (Part000.fontWidthMultiplier newConfig) as [b|];
      try discriminate Hmul; [|reflexivity].
    apply negb_false_iff in Hmul. now apply orDefault_eqb.
  - now apply softBreakChars_unchanged.
Qed.

Lemma unchanged_width (text : Js.jsstring) (fontSize : float) :
  Part000.estimateTextWidth oldConfig text fontSize
  = Part000.estimateTextWidth newConfig text fontSize.
Proof.
  destruct unchanged_fields as (_ & _ & Hmul & _).
  unfold Part000.estimateTextWidth. apply fold_left_pointwise.
  intros totalWidth char. unfold Part000.getFallbackCharacterWidth.
  now rewrite Hmul.
Qed.

Lemma unchanged_rejoin (text : Js.jsstring) (containerWidth fontSize : float)
    (ignoreMinCharacters : bool) :
  Part000.removeLineBreaksJapanesePriority oldConfig text containerWidth
    fontSize ignoreMinCharacters
  = Part000.removeLineBreaksJapanesePriority newConfig text containerWidth
      fontSize ignoreMinCharacters.
Proof.
  destruct unchanged_fields as (Hmin & Hthr & _ & _).
  unfold Part000.removeLineBreaksJapanesePriority. rewrite Hmin.
  destruct (_ && _); [reflexivity|].
  apply rejoinLines_pointwise. intros l. unfold Part000.breakAfterLine.
  cbv zeta. now rewrite unchanged_width, (leb_eqb_left _ _ _ Hthr).
Qed.

Lemma unchanged_analysis (node : TextNode) :
  Part000.analyzeTextNode oldConfig node
  = Part000.analyzeTextNode newConfig node.
Proof.
  destruct unchanged_fields as (Hmin & Hthr & _ & Hsoft).
  assert (Hedge : Part000.detectEdgeBreaking oldConfig node
                  = Part000.detectEdgeBreaking newConfig node).
  { unfold Part000.detectEdgeBreaking, Part000.findEdgeBreakingLines.
    cbv zeta.
    replace (Part000.simulateWordWrap oldConfig (characters node)
               (width node) (getFontSize node))
      with (Part000.simulateWordWrap newConfig (characters node)
              (width node) (getFontSize node)).
    2:{ unfold Part000.simulateWordWrap. rewrite Hsoft. symmetry.
        apply simulateWordWrap_pointwise. exact unchanged_width. }
    destruct (Part000.simulateWordWrap newConfig _ _ _) as [lines|];
      [|reflexivity].
    erewrite flat_map_ext; [reflexivity|].
    intros [index line]. now rewrite unchanged_width,
      (leb_eqb_left _ _ _ Hthr). }
  assert (Hsoftb : Part000.detectSoftBreaks oldConfig node
                   = Part000.detectSoftBreaks newConfig node).
  { unfold Part000.detectSoftBreaks, Part000.countSoftBreaks.
    now rewrite Hsoft. }
  unfold Part000.analyzeTextNode, Part000.hasBreakCharacters.
  now rewrite Hmin, Hsoft, Hedge, Hsoftb.
Qed.

Lemma unchanged_changes (originalText : Js.jsstring)
    (issues : list Part000.DetectedIssue) (node : TextNode) :
  Part000.generateChanges oldConfig originalText issues node
  = Part000.generateChanges newConfig originalText issues node.
Proof.
  destruct unchanged_fields as (_ & _ & _ & Hsoft).
  unfold Part000.generateChanges. rewrite unchanged_rejoin.
  replace (Part000.applyIssues oldConfig node issues (None, originalText))
    with (Part000.applyIssues newConfig node issues (None, originalText));
    [reflexivity|].
  generalize (@None AutoResize, originalText).
  induction issues as [|i issues IH]; intros st; [reflexivity|].
  rewrite !applyIssues_cons_part000.
  replace (Part000.applyIssue oldConfig node st i)
    with (Part000.applyIssue newConfig node st i).
  - destruct (Part000.applyIssue newConfig node st i); [apply IH|reflexivity].
  - unfold Part000.applyIssue. destruct st as [r t].
    now rewrite !unchanged_rejoin, Hsoft.
Qed.

Lemma unchanged_processing (fontsLoad : bool)
    (accepts : Processing.NodeWrite -> bool)
    (messageOf : Processing.Thrown -> Js.jsstring) (node : TextNode)
    (forceChanges : option Processing.ForceChanges) :
  Part000.processIndividualNode oldConfig fontsLoad accepts messageOf node
    forceChanges
  = Part000.processIndividualNode newConfig fontsLoad accepts messageOf node
      forceChanges.
Proof.
  destruct unchanged_fields as (_ & _ & _ & Hsoft).
  unfold Part000.processIndividualNode, Part000.forceNode,
    Part000.processTextDirectly.
  destruct (Processing.validateOne node); [reflexivity|].
  destruct forceChanges as [force|]; [|reflexivity].
  now rewrite unchanged_rejoin, Hsoft.
Qed.

End UnchangedConfig.

(** X24: a configuration that [isConfigChanged] of part_000 calls
    unchanged behaves as the one the processor was built with, also when
    the two differ (a threshold or a multiplier of 0 against one of -0):
    the width estimate, the rejoin, the analysis, the changes generated
    and the processing of a node are the same, so [getBatchProcessor]
    may hand out the processor it has; otherwise it builds one for the
    given configuration. *)
Theorem unchanged_config_behaves_the_same
    (oldConfig newConfig : Part000.ProcessingConfig)
    (Hsame : Part000.isConfigChanged (Some oldConfig) newConfig = false) :
  Part000.getBatchProcessor (Some oldConfig) newConfig
  = (Some oldConfig, oldConfig)
  /\ (forall text fontSize,
        Part000.estimateTextWidth oldConfig text fontSize
        = Part000.estimateTextWidth newConfig text fontSize)
  /\ (forall text containerWidth fontSize ignoreMinCharacters,
        Part000.removeLineBreaksJapanesePriority oldConfig text
          containerWidth fontSize ignoreMinCharacters
        = Part000.removeLineBreaksJapanesePriority newConfig text
            containerWidth fontSize ignoreMinCharacters)
  /\ (forall node,
        Part000.analyzeTextNode oldConfig node
        = Part000.analyzeTextNode newConfig node)
  /\ (forall originalText issues node,
        Part000.generateChanges oldConfig originalText issues node
        = Part000.generateChanges newConfig originalText issues node)
  /\ (forall fontsLoad accepts messageOf node forceChanges,
        Part000.processIndividualNode oldConfig fontsLoad accepts messageOf
          node forceChanges
        = Part000.processIndividualNode newConfig fontsLoad accepts
            messageOf node forceChanges).
Proof.
  split; [unfold Part000.getBatchProcessor; now rewrite Hsame|].
  split; [apply unchanged_width; exact Hsame|].
  split; [apply unchanged_rejoin; exact Hsame|].
  split; [apply unchanged_analysis; exact Hsame|].
  split; [apply unchanged_changes; exact Hsame|].
  apply unchanged_processing; exact Hsame.
Qed.

Lemma unchanged_config_witness :
  Part000.lineBreakThreshold Sample.zeroConfig000
  <> Part000.lineBreakThreshold Sample.minusZeroConfig000
  /\ Part000.analyzeTextNode Sample.zeroConfig000 Sample.autoHeightNode
     = Part000.analyzeTextNode Sample.minusZeroConfig000
         Sample.autoHeightNode.
Proof.
  split.
  - intros H. apply (f_equal Prim2SF) in H. vm_compute in H.
    discriminate H.
  - exact (proj1 (proj2 (proj2 (proj2
             (unchanged_config_behaves_the_same Sample.zeroConfig000
                Sample.minusZeroConfig000 eq_refl))))
             Sample.autoHeightNode).
Defined.

(** ** The predicate that the rejoin does not use *)

(** X25: [shouldRemoveLineBreak] of src/code.ts, which nothing calls,
    removes a break exactly when the rule that is in use removes it and
    neither line is blank, the next line is no bullet point and does not
    start with a capital letter: these exceptions are what the rejoin in
    use leaves out. *)
Theorem shouldRemoveLineBreak_is_the_rule_with_exceptions
    (cfg : CodeTs.ProcessingConfig) (currentLine nextLine : Js.jsstring)
    (containerWidth fontSize : float) :
  CodeTs.shouldRemoveLineBreak cfg currentLine nextLine containerWidth
    fontSize
  = negb (CodeTs.breakAfterLine cfg containerWidth fontSize currentLine)
    && negb (Js.isEmpty (Js.trim currentLine))
    && negb (Js.isEmpty (Js.trim nextLine))
    && negb (CodeTs.isBulletPoint (Js.trim nextLine))
    && negb (CodeTs.startsWithCapital (Js.trim nextLine)).
Proof.
  unfold CodeTs.shouldRemoveLineBreak, CodeTs.breakAfterLine. cbv zeta.
  destruct (Js.isEmpty (Js.trim currentLine));
    [cbn [orb negb]; now rewrite andb_false_r|].
  destruct (Js.isEmpty (Js.trim nextLine));
    [cbn [orb negb]; now rewrite andb_false_r|].
  cbn [orb negb]. rewrite !andb_true_r.
  destruct (CodeTs.endsWithSentenceMark (Js.trim currentLine)).
  - cbn [negb andb].
    destruct (_ <? _)%float; [reflexivity|].
    destruct (CodeTs.isBulletPoint (Js.trim nextLine)); reflexivity.
  - destruct (_ <? _)%float; [reflexivity|]. cbn [negb andb].
    destruct (CodeTs.isBulletPoint (Js.trim nextLine)); [reflexivity|].
    destruct (CodeTs.startsWithCapital (Js.trim nextLine)); reflexivity.
Qed.

(** ** A text without break characters *)





(** ** Scanning the page *)





